(* ===== verification/_CoqProject ===== *)
-Q . S2P
Prelude.v
JsValue.v
RecordStore.v
FindBlueprint.v
Json.v
Integration.v
Crud.v
App.v
Http.v
ReduxSpec.v
Connect.v
GetState.v
Store.v
Decorate.v
Tutorial.v
