(* ===== verification/Prelude.v ===== *)
(** * A verification library for Lore's action/reducer core and its store bridge

    Lore (src/packages/...) wires Backbone collections, Redux and React
    together.  The parts of the repository that carry program logic are

    - the find blueprint ([src/packages/lore-actions/src/blueprints/find.js]):
      the thunk behind [lore.actions.<model>.find(query, pagination)]
      dispatches an optimistic action synchronously, issues one fetch and
      reconciles with a success or an error action when the fetch settles;
    - the connect decorator ([src/packages/lore-hook-connect/src/connect.js]):
      a React class that selects a slice of the Redux state, subscribes to
      the store when asked to, and defers [setState] by one timer tick,
      guarded by [isMounted];
    - the integration test [src/packages/lore/test/integration/redux.spec.js]:
      ten scenarios (create, find, get, update, destroy, with string and
      numeric ids) that drive the dispatcher and read the reducers' state;
    - the tutorial components [Guessatron.js], a component decorated by
      connect, and [DeleteLink.js], whose [onDestroy] destroys a tweet once
      a confirmation dialog is submitted;
    - the example configuration [src/examples/auth/config/models.js]: the
      API root and the [Authorization] header of every request.

    The record store (the reducers [byCid], [byId], [find]) and the create,
    update, destroy and get blueprints are not under src/: they are
    modelled from sections 4.1 and 4.2 of the spec and marked
    spec_modelled in the manifest.

    Layout (one file per component, in dependency order):

    - [Prelude]: this header, the [lore_scope] notations, the effect monad
      [eff] (state passing plus JavaScript exceptions that keep the effects
      performed before the throw), the [lore] hint databases and generic
      list and string lemmas.
    - [JsValue]: JavaScript values (objects as association lists, since
      insertion order matters to lodash and to [JSON.stringify]), decidable
      equality, property access, lodash's [_.extend]/[_.assign] and
      [_.isPlainObject], [JSON.stringify] and the order-independent query
      key of spec section 3.
    - [RecordStore]: the collection cache (stdpp gmaps), the twelve pure
      operations of spec section 4.1 as a step relation, the coherence
      invariant and its preservation, and the edge cases of the spec
      (create/find convergence, destroy wins).
    - [FindBlueprint]: find.js line by line: options, the configuration
      errors, the query parameters and combined query, the synchronous
      optimistic dispatch, and the settlement through
      [.then(success).catch(failure)], over an abstract Redux store that may
      throw, with the effects in an event log and Backbone's client-id
      counter in the [world].
    - [Json]: a parser for the text [JSON.stringify] writes, the round trip
      [json_roundtrip] (parsing the text of a value gives back the value as
      JSON sees it), and so the injectivity of the query key: two finds
      filed under one key asked for the same filter and pagination.
    - [Integration]: the find reducers reading the actions find.js
      dispatches, the application invariant [app_wf] and its preservation
      by each find step.
    - [Crud]: the other four verbs (guards, one request, the optimistic and
      reconciling transitions) and the fixtures of the scenarios.
    - [App]: the event loop interleaving every verb and settlement in any
      order, and the invariant along every run (claim C1).
    - [Http]: models.js, the route table and URLs of the spec's network
      boundary, [logs_only] (what a computation appends to the log) and
      the refinement: every call of the dispatcher sends exactly the
      requests of its route, on the record's server id; the URL and the
      [Authorization] header read back by a server.
    - [ReduxSpec]: redux.spec.js: the [nock] interceptors of its describe
      blocks as a mock server that answers the request a verb logged (its
      URL built as in [Http]), and the ten scenarios run against it.
    - [Connect]: connect.js: each method of the decorated class, React's
      lifecycle as the step relation [bstep] over a [bridge] (store state,
      listeners, instances, timer queue, log of select/setState/render),
      the subscription invariant, safety after unmount, liveness of a store
      change, the bound on the timer queue.
    - [GetState]: getState.js of lore-hook-connect (not in the
      repository) for a find key, from the spec: a cache hit is read, a
      miss or [options.force] runs the find thunk; composed with
      [getStateOnMount], which option refetches on activation.
    - [Store]: Redux's [dispatch] composing the find reducers of
      [Integration] with the bridge's listeners, and a find settlement
      followed through the blueprint, the store and the bridge: the
      fetched records reach every subscribed view, and a view whose
      [select] throws turns a successful fetch into an error action.
    - [Decorate]: connect.js's factory: [module.exports], [connect(select,
      options = {})], the class and its display name, [class_mount] (the
      [options.subscribe] read after the first render), and the two usages
      of connect.js's doc comment as fixtures.
    - [Tutorial]: React elements ([vnode]), Guessatron (selector, styles,
      propTypes, render, its connected class) and DeleteLink (constructor,
      styles, render, click, dialog).

    Theorems: invariants by rule induction on the step relations ([App],
    [Connect], [Decorate]); the refinement of the network boundary
    ([Http]); functional specifications of each handler on every branch,
    error paths included ([FindBlueprint], [Connect], [Crud], [Tutorial]);
    the equivalence of two finds' cache keys with the equality of their
    queries up to key order ([Json]); the composition of the blueprint,
    the store and the bridge ([Store]); the round trip of the JSON text
    ([Json]); the bound on queued updates ([Connect]); and the findings,
    each a theorem showing the behaviour of the code.  The test scenarios
    of redux.spec.js are evaluated on the model by [vm_compute] as
    lemmas of [ReduxSpec].  Every
    loop of the code is structural recursion on a list, and [fire_all n]
    runs exactly the [n] queued timer callbacks.  The one fuel of the
    development is the JSON parser's ([Json.parse_value]): each call
    consumes one unit, and [json_roundtrip] proves that the size [jsize]
    of the value is enough, so the parser never runs out on a text
    [JSON.stringify] wrote.

    Not modelled: React's rendering beyond the props it receives, Backbone's
    HTTP transport (a fetch or a request is an event in the log and its
    settlement an input), [getState.js] beyond the find reads the spec
    describes, the utilities [defaultOptions] and [validatePartialPairs]
    (parameters of the blueprint; [defaultsDeep] is a first-level union of
    complete hooks, so lodash's deep merge of a partial hook and an
    explicit [null] option are not represented; [getActions] and
    [dispatchActions] are functions of the models' attributes that do not
    throw), the dialog component DeleteLink opens (only its
    submit and cancel), [randomColor] (the string it returned is a
    parameter), the mounting of React elements into the DOM, and the hook
    defaults test of lore-hook-actions (it reads
    lore-hook-actions/src/index.js, which is not in the repository).
    The bridge is proved for every [getState] that only reads the store:
    [select] and [getState] are pure there, so a [getState] that fires
    actions while a listener or [shouldComponentUpdate] selects (the
    re-entrant notifications the comment of connect.js lines 88-93
    describes, and what [GetState.getState_find] does on a miss or with
    [force]) is not composed with the bridge; in particular the draining
    of the timer queue ([Connect.timers_drain]) holds only for such a
    [getState].
    Member access throws on [undefined] and [null] ([js_member]) where the
    code may meet them (selectors, render, options); elsewhere the code
    reads properties of objects it built.  JavaScript objects
    keep insertion order; the ECMAScript rule that enumerates integer-like
    keys first is not modelled.
*)

From stdpp Require Export base list gmap strings pretty sorting.
From Stdlib Require Export ZArith.

Declare Scope lore_scope.
Delimit Scope lore_scope with lore.
Open Scope lore_scope.

(** ** Outcomes and the effect monad

    JavaScript code may return a value or throw; the effects it performed
    before throwing persist.  [eff E S A] threads a state [S] and returns a
    value of [A] or an exception of [E], keeping the state in both cases. *)

Inductive outcome (E A : Type) : Type :=
| Ret (a : A)
| Throw (e : E).
Arguments Ret {E A} a.
Arguments Throw {E A} e.

(** [outcome E] is a monad: a computation that returns or throws. *)
#[export] Instance outcome_ret {E} : MRet (outcome E) := fun A a => Ret a.
#[export] Instance outcome_bind {E} : MBind (outcome E) :=
  fun A B f o => match o with Ret a => f a | Throw e => Throw e end.

Definition eff (E S A : Type) : Type := S -> outcome E A * S.

Section Eff.
Context {E S : Type}.

Definition eret {A} (a : A) : eff E S A := fun s => (Ret a, s).

Definition ebind {A B} (m : eff E S A) (k : A -> eff E S B) : eff E S B :=
  fun s =>
    match m s with
    | (Ret a, s') => k a s'
    | (Throw e, s') => (Throw e, s')
    end.

Definition ethrow {A} (e : E) : eff E S A := fun s => (Throw e, s).

(** [etry m] runs [m] and reifies its outcome: the JavaScript
    [try { m } catch (e) { ... }] and a promise's [.catch]. *)
Definition etry {A} (m : eff E S A) : eff E S (outcome E A) :=
  fun s => let (o, s') := m s in (Ret o, s').

Definition eget : eff E S S := fun s => (Ret s, s).
Definition eput (s : S) : eff E S unit := fun _ => (Ret tt, s).
Definition emodify (f : S -> S) : eff E S unit := fun s => (Ret tt, f s).

(** Sequencing over a list, as a JavaScript [for] loop or [forEach]. *)
(** A computed outcome as a computation: the value, or the exception
    thrown. *)
Definition elift {A} (o : outcome E A) : eff E S A := fun s => (o, s).

Fixpoint eiter {A} (f : A -> eff E S unit) (l : list A) : eff E S unit :=
  match l with
  | [] => eret tt
  | x :: l' => ebind (f x) (fun _ => eiter f l')
  end.
End Eff.

Notation "x <- m ;; k" := (ebind m (fun x => k))
  (at level 100, m at next level, right associativity) : lore_scope.
Notation "m ;;; k" := (ebind m (fun _ => k))
  (at level 100, right associativity) : lore_scope.

(** Running a computation and reading its result and final state. *)
Definition run {E S A} (m : eff E S A) (s : S) : outcome E A * S := m s.

Section EffLaws.
Context {E S : Type}.

Lemma ebind_ret_l {A B} (a : A) (k : A -> eff E S B) s :
  ebind (eret a) k s = k a s.
Proof. reflexivity. Qed.

Lemma ebind_ret_r {A} (m : eff E S A) s : ebind m eret s = m s.
Proof. unfold ebind. by destruct (m s) as [[] ?]. Qed.

Lemma ebind_assoc {A B C} (m : eff E S A) (k : A -> eff E S B)
      (h : B -> eff E S C) s :
  ebind (ebind m k) h s = ebind m (fun a => ebind (k a) h) s.
Proof. unfold ebind. by destruct (m s) as [[] ?]. Qed.

Lemma ebind_throw {A B} (e : E) (k : A -> eff E S B) s :
  ebind (ethrow e) k s = (Throw e, s).
Proof. reflexivity. Qed.

Lemma ebind_step {A B} (m : eff E S A) (k : A -> eff E S B) s a s' :
  m s = (Ret a, s') -> ebind m k s = k a s'.
Proof. unfold ebind. by intros ->. Qed.

Lemma ebind_step_throw {A B} (m : eff E S A) (k : A -> eff E S B) s e s' :
  m s = (Throw e, s') -> ebind m k s = (Throw e, s').
Proof. unfold ebind. by intros ->. Qed.

Lemma etry_step {A} (m : eff E S A) s :
  etry m s = (Ret (fst (m s)), snd (m s)).
Proof. unfold etry. by destruct (m s). Qed.

Lemma eiter_app {A} (f : A -> eff E S unit) l1 l2 s :
  eiter f (l1 ++ l2) s = ebind (eiter f l1) (fun _ => eiter f l2) s.
Proof.
  revert s. induction l1 as [|x l1 IH]; intros s; simpl; [done|].
  unfold ebind at 1 2 3. destruct (f x s) as [[] s']; [|done].
  apply IH.
Qed.
End EffLaws.

Create HintDb lore discriminated.
Create Rewrite HintDb lore_rw.
#[export] Hint Rewrite @ebind_ret_l @ebind_assoc @ebind_throw : lore_rw.

(** ** Generic lemmas on lists shared by the components *)

Lemma list_elem_of_filter_neg {A} (P : A -> Prop) `{!forall x, Decision (P x)} (l : list A) x :
  ~ P x -> x ∉ filter P l.
Proof. rewrite list_elem_of_filter. naive_solver. Qed.

#[export] Hint Resolve list_elem_of_filter_neg : lore.

Lemma list_omap_cons_Some {A B} (f : A -> option B) x l y :
  f x = Some y -> omap f (x :: l) = y :: omap f l.
Proof. intros H. simpl. by rewrite H. Qed.

Lemma list_omap_cons_None {A B} (f : A -> option B) x l :
  f x = None -> omap f (x :: l) = omap f l.
Proof. intros H. simpl. by rewrite H. Qed.

(** The second components of a list of pairs are distinct when the first
    ones are and equal second components come with equal first ones. *)
Lemma NoDup_snd_of_fst {A B} (ls : list (A * B)) :
  NoDup ls.*1 -> (forall x y, x ∈ ls -> y ∈ ls -> x.2 = y.2 -> x.1 = y.1) -> NoDup ls.*2.
Proof.
  induction ls as [|x ls IH]; intros Hnd Hinj; [constructor|].
  simpl in *. apply NoDup_cons in Hnd as [Hx Hnd]. constructor.
  - intros (y & Hy & Hyl)%list_elem_of_fmap. apply Hx, list_elem_of_fmap.
    exists y. split; [|done]. apply Hinj; [left|by right|done].
  - apply IH; [done|]. intros a b Ha Hb. apply Hinj; by right.
Qed.

(** ** Generic lemmas on strings

    stdpp does not let [simpl] unfold [String.append]; these are its
    equations. *)

Lemma string_app_nil_l (s : string) : "" +:+ s = s.
Proof. reflexivity. Qed.

Lemma string_app_cons c (s t : string) : String c s +:+ t = String c (s +:+ t).
Proof. reflexivity. Qed.

Lemma string_app_assoc (s1 s2 s3 : string) : (s1 +:+ s2) +:+ s3 = s1 +:+ (s2 +:+ s3).
Proof. induction s1 as [|c s1 IH]; [done|]. rewrite !string_app_cons. by f_equal. Qed.

Lemma string_app_nil_r (s : string) : s +:+ "" = s.
Proof. induction s as [|c s IH]; [done|]. rewrite string_app_cons. by f_equal. Qed.

#[export] Hint Rewrite string_app_nil_l string_app_cons string_app_assoc string_app_nil_r : lore_rw.

(** [simpl_eff] unfolds the monad's plumbing in a goal about a run. *)
Ltac simpl_eff :=
  repeat (unfold run, ebind, eret, ethrow, etry, eget, eput, emodify, elift in *;
          simpl in * ).
