(* ===== verification/JsValue.v ===== *)
(** * JavaScript values and the lodash / JSON operations Lore applies to them

    The values find.js and connect.js build and inspect (queries, pagination,
    option bags, selected slices, server responses) as one inductive type.
    Objects are association lists: insertion order is observable through
    [_.extend] and [JSON.stringify].  The file also holds the query-key
    serialisation of cached find results, which spec section 3 requires to
    be independent of the order in which the filter's keys were inserted. *)

From S2P Require Import Prelude.
From Stdlib Require Import Ascii String.
#[local] Set Warnings "-clear-no-such-hyp".

#[warnings="-register-all"]
Inductive jsval : Type :=
| JUndef
| JNull
| JBool (b : bool)
| JNum (n : Z)
| JStr (s : string)
| JArr (xs : list jsval)
| JObj (fs : list (string * jsval)).

(** The induction principle Rocq derives ignores the nested lists; this one
    gives a hypothesis for every element and every field. *)
Section JsvalInd.
Variable P : jsval -> Prop.
Hypothesis HUndef : P JUndef.
Hypothesis HNull : P JNull.
Hypothesis HBool : forall b, P (JBool b).
Hypothesis HNum : forall n, P (JNum n).
Hypothesis HStr : forall s, P (JStr s).
Hypothesis HArr : forall xs, Forall P xs -> P (JArr xs).
Hypothesis HObj : forall fs, Forall (fun kv => P kv.2) fs -> P (JObj fs).

Fixpoint jsval_ind' (v : jsval) : P v :=
  match v with
  | JUndef => HUndef
  | JNull => HNull
  | JBool b => HBool b
  | JNum n => HNum n
  | JStr s => HStr s
  | JArr xs =>
      HArr xs ((fix go (l : list jsval) : Forall P l :=
                  match l with
                  | [] => Forall_nil_2 _
                  | x :: l' => Forall_cons_2 _ _ _ (jsval_ind' x) (go l')
                  end) xs)
  | JObj fs =>
      HObj fs ((fix go (l : list (string * jsval)) : Forall (fun kv => P kv.2) l :=
                  match l with
                  | [] => Forall_nil_2 _
                  | kv :: l' => Forall_cons_2 _ _ _ (jsval_ind' kv.2) (go l')
                  end) fs)
  end.
End JsvalInd.

(** Equality of JavaScript values is decidable (structural equality, as
    lodash's [_.isEqual] on these values). *)
#[export] Instance jsval_eq_dec : EqDecision jsval.
Proof.
  refine (fix go (v w : jsval) {struct v} : Decision (v = w) :=
    match v, w with
    | JUndef, JUndef => left eq_refl
    | JNull, JNull => left eq_refl
    | JBool a, JBool b => cast_if (decide (a = b))
    | JNum a, JNum b => cast_if (decide (a = b))
    | JStr a, JStr b => cast_if (decide (a = b))
    | JArr xs, JArr ys => cast_if (@list_eq_dec _ go xs ys)
    | JObj fs, JObj gs =>
        cast_if (@list_eq_dec _ (@prod_eq_dec _ _ _ go) fs gs)
    | _, _ => right _
    end); congruence.
Defined.

(** ** Property access and update *)

(** [obj[k]] on a value: the first binding of [k], [undefined] if there is
    none or if the value is not an object. *)
Fixpoint assoc_get (fs : list (string * jsval)) (k : string) : jsval :=
  match fs with
  | [] => JUndef
  | (k', v) :: fs' => if String.eqb k k' then v else assoc_get fs' k
  end.

Definition get_prop (v : jsval) (k : string) : jsval :=
  match v with
  | JObj fs => assoc_get fs k
  | _ => JUndef
  end.

(** [obj[k] = v]: an existing key keeps its position, a new key is
    appended. *)
Fixpoint assoc_set (k : string) (v : jsval) (fs : list (string * jsval))
  : list (string * jsval) :=
  match fs with
  | [] => [(k, v)]
  | (k', v') :: fs' =>
      if String.eqb k k' then (k', v) :: fs' else (k', v') :: assoc_set k v fs'
  end.

(** JavaScript truthiness, as in [if (!options.collection)]. *)
Definition truthy (v : jsval) : bool :=
  match v with
  | JUndef | JNull => false
  | JBool b => b
  | JNum n => negb (Z.eqb n 0)
  | JStr s => negb (String.eqb s EmptyString)
  | JArr _ | JObj _ => true
  end.

(** [String(v)]: how [%s] in a message and [+] with a string convert a
    value. *)
Fixpoint js_to_string (v : jsval) : string :=
  match v with
  | JUndef => "undefined"
  | JNull => "null"
  | JBool true => "true"
  | JBool false => "false"
  | JNum n => pretty n
  | JStr s => s
  | JArr xs =>
      String.concat ","
        (map (fun x => match x with JUndef | JNull => EmptyString | _ => js_to_string x end) xs)
  | JObj _ => "[object Object]"
  end.

(** The [TypeError] a member access [v.k] throws when [v] is [undefined]
    or [null]; its message is the one of the V8 engine of the code's
    time. *)
Definition type_error (k : string) (v : jsval) : jsval :=
  JObj [("message", JStr ("Cannot read property '" +:+ k +:+ "' of " +:+ js_to_string v));
        ("name", JStr "TypeError")].

(** [v == null]: the values a member access throws on. *)
Definition nullish (v : jsval) : bool :=
  match v with JUndef | JNull => true | _ => false end.

(** The member access [v.k] of JavaScript: it throws on [undefined] and
    [null] and reads the property otherwise (a primitive has none of the
    properties the code reads). *)
Definition js_member (v : jsval) (k : string) : outcome jsval jsval :=
  match v with
  | JUndef | JNull => Throw (type_error k v)
  | _ => Ret (get_prop v k)
  end.

(** ** lodash *)

(** The own and inherited enumerable string-keyed properties lodash's
    [keysIn] reads from a source: the fields of an object, the indices of an
    array or of a string, nothing for [null], [undefined], booleans and
    numbers. *)
Definition index_keys {A} (f : A -> jsval) (xs : list A) : list (string * jsval) :=
  imap (fun i x => (pretty (N.of_nat i), f x)) xs.

Definition keys_in (v : jsval) : list (string * jsval) :=
  match v with
  | JObj fs => fs
  | JArr xs => index_keys id xs
  | JStr s => index_keys (fun c => JStr (String c EmptyString)) (String.list_ascii_of_string s)
  | _ => []
  end.

(** [_.extend(target, ...sources)] (lodash's [assignIn]): each source in
    turn, each property in enumeration order, assigned onto the target. *)
Definition assign_in (target : list (string * jsval)) (sources : list jsval)
  : list (string * jsval) :=
  foldl (fun acc src => foldl (fun acc' kv => assoc_set kv.1 kv.2 acc') acc (keys_in src))
        target sources.

(** [_.isPlainObject]: an object literal; arrays and primitives are not. *)
Definition is_plain_object (v : jsval) : bool :=
  match v with JObj _ => true | _ => false end.

(** A JavaScript object never has two properties with the same key. *)
Definition obj_wf (fs : list (string * jsval)) : Prop := NoDup fs.*1.

(** ** JSON.stringify *)

Definition ascii_dquote : ascii := Ascii.ascii_of_nat 34.
Definition ascii_bslash : ascii := Ascii.ascii_of_nat 92.

Definition hex_digit (n : nat) : ascii :=
  Ascii.ascii_of_nat (if n <? 10 then 48 + n else 87 + n).

(** One character of a JSON string literal: the quote and the backslash
    are escaped, the named control characters get their short escape, the
    other characters below 0x20 are written [\u00XY] in lower-case hex. *)
Definition json_escape_char (c : ascii) : string :=
  let n := Ascii.nat_of_ascii c in
  let esc d := String ascii_bslash (String d EmptyString) in
  if n =? 34 then esc ascii_dquote
  else if n =? 92 then esc ascii_bslash
  else if n =? 8 then esc "b"%char
  else if n =? 12 then esc "f"%char
  else if n =? 10 then esc "n"%char
  else if n =? 13 then esc "r"%char
  else if n =? 9 then esc "t"%char
  else if n <? 32 then
    String ascii_bslash (String "u"%char (String "0"%char (String "0"%char
      (String (hex_digit (n / 16)) (String (hex_digit (n mod 16)) EmptyString)))))
  else String c EmptyString.

Fixpoint json_escape (s : string) : string :=
  match s with
  | EmptyString => EmptyString
  | String c s' => json_escape_char c +:+ json_escape s'
  end.

Definition json_quote (s : string) : string :=
  String ascii_dquote (json_escape s +:+ String ascii_dquote EmptyString).

(** [JSON.stringify v]: [None] is the [undefined] it returns for
    [undefined]; inside an object a property whose value is [undefined] is
    skipped, inside an array it is written [null]. *)
Fixpoint json_stringify (v : jsval) : option string :=
  match v with
  | JUndef => None
  | JNull => Some "null"
  | JBool true => Some "true"
  | JBool false => Some "false"
  | JNum n => Some (pretty n)
  | JStr s => Some (json_quote s)
  | JArr xs =>
      Some ("[" +:+ String.concat ","
              (map (fun x => default "null" (json_stringify x)) xs) +:+ "]")
  | JObj fs =>
      Some ("{" +:+ String.concat ","
              (omap (fun kv => s ← json_stringify kv.2;
                               Some (json_quote kv.1 +:+ ":" +:+ s)) fs) +:+ "}")
  end.

(** ** The query key of a cached find result

    Spec section 3: the key is a deterministic serialisation of the
    combined query [{where, pagination}], equal for two filters that differ
    only in the order their keys were inserted.  The key is [JSON.stringify]
    of the value with the fields of every object sorted by key. *)

Definition key_le (p q : string * jsval) : Prop := String.le p.1 q.1.

#[export] Instance key_le_dec : RelDecision key_le.
Proof. intros p q. unfold key_le. apply _. Defined.

Fixpoint canonical (v : jsval) : jsval :=
  match v with
  | JArr xs => JArr (map canonical xs)
  | JObj fs => JObj (merge_sort key_le (map (fun kv => (kv.1, canonical kv.2)) fs))
  | _ => v
  end.

Definition query_key (query : jsval) : option string := json_stringify (canonical query).

(** ** Lemmas *)

Lemma assoc_get_set fs k v k' :
  assoc_get (assoc_set k v fs) k' = if String.eqb k' k then v else assoc_get fs k'.
Proof.
  induction fs as [|[k1 v1] fs IH]; simpl.
  - by destruct (String.eqb k' k).
  - destruct (String.eqb_spec k k1) as [->|Hne]; simpl.
    + by destruct (String.eqb k' k1).
    + rewrite IH. destruct (String.eqb_spec k' k1), (String.eqb_spec k' k); congruence.
Qed.

Lemma assoc_get_elem_of fs k :
  k ∉ fs.*1 -> assoc_get fs k = JUndef.
Proof.
  induction fs as [|[k1 v1] fs IH]; simpl; [done|].
  rewrite elem_of_cons. intros Hk. destruct (String.eqb_spec k k1); naive_solver.
Qed.

(** Assigning the properties of a well-formed object [src] one by one onto
    [acc]: a key of [src] reads [src]'s value, any other key is unchanged. *)
Lemma assoc_get_assign_fields acc src k :
  obj_wf src ->
  assoc_get (foldl (fun acc' kv => assoc_set kv.1 kv.2 acc') acc src) k =
  if decide (k ∈ src.*1) then assoc_get src k else assoc_get acc k.
Proof.
  unfold obj_wf. revert acc.
  induction src as [|[k1 v1] src IH]; intros acc Hwf; simpl; [done|].
  apply NoDup_cons in Hwf as [Hk1 Hwf]. rewrite IH by done.
  rewrite assoc_get_set.
  destruct (String.eqb_spec k k1) as [->|Hne].
  - rewrite decide_False by done. by rewrite decide_True by set_solver.
  - case_decide; case_decide; set_solver.
Qed.

(** [_.extend({}, a, b)] with two well-formed objects: [b]'s properties win. *)
Lemma get_prop_extend2 a b k :
  obj_wf a -> obj_wf b ->
  get_prop (JObj (assign_in [] [JObj a; JObj b])) k =
  if decide (k ∈ b.*1) then assoc_get b k else assoc_get a k.
Proof.
  intros Ha Hb. simpl.
  rewrite (assoc_get_assign_fields _ b) by done.
  rewrite (assoc_get_assign_fields _ a) by done.
  case_decide; [done|]. case_decide; [done|].
  symmetry. by apply assoc_get_elem_of.
Qed.

(** [_.extend(t, a, b)] with two well-formed objects: [b]'s properties
    win over [a]'s, which win over the target's. *)
Lemma get_prop_assign2 t a b k :
  obj_wf a -> obj_wf b ->
  get_prop (JObj (assign_in t [JObj a; JObj b])) k =
  if decide (k ∈ b.*1) then assoc_get b k
  else if decide (k ∈ a.*1) then assoc_get a k else assoc_get t k.
Proof.
  intros Ha Hb. simpl.
  rewrite (assoc_get_assign_fields _ b) by done.
  by rewrite (assoc_get_assign_fields _ a) by done.
Qed.

(** Two fields of a well-formed object with the same key are the same
    field. *)
Lemma obj_wf_key_inj (fs : list (string * jsval)) p q :
  obj_wf fs -> p ∈ fs -> q ∈ fs -> p.1 = q.1 -> p = q.
Proof.
  unfold obj_wf. induction fs as [|r fs IH]; simpl; [set_solver|].
  rewrite NoDup_cons, !elem_of_cons. intros [Hr Hnd] Hp Hq Hk.
  destruct Hp as [->|Hp], Hq as [->|Hq]; [done| | |by apply IH].
  - destruct Hr. rewrite Hk. by apply list_elem_of_fmap_2.
  - destruct Hr. rewrite <-Hk. by apply list_elem_of_fmap_2.
Qed.

#[export] Instance key_le_trans : Transitive key_le.
Proof. intros p q r. unfold key_le. apply transitivity. Qed.

#[export] Instance key_le_total : Total key_le.
Proof. intros p q. unfold key_le. apply total, _. Qed.

Lemma key_le_antisym p q : key_le p q -> key_le q p -> p.1 = q.1.
Proof. unfold key_le. apply anti_symm, _. Qed.

Lemma canonical_fields_keys (fs : list (string * jsval)) :
  (map (fun kv => (kv.1, canonical kv.2)) fs).*1 = fs.*1.
Proof. induction fs as [|[k v] fs IH]; csimpl; by f_equal. Qed.

(** Sorting by key identifies every reordering of a well-formed list of
    fields. *)
Lemma merge_sort_key_perm (fs gs : list (string * jsval)) :
  obj_wf fs -> fs ≡ₚ gs -> merge_sort key_le fs = merge_sort key_le gs.
Proof.
  intros Hwf Hperm. apply (Sorted_unique_strong key_le).
  - intros x1 x2 Hx1 Hx2 H12 H21.
    rewrite merge_sort_Permutation in Hx1. rewrite merge_sort_Permutation, <-Hperm in Hx2.
    apply (obj_wf_key_inj fs); [done..|]. by apply key_le_antisym.
  - apply Sorted_merge_sort, _.
  - apply Sorted_merge_sort, _.
  - by rewrite !merge_sort_Permutation.
Qed.

Lemma canonical_obj_perm (fs gs : list (string * jsval)) :
  obj_wf fs -> fs ≡ₚ gs -> canonical (JObj fs) = canonical (JObj gs).
Proof.
  intros Hwf Hperm. simpl. f_equal. apply merge_sort_key_perm.
  - unfold obj_wf. by rewrite canonical_fields_keys.
  - by apply Permutation_map.
Qed.

Lemma js_member_nullish v k : nullish v = true -> js_member v k = Throw (type_error k v).
Proof. by destruct v. Qed.

Lemma js_member_def v k : nullish v = false -> js_member v k = Ret (get_prop v k).
Proof. by destruct v. Qed.

Lemma js_member_obj fs k : js_member (JObj fs) k = Ret (assoc_get fs k).
Proof. done. Qed.
