(* ===== verification/RecordStore.v ===== *)
(** * The record store: the collection cache and its reducers

    The reducers [byCid], [byId] and [find] that redux.spec.js inspects
    ([state.todo.byCid], [state.todo.byId], [state.todo.find]) are not under
    src/; this file models them from the operations of spec section 4.1.
    A cache holds every record twice, under its client id and (once the
    server has confirmed it) under its server id, and the query results
    under their query key.  [cache_wf] states that the three maps agree;
    every operation preserves it. *)

From S2P Require Import Prelude JsValue.
#[local] Set Warnings "-clear-no-such-hyp".

Inductive record_state :=
| RESOLVED
| PENDING_OPTIMISTIC
| PENDING_UPDATE
| PENDING_DESTROY
| ERROR.

#[export] Instance record_state_eq_dec : EqDecision record_state.
Proof. solve_decision. Defined.

Inductive query_state := QPENDING | QRESOLVED | QERROR.

#[export] Instance query_state_eq_dec : EqDecision query_state.
Proof. solve_decision. Defined.

Abbreviation fields := (list (string * jsval)).

Record record := mkRecord {
  cid : string;
  sid : option string;
  data : fields;
  rstate : record_state;
  rerror : jsval;
  prior : option fields
}.

Record query_result := mkQuery {
  record_ids : list string;
  qstate : query_state;
  qerror : jsval
}.

Record cache := mkCache {
  byCid : gmap string record;
  byId : gmap string record;
  find : gmap string query_result
}.

Definition empty_cache : cache := mkCache ∅ ∅ ∅.

(** ** Helpers shared by the operations *)

(** [Object.assign({}, old, fresh)] on record data: the fresh values win. *)
Definition merge_data (old fresh : fields) : fields := assign_in old [JObj fresh].

Definition set_record (r : record) (d : fields) (st : record_state) (err : jsval)
    (pr : option fields) : record :=
  mkRecord (cid r) (sid r) d st err pr.

(** Store a record under its client id and, if it has one, its server id. *)
Definition put_record (r : record) (c : cache) : cache :=
  mkCache (<[cid r := r]> (byCid c))
          (match sid r with Some i => <[i := r]> (byId c) | None => byId c end)
          (find c).

(** Remove a record from both indices. *)
Definition remove_record (r : record) (c : cache) : cache :=
  mkCache (delete (cid r) (byCid c))
          (match sid r with Some i => delete i (byId c) | None => byId c end)
          (find c).

(** Drop a server id from the result of every cached query. *)
Definition purge_id (i : string) (c : cache) : cache :=
  mkCache (byCid c) (byId c)
          ((fun q => mkQuery (filter (fun j => j <> i) (record_ids q)) (qstate q) (qerror q))
             <$> find c).

(** Rewrite the record at a client id, if there is one. *)
Definition alter_record (k : string) (f : record -> record) (c : cache) : cache :=
  match byCid c !! k with
  | Some r => put_record (f r) c
  | None => c
  end.

(** ** The operations of spec section 4.1 *)

Definition applyOptimisticCreate (k : string) (d : fields) (c : cache) : cache :=
  match byCid c !! k with
  | Some _ => c
  | None => put_record (mkRecord k None d PENDING_OPTIMISTIC JNull None) c
  end.

(** The confirmed record replaces any record a find had already brought in
    under the same server id, so that one record stays per server id. *)
Definition applyCreateSuccess (k i : string) (d : fields) (c : cache) : cache :=
  match byCid c !! k with
  | Some r =>
      match sid r with
      | None =>
          let c1 := match byId c !! i with
                    | Some old => remove_record old c
                    | None => c
                    end in
          put_record (mkRecord k (Some i) (merge_data (data r) d) RESOLVED JNull None) c1
      | Some _ => c
      end
  | None => c
  end.

Definition applyCreateError (k : string) (err : jsval) (c : cache) : cache :=
  alter_record k (fun r => set_record r (data r) ERROR err (prior r)) c.

Definition applyOptimisticUpdate (k : string) (partial : fields) (c : cache) : cache :=
  alter_record k (fun r =>
    set_record r (merge_data (data r) partial) PENDING_UPDATE (rerror r) (Some (data r))) c.

Definition applyUpdateSuccess (k : string) (d : fields) (c : cache) : cache :=
  alter_record k (fun r => set_record r (merge_data (data r) d) RESOLVED JNull None) c.

Definition applyUpdateError (k : string) (err : jsval) (c : cache) : cache :=
  alter_record k (fun r => set_record r (default (data r) (prior r)) ERROR err None) c.

Definition applyOptimisticDestroy (k : string) (c : cache) : cache :=
  alter_record k (fun r => set_record r (data r) PENDING_DESTROY (rerror r) (prior r)) c.

Definition applyDestroySuccess (k : string) (c : cache) : cache :=
  match byCid c !! k with
  | Some r =>
      let c1 := remove_record r c in
      match sid r with Some i => purge_id i c1 | None => c1 end
  | None => c
  end.

Definition applyDestroyError (k : string) (err : jsval) (c : cache) : cache :=
  alter_record k (fun r => set_record r (data r) RESOLVED err (prior r)) c.

Definition applyFindPending (key : string) (c : cache) : cache :=
  mkCache (byCid c) (byId c) (<[key := mkQuery [] QPENDING JNull]> (find c)).

(** A record of a find result: its client id (Backbone gave one to every
    model of the fetched collection), its server id and its data. *)
Record found := mkFound { f_cid : string; f_id : string; f_data : fields }.

(** Upsert by server id: a record the cache already knows under that server
    id keeps its client id and takes the server's data; an unknown one is
    added under the client id of the fetched model. *)
Definition upsert_found (c : cache) (x : found) : cache :=
  match byId c !! f_id x with
  | Some r => put_record (set_record r (f_data x) RESOLVED JNull None) c
  | None => put_record (mkRecord (f_cid x) (Some (f_id x)) (f_data x) RESOLVED JNull None) c
  end.

Definition applyFindSuccess (key : string) (xs : list found) (c : cache) : cache :=
  let c1 := foldl upsert_found c xs in
  mkCache (byCid c1) (byId c1) (<[key := mkQuery (f_id <$> xs) QRESOLVED JNull]> (find c1)).

(** Stale-while-error: the ids cached for the query are kept. *)
Definition applyFindError (key : string) (err : jsval) (c : cache) : cache :=
  mkCache (byCid c) (byId c)
    (<[key := match find c !! key with
              | Some q => mkQuery (record_ids q) QERROR err
              | None => mkQuery [] QERROR err
              end]> (find c)).

(** ** The coherence invariant

    [byCid] and [byId] hold the same record objects: a record is filed
    under its own client id, and under its server id exactly when it has
    one; every id a cached query lists is a record of [byId]. *)

Record indices_wf (c : cache) : Prop := {
  wf_byCid : forall k r, byCid c !! k = Some r ->
             cid r = k /\ forall i, sid r = Some i -> byId c !! i = Some r;
  wf_byId : forall i r, byId c !! i = Some r ->
            sid r = Some i /\ byCid c !! cid r = Some r
}.

Definition queries_wf (c : cache) : Prop :=
  forall key q i, find c !! key = Some q -> i ∈ record_ids q -> is_Some (byId c !! i).

Definition cache_wf (c : cache) : Prop := indices_wf c /\ queries_wf c.

(** Storing [r] keeps the indices coherent when the record it replaces
    under its client id had no server id or the same one, and when it does
    not take over the server id of another client id. *)
Definition put_ok (r : record) (c : cache) : Prop :=
  (forall r0, byCid c !! cid r = Some r0 -> sid r0 = None \/ sid r0 = sid r) /\
  (forall i r0, sid r = Some i -> byId c !! i = Some r0 -> cid r0 = cid r).

Lemma put_record_indices r c :
  indices_wf c -> put_ok r c -> indices_wf (put_record r c).
Proof.
  intros [Hc Hi] [Hk Hs]. split; simpl.
  - intros k r' Hr'. rewrite lookup_insert in Hr'. case_decide as Hkk; simplify_eq.
    + split; [done|]. intros i ->. by rewrite lookup_insert_eq.
    + destruct (Hc _ _ Hr') as [<- Hsid]. split; [done|]. intros i Hi'.
      specialize (Hsid i Hi'). destruct (sid r) as [i0|] eqn:Er; [|done].
      rewrite lookup_insert_ne; [done|]. intros <-. naive_solver.
  - intros i r' Hr'. destruct (sid r) as [i0|] eqn:Er.
    + rewrite lookup_insert in Hr'. case_decide; simplify_eq.
      { split; [done|]. by rewrite lookup_insert_eq. }
      destruct (Hi _ _ Hr') as [Hsid Hcid]. split; [done|].
      rewrite lookup_insert_ne; [done|]. intros Heq.
      rewrite <-Heq in Hcid. destruct (Hk _ Hcid); congruence.
    + destruct (Hi _ _ Hr') as [Hsid Hcid]. split; [done|].
      rewrite lookup_insert_ne; [done|]. intros Heq.
      rewrite <-Heq in Hcid. destruct (Hk _ Hcid); congruence.
Qed.

Lemma remove_record_indices r c :
  indices_wf c -> byCid c !! cid r = Some r -> indices_wf (remove_record r c).
Proof.
  intros [Hc Hi] Hr. split; simpl.
  - intros k r' Hr'. apply lookup_delete_Some in Hr' as [Hne Hr'].
    destruct (Hc _ _ Hr') as [<- Hsid]. split; [done|]. intros i Hi'.
    specialize (Hsid i Hi'). destruct (sid r) as [i0|] eqn:Er; [|done].
    rewrite lookup_delete_ne; [done|]. intros <-.
    destruct (Hc _ _ Hr) as [_ Hr0]. specialize (Hr0 _ Er). congruence.
  - intros i r' Hr'. assert (byId c !! i = Some r') as Hr''.
    { destruct (sid r); [|done]. by apply lookup_delete_Some in Hr' as [_ ?]. }
    destruct (Hi _ _ Hr'') as [Hsid Hcid]. split; [done|].
    rewrite lookup_delete_ne; [done|]. intros Heq. rewrite <-Heq in Hcid.
    rewrite Hr in Hcid. injection Hcid as ->. destruct (sid r') as [j|]; [|done].
    injection Hsid as ->. by rewrite lookup_delete_eq in Hr'.
Qed.

(** The queries stay valid when no server id is lost and the query map is
    untouched. *)
Lemma queries_wf_mono c c' :
  queries_wf c -> find c' = find c ->
  (forall i, is_Some (byId c !! i) -> is_Some (byId c' !! i)) -> queries_wf c'.
Proof. intros Hq Hf Hmono key q i. rewrite Hf. eauto. Qed.

Lemma put_record_byId_mono r c i :
  is_Some (byId c !! i) -> is_Some (byId (put_record r c) !! i).
Proof.
  simpl. destruct (sid r) as [j|]; [|done].
  rewrite lookup_insert. case_decide; eauto.
Qed.

Lemma put_record_cache_wf r c :
  cache_wf c -> put_ok r c -> cache_wf (put_record r c).
Proof.
  intros [Hi Hq] Hok. split; [by apply put_record_indices|].
  apply (queries_wf_mono c); [done|done|]. apply put_record_byId_mono.
Qed.

(** A function that keeps the two ids of a record keeps the cache
    coherent when applied through [alter_record]. *)
Lemma alter_record_cache_wf k f c :
  cache_wf c -> (forall r, cid (f r) = cid r /\ sid (f r) = sid r) ->
  cache_wf (alter_record k f c).
Proof.
  intros Hwf Hf. unfold alter_record. destruct (byCid c !! k) as [r|] eqn:Hr; [|done].
  apply put_record_cache_wf; [done|]. destruct (Hf r) as [Hc Hs].
  destruct Hwf as [[Hcid Hid] _]. destruct (Hcid _ _ Hr) as [<- Hsid].
  split.
  - rewrite Hc, Hr. intros r0 [= <-]. by right.
  - intros i r0 Hi Hr0. rewrite Hs in Hi. rewrite (Hsid _ Hi) in Hr0. by simplify_eq.
Qed.

Lemma set_record_ids r d st err pr :
  cid (set_record r d st err pr) = cid r /\ sid (set_record r d st err pr) = sid r.
Proof. done. Qed.

#[export] Hint Resolve set_record_ids : lore.

(** The record a server id points to is filed under its client id. *)
Lemma byId_byCid c i r :
  indices_wf c -> byId c !! i = Some r -> byCid c !! cid r = Some r /\ sid r = Some i.
Proof. intros [_ Hi] Hr. destruct (Hi _ _ Hr). done. Qed.

(** ** Preservation of the invariant, operation by operation *)

Lemma applyOptimisticCreate_wf k d c :
  cache_wf c -> cache_wf (applyOptimisticCreate k d c).
Proof.
  intros Hwf. unfold applyOptimisticCreate. destruct (byCid c !! k) eqn:Hk; [done|].
  apply put_record_cache_wf; [done|]. split; simpl; [|done]. by rewrite Hk.
Qed.

Lemma applyCreateSuccess_wf k i d c :
  cache_wf c -> cache_wf (applyCreateSuccess k i d c).
Proof.
  intros [Hind Hq]. unfold applyCreateSuccess.
  destruct (byCid c !! k) as [r|] eqn:Hr; [|by split].
  destruct (sid r) as [i0|] eqn:Hsr; [by split|].
  set (r' := mkRecord k (Some i) (merge_data (data r) d) RESOLVED JNull None).
  (* first drop the record a find may have filed under [i] *)
  assert (exists c1, (match byId c !! i with Some old => remove_record old c | None => c end) = c1 /\
            indices_wf c1 /\ byCid c1 !! k = Some r /\ byId c1 !! i = None /\
            (forall j, j <> i -> byId c1 !! j = byId c !! j) /\ find c1 = find c)
    as (c1 & -> & Hind1 & Hk1 & Hi1 & Hj1 & Hf1).
  { destruct (byId c !! i) as [old|] eqn:Hold; eexists; (split; [done|]).
    - destruct (byId_byCid _ _ _ Hind Hold) as [Hold' Hsold].
      assert (cid old <> k) as Hne by (intros <-; congruence).
      split; [by apply remove_record_indices|]. simpl. rewrite Hsold.
      rewrite lookup_delete_ne by done. rewrite lookup_delete_eq.
      split; [done|]. split; [done|]. split; [|done]. intros j Hj. by rewrite lookup_delete_ne.
    - done. }
  split.
  - apply put_record_indices; [done|]. split; simpl.
    + rewrite Hk1. intros r0 [= <-]. by left.
    + intros j r0 [= <-]. rewrite Hi1. discriminate.
  - apply (queries_wf_mono c); [done|exact Hf1|]. intros j Hj. simpl.
    rewrite lookup_insert. case_decide; [done|]. rewrite Hj1; auto.
Qed.

Lemma applyCreateError_wf k err c :
  cache_wf c -> cache_wf (applyCreateError k err c).
Proof. intros. apply alter_record_cache_wf; auto with lore. Qed.

Lemma applyOptimisticUpdate_wf k partial c :
  cache_wf c -> cache_wf (applyOptimisticUpdate k partial c).
Proof. intros. apply alter_record_cache_wf; auto with lore. Qed.

Lemma applyUpdateSuccess_wf k d c :
  cache_wf c -> cache_wf (applyUpdateSuccess k d c).
Proof. intros. apply alter_record_cache_wf; auto with lore. Qed.

Lemma applyUpdateError_wf k err c :
  cache_wf c -> cache_wf (applyUpdateError k err c).
Proof. intros. apply alter_record_cache_wf; auto with lore. Qed.

Lemma applyOptimisticDestroy_wf k c :
  cache_wf c -> cache_wf (applyOptimisticDestroy k c).
Proof. intros. apply alter_record_cache_wf; auto with lore. Qed.

Lemma applyDestroyError_wf k err c :
  cache_wf c -> cache_wf (applyDestroyError k err c).
Proof. intros. apply alter_record_cache_wf; auto with lore. Qed.

Lemma applyDestroySuccess_wf k c :
  cache_wf c -> cache_wf (applyDestroySuccess k c).
Proof.
  intros [Hind Hq]. unfold applyDestroySuccess.
  destruct (byCid c !! k) as [r|] eqn:Hr; [|by split].
  assert (byCid c !! cid r = Some r) as Hr'.
  { by destruct (wf_byCid _ Hind _ _ Hr) as [-> _]. }
  pose proof (remove_record_indices r c Hind Hr') as Hind1.
  destruct (sid r) as [i|] eqn:Hsr.
  - split; [by destruct Hind1; split|].
    intros key q j. simpl. rewrite lookup_fmap.
    destruct (find c !! key) as [q0|] eqn:Hq0; simpl; [|done]. intros [= <-]. simpl.
    rewrite list_elem_of_filter. intros [Hji Hj]. rewrite Hsr.
    rewrite lookup_delete_ne by congruence. eauto.
  - split; [done|]. apply (queries_wf_mono c); [done|done|]. simpl. by rewrite Hsr.
Qed.

Lemma applyFindPending_wf key c :
  cache_wf c -> cache_wf (applyFindPending key c).
Proof.
  intros [[Hc Hi] Hq]. split; [by split|].
  intros key' q j. simpl. rewrite lookup_insert. case_decide.
  - intros [= <-]. simpl. set_solver.
  - eauto.
Qed.

Lemma applyFindError_wf key err c :
  cache_wf c -> cache_wf (applyFindError key err c).
Proof.
  intros [[Hc Hi] Hq]. split; [by split|].
  intros key' q j. simpl. rewrite lookup_insert. case_decide as Hkey; [|eauto].
  subst key'. destruct (find c !! key) as [q0|] eqn:Hq0; intros [= <-]; simpl; [eauto|set_solver].
Qed.

(** The client ids Backbone gave to the models of a fetched collection are
    fresh: distinct, and unknown to the cache. *)
Definition found_fresh (c : cache) (xs : list found) : Prop :=
  NoDup (f_cid <$> xs) /\ forall x, x ∈ xs -> byCid c !! f_cid x = None.

Lemma upsert_found_step c x :
  indices_wf c -> byCid c !! f_cid x = None ->
  indices_wf (upsert_found c x) /\
  (forall j, is_Some (byId c !! j) -> is_Some (byId (upsert_found c x) !! j)) /\
  is_Some (byId (upsert_found c x) !! f_id x) /\
  find (upsert_found c x) = find c /\
  (forall k, k <> f_cid x -> byCid c !! k = None -> byCid (upsert_found c x) !! k = None).
Proof.
  intros Hind Hfresh. unfold upsert_found.
  destruct (byId c !! f_id x) as [r|] eqn:Hr.
  - destruct (byId_byCid _ _ _ Hind Hr) as [Hr' Hsr].
    split; [|split; [apply put_record_byId_mono|]].
    { apply put_record_indices; [done|]. split; simpl.
      - rewrite Hr'. intros r0 [= <-]. by right.
      - intros i r0 Hi Hr0. rewrite Hsr in Hi. injection Hi as <-. congruence. }
    simpl. rewrite Hsr, lookup_insert_eq. split; [done|]. split; [done|].
    intros k _ Hk. rewrite lookup_insert_ne; [done|]. congruence.
  - split; [|split; [apply put_record_byId_mono|]].
    { apply put_record_indices; [done|]. split; simpl.
      - by rewrite Hfresh.
      - intros i r0 [= <-]. congruence. }
    simpl. rewrite lookup_insert_eq. split; [done|]. split; [done|].
    intros k Hk Hk'. by rewrite lookup_insert_ne by congruence.
Qed.

(** Upserting the head of a fresh find result keeps the rest fresh. *)
Lemma found_fresh_step c x xs :
  indices_wf c -> found_fresh c (x :: xs) ->
  indices_wf (upsert_found c x) /\ found_fresh (upsert_found c x) xs.
Proof.
  intros Hind [Hnd Hfresh]. apply NoDup_cons in Hnd as [Hx Hnd].
  destruct (upsert_found_step c x) as (Hind1 & _ & _ & _ & Hcid1);
    [done|by apply Hfresh; left|].
  split; [done|]. split; [done|]. intros y Hy.
  apply Hcid1; [|by apply Hfresh; right].
  intros Heq. apply Hx. rewrite <-Heq. by apply list_elem_of_fmap_2.
Qed.

Lemma foldl_upsert_spec c xs :
  indices_wf c -> found_fresh c xs ->
  indices_wf (foldl upsert_found c xs) /\
  (forall j, is_Some (byId c !! j) -> is_Some (byId (foldl upsert_found c xs) !! j)) /\
  (forall x, x ∈ xs -> is_Some (byId (foldl upsert_found c xs) !! f_id x)) /\
  find (foldl upsert_found c xs) = find c.
Proof.
  revert c. induction xs as [|x xs IH]; intros c Hind Hfr; simpl.
  { split; [done|]. split; [done|]. split; [|done]. intros x Hx. by apply elem_of_nil in Hx. }
  destruct (upsert_found_step c x) as (_ & Hmono1 & Hid1 & Hf1 & _);
    [done|by apply Hfr; left|].
  destruct (found_fresh_step c x xs Hind Hfr) as [Hind1 Hfr1].
  destruct (IH _ Hind1 Hfr1) as (Hind2 & Hmono2 & Hid2 & Hf2).
  split; [done|]. split; [eauto|]. split; [|congruence].
  intros y. rewrite elem_of_cons. intros [->|Hy]; eauto.
Qed.

Lemma applyFindSuccess_wf key xs c :
  cache_wf c -> found_fresh c xs -> cache_wf (applyFindSuccess key xs c).
Proof.
  intros [Hind Hq] Hfresh.
  destruct (foldl_upsert_spec c xs Hind Hfresh) as (Hind1 & Hmono & Hids & Hf).
  split; [by destruct Hind1; split|].
  intros key' q j. simpl. rewrite lookup_insert. case_decide.
  - intros [= <-]. simpl. intros (x & -> & Hx)%list_elem_of_fmap. eauto.
  - rewrite Hf. eauto.
Qed.

(** ** The reducers as one step relation *)

Inductive store_op :=
| OptimisticCreate (k : string) (d : fields)
| CreateSuccess (k i : string) (d : fields)
| CreateError (k : string) (err : jsval)
| OptimisticUpdate (k : string) (partial : fields)
| UpdateSuccess (k : string) (d : fields)
| UpdateError (k : string) (err : jsval)
| OptimisticDestroy (k : string)
| DestroySuccess (k : string)
| DestroyError (k : string) (err : jsval)
| FindPending (key : string)
| FindSuccess (key : string) (xs : list found)
| FindError (key : string) (err : jsval).

Definition apply_op (o : store_op) (c : cache) : cache :=
  match o with
  | OptimisticCreate k d => applyOptimisticCreate k d c
  | CreateSuccess k i d => applyCreateSuccess k i d c
  | CreateError k e => applyCreateError k e c
  | OptimisticUpdate k p => applyOptimisticUpdate k p c
  | UpdateSuccess k d => applyUpdateSuccess k d c
  | UpdateError k e => applyUpdateError k e c
  | OptimisticDestroy k => applyOptimisticDestroy k c
  | DestroySuccess k => applyDestroySuccess k c
  | DestroyError k e => applyDestroyError k e c
  | FindPending key => applyFindPending key c
  | FindSuccess key xs => applyFindSuccess key xs c
  | FindError key e => applyFindError key e c
  end.

Definition apply_ops (ops : list store_op) (c : cache) : cache :=
  foldl (fun c' o => apply_op o c') c ops.

(** The only precondition of an operation: the models of a find result
    carry fresh client ids. *)
Definition op_ok (c : cache) (o : store_op) : Prop :=
  match o with
  | FindSuccess _ xs => found_fresh c xs
  | _ => True
  end.

Inductive reachable : cache -> Prop :=
| reach_empty : reachable empty_cache
| reach_step c o : reachable c -> op_ok c o -> reachable (apply_op o c).

(** The operations that address one record by its client id. *)
Definition op_on_record (k : string) (o : store_op) : Prop :=
  match o with
  | CreateSuccess k' _ _ | CreateError k' _ | OptimisticUpdate k' _
  | UpdateSuccess k' _ | UpdateError k' _ | OptimisticDestroy k'
  | DestroySuccess k' | DestroyError k' _ => k' = k
  | _ => False
  end.

Lemma alter_record_absent k f c : byCid c !! k = None -> alter_record k f c = c.
Proof. unfold alter_record. by intros ->. Qed.

(** An operation on a record the cache does not hold changes nothing. *)
Lemma apply_op_absent k o c :
  op_on_record k o -> byCid c !! k = None -> apply_op o c = c.
Proof.
  intros Hon Hk. destruct o; simpl in Hon; try contradiction; subst;
    simpl; unfold applyCreateSuccess, applyDestroySuccess; rewrite ?Hk; try done;
    by apply alter_record_absent.
Qed.

Lemma apply_ops_absent k ops c :
  Forall (op_on_record k) ops -> byCid c !! k = None -> apply_ops ops c = c.
Proof.
  revert c. induction ops as [|o ops IH]; intros c Hall Hk; [done|].
  apply Forall_cons in Hall as [Ho Hall]. simpl.
  rewrite (apply_op_absent k o c); [|done..]. by apply IH.
Qed.

Lemma cache_wf_cid c k r : cache_wf c -> byCid c !! k = Some r -> cid r = k.
Proof. intros [Hind _] Hr. by destruct (wf_byCid _ Hind _ _ Hr). Qed.

Lemma alter_record_lookup k f c r :
  cache_wf c -> byCid c !! k = Some r -> (forall r, cid (f r) = cid r) ->
  byCid (alter_record k f c) !! k = Some (f r).
Proof.
  intros Hwf Hr Hf. unfold alter_record. rewrite Hr. simpl.
  rewrite Hf, (cache_wf_cid c k r Hwf Hr). apply lookup_insert_eq.
Qed.


Lemma empty_cache_wf : cache_wf empty_cache.
Proof.
  split; [split|]; unfold empty_cache; cbn [byCid byId RecordStore.find].
  - intros k r H. by rewrite lookup_empty in H.
  - intros i r H. by rewrite lookup_empty in H.
  - intros key q i H. cbn [RecordStore.find] in H. by rewrite lookup_empty in H.
Qed.

(** In a coherent cache a server id is held by one client id only. *)
Lemma wf_sid_unique c i r k' r' :
  cache_wf c -> byId c !! i = Some r -> byCid c !! k' = Some r' -> sid r' = Some i ->
  k' = cid r.
Proof.
  intros [Hind _] Hr Hr' Hs. destruct (wf_byCid _ Hind _ _ Hr') as [<- Hsid].
  rewrite (Hsid _ Hs) in Hr. by simplify_eq.
Qed.

Lemma applyCreateSuccess_lookup k i d c r :
  byCid c !! k = Some r -> sid r = None ->
  byCid (applyCreateSuccess k i d c) !! k =
    Some (mkRecord k (Some i) (merge_data (data r) d) RESOLVED JNull None) /\
  byId (applyCreateSuccess k i d c) !! i =
    Some (mkRecord k (Some i) (merge_data (data r) d) RESOLVED JNull None).
Proof.
  intros Hr Hs. unfold applyCreateSuccess. rewrite Hr, Hs. simpl.
  by rewrite !lookup_insert_eq.
Qed.

Lemma applyDestroySuccess_absent k c :
  cache_wf c -> byCid (applyDestroySuccess k c) !! k = None.
Proof.
  intros Hwf. unfold applyDestroySuccess.
  destruct (byCid c !! k) as [r|] eqn:Hr; [|done].
  rewrite <-(cache_wf_cid c k r Hwf Hr).
  destruct (sid r); simpl; apply lookup_delete_eq.
Qed.

(** ** Properties of the record store *)

(** Every reducer operation preserves the coherence of the cache: a
    record is filed under its own client id, under its server id exactly
    when it has one, the two indices hold the same record, and every id a
    cached query lists is a record of [byId].  The only precondition is that
    the models of a find result come with fresh client ids. *)
Theorem apply_op_wf o c :
  cache_wf c -> op_ok c o -> cache_wf (apply_op o c).
Proof.
  intros Hwf Hok. destruct o; simpl in *.
  all: eauto using applyOptimisticCreate_wf, applyCreateSuccess_wf, applyCreateError_wf,
    applyOptimisticUpdate_wf, applyUpdateSuccess_wf, applyUpdateError_wf,
    applyOptimisticDestroy_wf, applyDestroySuccess_wf, applyDestroyError_wf,
    applyFindPending_wf, applyFindSuccess_wf, applyFindError_wf.
Qed.

Lemma apply_op_wf_witness :
  op_ok empty_cache (OptimisticCreate "c1" [("title", JStr "foo")]) /\
  cache_wf (apply_op (OptimisticCreate "c1" [("title", JStr "foo")]) empty_cache).
Proof.
  split; [exact I|]. apply apply_op_wf; [apply empty_cache_wf|exact I].
Defined.

(** Spec section 8, create: an optimistic create followed by the
    server's confirmation leaves exactly one record for the new server id,
    reachable both under the original client id and under the server id,
    resolved, with the server's data merged over the optimistic data. *)
Theorem create_then_success k i d d' c :
  cache_wf c -> byCid c !! k = None ->
  let c' := applyCreateSuccess k i d' (applyOptimisticCreate k d c) in
  exists r, byCid c' !! k = Some r /\ byId c' !! i = Some r /\
    sid r = Some i /\ data r = merge_data d d' /\ rstate r = RESOLVED /\
    (forall k' r', byCid c' !! k' = Some r' -> sid r' = Some i -> k' = k).
Proof.
  intros Hwf Hk c'.
  assert (cache_wf c') as Hwf'.
  { by apply applyCreateSuccess_wf, applyOptimisticCreate_wf. }
  assert (byCid (applyOptimisticCreate k d c) !! k =
          Some (mkRecord k None d PENDING_OPTIMISTIC JNull None)) as H1.
  { unfold applyOptimisticCreate. rewrite Hk. apply lookup_insert_eq. }
  destruct (applyCreateSuccess_lookup _ i d' _ _ H1 eq_refl) as [Hc Hi].
  eexists. split; [exact Hc|]. split; [exact Hi|].
  do 3 (split; [done|]). intros k' r' Hr' Hs.
  exact (wf_sid_unique c' i _ k' r' Hwf' Hi Hr' Hs).
Qed.

Lemma create_then_success_witness :
  cache_wf empty_cache /\ byCid empty_cache !! "c1" = None /\
  let c' := applyCreateSuccess "c1" "1" [("id", JStr "1"); ("title", JStr "foo")]
              (applyOptimisticCreate "c1" [("title", JStr "foo")] empty_cache) in
  exists r, byCid c' !! "c1" = Some r /\ byId c' !! "1" = Some r /\
    sid r = Some "1" /\ data r = merge_data [("title", JStr "foo")] [("id", JStr "1"); ("title", JStr "foo")] /\
    rstate r = RESOLVED /\
    (forall k' r', byCid c' !! k' = Some r' -> sid r' = Some "1" -> k' = "c1").
Proof.
  split; [apply empty_cache_wf|]. split; [reflexivity|].
  apply create_then_success; [apply empty_cache_wf|reflexivity].
Defined.

(** Spec section 8, destroy: an optimistic destroy keeps the record
    queryable, marked pending; once the server confirms, the record is gone
    from both indices and from the ids of every cached query. *)
Theorem destroy_then_success k c r i :
  cache_wf c -> byCid c !! k = Some r -> sid r = Some i ->
  (exists r', byCid (applyOptimisticDestroy k c) !! k = Some r' /\
              byId (applyOptimisticDestroy k c) !! i = Some r' /\
              rstate r' = PENDING_DESTROY) /\
  (let c' := applyDestroySuccess k (applyOptimisticDestroy k c) in
   byCid c' !! k = None /\ byId c' !! i = None /\
   forall key q, find c' !! key = Some q -> i ∉ record_ids q).
Proof.
  intros Hwf Hr Hs.
  pose proof (cache_wf_cid c k r Hwf Hr) as Hcid.
  set (r1 := set_record r (data r) PENDING_DESTROY (rerror r) (prior r)).
  assert (byCid (applyOptimisticDestroy k c) !! k = Some r1) as H1.
  { unfold applyOptimisticDestroy.
    by apply (alter_record_lookup _
      (fun r0 => set_record r0 (data r0) PENDING_DESTROY (rerror r0) (prior r0)) _ r). }
  assert (byId (applyOptimisticDestroy k c) !! i = Some r1) as H2.
  { unfold applyOptimisticDestroy, alter_record. rewrite Hr. simpl. rewrite Hs.
    apply lookup_insert_eq. }
  split; [by exists r1|].
  unfold applyDestroySuccess. rewrite H1. unfold r1. simpl. rewrite Hs. simpl.
  rewrite ?Hs. rewrite <-Hcid. split; [apply lookup_delete_eq|]. split; [apply lookup_delete_eq|].
  intros key q. rewrite lookup_fmap.
  destruct (find _ !! key); simpl; [|done].
  intros [= <-]. simpl. rewrite list_elem_of_filter. naive_solver.
Qed.

(** The cache [populateStore] builds in redux.spec.js before the update and
    destroy scenarios: one todo, client id c1, server id 1. *)
Definition populated_cache : cache :=
  applyCreateSuccess "c1" "1" [("id", JStr "1")]
    (applyOptimisticCreate "c1" [("title", JStr "foo")] empty_cache).

Definition populated_todo : record :=
  mkRecord "c1" (Some "1") (merge_data [("title", JStr "foo")] [("id", JStr "1")])
    RESOLVED JNull None.

Lemma populated_cache_wf : cache_wf populated_cache.
Proof. apply applyCreateSuccess_wf, applyOptimisticCreate_wf, empty_cache_wf. Qed.

Lemma destroy_then_success_witness :
  cache_wf populated_cache /\ byCid populated_cache !! "c1" = Some populated_todo /\
  sid populated_todo = Some "1" /\
  (exists r', byCid (applyOptimisticDestroy "c1" populated_cache) !! "c1" = Some r' /\
              byId (applyOptimisticDestroy "c1" populated_cache) !! "1" = Some r' /\
              rstate r' = PENDING_DESTROY) /\
  (let c' := applyDestroySuccess "c1" (applyOptimisticDestroy "c1" populated_cache) in
   byCid c' !! "c1" = None /\ byId c' !! "1" = None /\
   forall key q, find c' !! key = Some q -> "1" ∉ record_ids q).
Proof.
  split; [apply populated_cache_wf|]. split; [vm_compute; reflexivity|].
  split; [reflexivity|].
  apply (destroy_then_success "c1" populated_cache populated_todo "1");
    [apply populated_cache_wf|vm_compute; reflexivity|reflexivity].
Defined.

(** Spec section 8, round trip: an optimistic update followed by the
    server's rejection restores the record's data exactly to its value
    before the update; the record is marked in error and keeps its ids. *)
Theorem update_error_restores k partial err c r :
  cache_wf c -> byCid c !! k = Some r ->
  exists r', byCid (applyUpdateError k err (applyOptimisticUpdate k partial c)) !! k = Some r' /\
             data r' = data r /\ rstate r' = ERROR /\ rerror r' = err /\
             cid r' = cid r /\ sid r' = sid r.
Proof.
  intros Hwf Hr.
  set (f := fun r0 => set_record r0 (merge_data (data r0) partial) PENDING_UPDATE
                        (rerror r0) (Some (data r0))).
  assert (byCid (applyOptimisticUpdate k partial c) !! k = Some (f r)) as H1.
  { by apply (alter_record_lookup _ f). }
  pose proof (applyOptimisticUpdate_wf k partial c Hwf) as Hwf1.
  eexists. split.
  - unfold applyUpdateError.
    apply (alter_record_lookup _
      (fun r0 => set_record r0 (default (data r0) (prior r0)) ERROR err None) _ (f r)); done.
  - done.
Qed.

Lemma update_error_restores_witness :
  cache_wf populated_cache /\ byCid populated_cache !! "c1" = Some populated_todo /\
  exists r', byCid (applyUpdateError "c1" JNull
                     (applyOptimisticUpdate "c1" [("title", JStr "baz")] populated_cache)) !! "c1" = Some r' /\
             data r' = data populated_todo /\ rstate r' = ERROR /\ rerror r' = JNull /\
             cid r' = cid populated_todo /\ sid r' = sid populated_todo.
Proof.
  split; [apply populated_cache_wf|]. split; [vm_compute; reflexivity|].
  apply (update_error_restores "c1" _ JNull populated_cache populated_todo);
    [apply populated_cache_wf|vm_compute; reflexivity].
Defined.

(** Spec section 4.1, "destroy always wins once confirmed": after the
    server has confirmed a destroy, any later reconciliation or optimistic
    operation addressed to the destroyed record (an update that was still in
    flight, its success or its rollback, a repeated destroy) leaves the
    whole cache exactly as the destroy left it. *)
Theorem destroy_wins k c ops :
  cache_wf c -> Forall (op_on_record k) ops ->
  apply_ops ops (applyDestroySuccess k c) = applyDestroySuccess k c.
Proof.
  intros Hwf Hops. apply (apply_ops_absent k); [done|].
  by apply applyDestroySuccess_absent.
Qed.

Lemma destroy_wins_witness :
  cache_wf populated_cache /\
  Forall (op_on_record "c1") [UpdateSuccess "c1" [("title", JStr "bar")]; UpdateError "c1" JNull] /\
  apply_ops [UpdateSuccess "c1" [("title", JStr "bar")]; UpdateError "c1" JNull]
    (applyDestroySuccess "c1" populated_cache) = applyDestroySuccess "c1" populated_cache.
Proof.
  split; [apply populated_cache_wf|].
  assert (Forall (op_on_record "c1") [UpdateSuccess "c1" [("title", JStr "bar")]; UpdateError "c1" JNull])
    as Hops by repeat constructor.
  split; [exact Hops|]. apply destroy_wins; [apply populated_cache_wf|exact Hops].
Defined.

(** Every cache the reducers can reach from the empty cache, through
    any sequence of operations whose find results carry fresh client ids,
    is coherent (rule induction on [reachable]). *)
Theorem reachable_cache_wf c : reachable c -> cache_wf c.
Proof.
  induction 1 as [|c o _ IH Hok]; [apply empty_cache_wf|].
  by apply apply_op_wf.
Qed.

Lemma reachable_cache_wf_witness :
  reachable populated_cache /\ cache_wf populated_cache.
Proof.
  assert (reachable populated_cache) as Hr.
  { apply (reach_step _ (CreateSuccess "c1" "1" [("id", JStr "1")])); [|exact I].
    apply (reach_step _ (OptimisticCreate "c1" [("title", JStr "foo")])); [|exact I].
    apply reach_empty. }
  split; [exact Hr|]. exact (reachable_cache_wf _ Hr).
Defined.

Lemma upsert_found_byId c x j :
  indices_wf c ->
  byId (upsert_found c x) !! j =
    if decide (j = f_id x) then
      Some (match byId c !! f_id x with
            | Some r => set_record r (f_data x) RESOLVED JNull None
            | None => mkRecord (f_cid x) (Some (f_id x)) (f_data x) RESOLVED JNull None
            end)
    else byId c !! j.
Proof.
  intros Hind. unfold upsert_found. destruct (byId c !! f_id x) as [r|] eqn:Hr; simpl.
  - destruct (byId_byCid _ _ _ Hind Hr) as [_ Hs]. simpl. rewrite Hs.
    rewrite lookup_insert. repeat case_decide; subst; congruence.
  - rewrite lookup_insert. repeat case_decide; subst; congruence.
Qed.

Lemma foldl_upsert_byId_other c xs j :
  indices_wf c -> found_fresh c xs -> j ∉ f_id <$> xs ->
  byId (foldl upsert_found c xs) !! j = byId c !! j.
Proof.
  revert c. induction xs as [|x xs IH]; intros c Hind Hfr Hj; [done|]. simpl.
  destruct (found_fresh_step c x xs Hind Hfr) as [Hind1 Hfr1].
  rewrite fmap_cons, elem_of_cons in Hj.
  rewrite IH by naive_solver. rewrite upsert_found_byId by done.
  case_decide; naive_solver.
Qed.

Lemma foldl_upsert_byId_found c xs x :
  indices_wf c -> found_fresh c xs -> NoDup (f_id <$> xs) -> x ∈ xs ->
  exists r, byId (foldl upsert_found c xs) !! f_id x = Some r /\
            data r = f_data x /\ rstate r = RESOLVED.
Proof.
  revert c. induction xs as [|y xs IH]; intros c Hind Hfr Hnd Hx;
    [by apply elem_of_nil in Hx|]. simpl.
  destruct (found_fresh_step c y xs Hind Hfr) as [Hind1 Hfr1].
  rewrite fmap_cons, NoDup_cons in Hnd. destruct Hnd as [Hy Hnd].
  apply elem_of_cons in Hx as [->|Hx]; [|by apply IH].
  rewrite foldl_upsert_byId_other by done. rewrite upsert_found_byId by done.
  rewrite decide_True by done. eexists. split; [done|].
  by destruct (byId c !! f_id y).
Qed.

(** Spec section 4.1, find success: every record of the server's
    answer is filed under its server id with the server's data and is
    resolved, whether the cache knew it or not, and the query result lists
    the server ids in the server's order, resolved. *)
Theorem find_success_upserts key xs c :
  cache_wf c -> found_fresh c xs -> NoDup (f_id <$> xs) ->
  find (applyFindSuccess key xs c) !! key = Some (mkQuery (f_id <$> xs) QRESOLVED JNull) /\
  forall x, x ∈ xs ->
    exists r, byId (applyFindSuccess key xs c) !! f_id x = Some r /\
              byCid (applyFindSuccess key xs c) !! cid r = Some r /\
              data r = f_data x /\ rstate r = RESOLVED.
Proof.
  intros Hwf Hfr Hnd. split; [apply lookup_insert_eq|].
  intros x Hx. destruct (foldl_upsert_byId_found c xs x) as (r & Hr & Hd & Hs);
    [by destruct Hwf|done..|].
  pose proof (applyFindSuccess_wf key xs c Hwf Hfr) as [Hind' _].
  exists r. split; [exact Hr|]. split; [|done].
  by destruct (byId_byCid _ _ _ Hind' Hr).
Qed.

Lemma find_success_upserts_witness :
  let xs := [mkFound "c2" "1" [("id", JStr "1"); ("title", JStr "foo")]] in
  cache_wf empty_cache /\ found_fresh empty_cache xs /\ NoDup (f_id <$> xs) /\
  find (applyFindSuccess "q" xs empty_cache) !! "q" = Some (mkQuery (f_id <$> xs) QRESOLVED JNull) /\
  forall x, x ∈ xs ->
    exists r, byId (applyFindSuccess "q" xs empty_cache) !! f_id x = Some r /\
              byCid (applyFindSuccess "q" xs empty_cache) !! cid r = Some r /\
              data r = f_data x /\ rstate r = RESOLVED.
Proof.
  intros xs.
  assert (found_fresh empty_cache xs) as Hfr.
  { split; [repeat constructor; set_solver|]. intros x Hx. reflexivity. }
  assert (NoDup (f_id <$> xs)) as Hnd by (repeat constructor; set_solver).
  split; [apply empty_cache_wf|]. split; [exact Hfr|]. split; [exact Hnd|].
  apply find_success_upserts; [apply empty_cache_wf|exact Hfr|exact Hnd].
Defined.

(** A find result never touches a record that is still waiting for its
    server id. *)
Lemma foldl_upsert_unconfirmed c xs k r :
  indices_wf c -> found_fresh c xs -> byCid c !! k = Some r -> sid r = None ->
  byCid (foldl upsert_found c xs) !! k = Some r.
Proof.
  revert c. induction xs as [|x xs IH]; intros c Hind Hfr Hk Hs; [done|]. simpl.
  destruct (found_fresh_step c x xs Hind Hfr) as [Hind1 Hfr1].
  apply IH; [done|done| |done].
  unfold upsert_found. destruct (byId c !! f_id x) as [r0|] eqn:Hr0; simpl.
  - destruct (byId_byCid _ _ _ Hind Hr0) as [Hc0 Hs0].
    rewrite lookup_insert_ne; [done|]. intros Heq. rewrite Heq, Hk in Hc0. congruence.
  - rewrite lookup_insert_ne; [done|]. intros Heq.
    destruct Hfr as [_ Hfr]. rewrite <-Heq, Hfr in Hk; [done|]. by left.
Qed.

(** A find result keeps the client id of a record the cache already files
    under the same server id. *)
Lemma foldl_upsert_keeps_cid c xs i r0 :
  indices_wf c -> found_fresh c xs -> byId c !! i = Some r0 ->
  exists r', byId (foldl upsert_found c xs) !! i = Some r' /\ cid r' = cid r0.
Proof.
  revert c r0. induction xs as [|x xs IH]; intros c r0 Hind Hfr Hi; [by exists r0|]. simpl.
  destruct (found_fresh_step c x xs Hind Hfr) as [Hind1 Hfr1].
  destruct (decide (i = f_id x)) as [->|Hne].
  - apply (IH _ (set_record r0 (f_data x) RESOLVED JNull None)); [done|done|].
    by rewrite upsert_found_byId, decide_True, Hi.
  - eapply IH; [done|done|]. by rewrite upsert_found_byId, decide_False.
Qed.

Lemma applyCreateSuccess_fresh k i d c xs :
  cache_wf c -> is_Some (byCid c !! k) -> byId c !! i = None ->
  found_fresh c xs -> found_fresh (applyCreateSuccess k i d c) xs.
Proof.
  intros Hwf [r Hr] Hi [Hnd Hfr]. split; [done|]. intros x Hx.
  unfold applyCreateSuccess. rewrite Hr. destruct (sid r); [by apply Hfr|].
  rewrite Hi. simpl. rewrite lookup_insert_ne; [by apply Hfr|].
  intros Heq. specialize (Hfr x Hx). rewrite <-Heq, Hr in Hfr. done.
Qed.

(** Spec section 4.1, edge case: a create and a find that both return
    the same server record converge on a single cached record, in either
    order of completion.  The record stays the one created under the
    caller's client id, and no other client id holds that server id. *)
Theorem create_find_converge k i d key xs c r :
  cache_wf c -> byCid c !! k = Some r -> sid r = None -> byId c !! i = None ->
  found_fresh c xs ->
  let cA := applyCreateSuccess k i d (applyFindSuccess key xs c) in
  let cB := applyFindSuccess key xs (applyCreateSuccess k i d c) in
  (exists rA, byId cA !! i = Some rA /\ cid rA = k /\
     forall k' r', byCid cA !! k' = Some r' -> sid r' = Some i -> k' = k) /\
  (exists rB, byId cB !! i = Some rB /\ cid rB = k /\
     forall k' r', byCid cB !! k' = Some r' -> sid r' = Some i -> k' = k).
Proof.
  intros Hwf Hr Hs Hi Hfr cA cB.
  assert (cache_wf cA) as HwfA by (apply applyCreateSuccess_wf, applyFindSuccess_wf; done).
  pose proof (applyCreateSuccess_fresh k i d c xs Hwf (mk_is_Some _ _ Hr) Hi Hfr) as HfrC.
  assert (cache_wf cB) as HwfB.
  { apply applyFindSuccess_wf; [by apply applyCreateSuccess_wf|exact HfrC]. }
  split.
  - assert (byCid (applyFindSuccess key xs c) !! k = Some r) as HrF.
    { by apply foldl_upsert_unconfirmed; [destruct Hwf|..]. }
    destruct (applyCreateSuccess_lookup k i d _ _ HrF Hs) as [_ HA].
    eexists. split; [exact HA|]. split; [done|].
    intros k' r' Hr' Hs'. exact (wf_sid_unique cA i _ k' r' HwfA HA Hr' Hs').
  - destruct (applyCreateSuccess_lookup k i d _ _ Hr Hs) as [_ HC].
    destruct (foldl_upsert_keeps_cid (applyCreateSuccess k i d c) xs i
                (mkRecord k (Some i) (merge_data (data r) d) RESOLVED JNull None))
      as (rB & HB & HcB);
      [by destruct (applyCreateSuccess_wf k i d c Hwf)|done|exact HC|].
    simpl in HcB. exists rB. split; [exact HB|]. split; [exact HcB|].
    intros k' r' Hr' Hs'. rewrite <-HcB. exact (wf_sid_unique cB i _ k' r' HwfB HB Hr' Hs').
Qed.

Lemma create_find_converge_witness :
  let c := applyOptimisticCreate "c1" [("title", JStr "foo")] empty_cache in
  let xs := [mkFound "c2" "1" [("id", JStr "1"); ("title", JStr "foo")]] in
  let r := mkRecord "c1" None [("title", JStr "foo")] PENDING_OPTIMISTIC JNull None in
  cache_wf c /\ byCid c !! "c1" = Some r /\ sid r = None /\ byId c !! "1" = None /\
  found_fresh c xs /\
  let cA := applyCreateSuccess "c1" "1" [("id", JStr "1")] (applyFindSuccess "q" xs c) in
  let cB := applyFindSuccess "q" xs (applyCreateSuccess "c1" "1" [("id", JStr "1")] c) in
  (exists rA, byId cA !! "1" = Some rA /\ cid rA = "c1" /\
     forall k' r', byCid cA !! k' = Some r' -> sid r' = Some "1" -> k' = "c1") /\
  (exists rB, byId cB !! "1" = Some rB /\ cid rB = "c1" /\
     forall k' r', byCid cB !! k' = Some r' -> sid r' = Some "1" -> k' = "c1").
Proof.
  intros c xs r.
  assert (cache_wf c) as Hwf by (apply applyOptimisticCreate_wf, empty_cache_wf).
  assert (found_fresh c xs) as Hfr.
  { split; [repeat constructor; set_solver|]. intros x Hx.
    apply list_elem_of_singleton in Hx as ->. vm_compute. reflexivity. }
  split; [exact Hwf|]. split; [vm_compute; reflexivity|]. split; [reflexivity|].
  split; [vm_compute; reflexivity|]. split; [exact Hfr|].
  apply (create_find_converge "c1" "1" _ "q" xs c r);
    [exact Hwf|vm_compute; reflexivity|reflexivity|vm_compute; reflexivity|exact Hfr].
Defined.

(** ** Which client ids an operation can add *)

(** The client ids an operation files a record under that the cache may
    not hold yet. *)
Definition op_new_cids (o : store_op) : list string :=
  match o with
  | OptimisticCreate k _ => [k]
  | FindSuccess _ xs => f_cid <$> xs
  | _ => []
  end.

Lemma put_record_dom r c k :
  is_Some (byCid (put_record r c) !! k) -> is_Some (byCid c !! k) \/ k = cid r.
Proof. simpl. rewrite lookup_insert. case_decide; auto. Qed.

Lemma remove_record_dom r c k :
  is_Some (byCid (remove_record r c) !! k) -> is_Some (byCid c !! k).
Proof. simpl. rewrite lookup_delete. case_decide; [by intros []|auto]. Qed.

Lemma alter_record_dom k0 f c k :
  cache_wf c -> (forall r, cid (f r) = cid r) ->
  is_Some (byCid (alter_record k0 f c) !! k) -> is_Some (byCid c !! k).
Proof.
  intros Hwf Hf. unfold alter_record. destruct (byCid c !! k0) as [r|] eqn:Hr; [|done].
  intros [Hk| ->]%put_record_dom; [done|]. rewrite Hf, (cache_wf_cid _ _ _ Hwf Hr). by rewrite Hr.
Qed.

Lemma upsert_found_dom c x k :
  indices_wf c -> is_Some (byCid (upsert_found c x) !! k) -> is_Some (byCid c !! k) \/ k = f_cid x.
Proof.
  intros Hind. unfold upsert_found. destruct (byId c !! f_id x) as [r|] eqn:Hr.
  - intros [Hk| ->]%put_record_dom; [by left|]. left. simpl.
    destruct (byId_byCid _ _ _ Hind Hr) as [-> _]. done.
  - intros [Hk| ->]%put_record_dom; auto.
Qed.

Lemma foldl_upsert_dom c xs k :
  indices_wf c -> found_fresh c xs ->
  is_Some (byCid (foldl upsert_found c xs) !! k) -> is_Some (byCid c !! k) \/ k ∈ f_cid <$> xs.
Proof.
  revert c. induction xs as [|x xs IH]; intros c Hind Hfr; simpl; [auto|].
  destruct (found_fresh_step c x xs Hind Hfr) as [Hind1 Hfr1].
  intros H. destruct (IH _ Hind1 Hfr1 H) as [Hk|Hk]; [|right; set_solver].
  apply upsert_found_dom in Hk as [Hk| ->]; [by left|right; set_solver|done].
Qed.

(** An operation files records only under client ids the cache held or the
    ids it introduces itself. *)
Lemma apply_op_dom o c k :
  cache_wf c -> op_ok c o -> is_Some (byCid (apply_op o c) !! k) ->
  is_Some (byCid c !! k) \/ k ∈ op_new_cids o.
Proof.
  intros Hwf Hok. destruct o as [k' d|k' i d|k' e|k' d|k' d|k' e|k'|k'|k' e|key|key xs|key e];
    simpl in *; try (intros Hk; left; eapply alter_record_dom; [exact Hwf| |exact Hk]; done).
  - unfold applyOptimisticCreate. destruct (byCid c !! k') eqn:Hk'; [by left|].
    intros [Hk| ->]%put_record_dom; [by left|right; set_solver].
  - unfold applyCreateSuccess. destruct (byCid c !! k') as [r|] eqn:Hr; [|by left].
    destruct (sid r); [by left|]. intros [Hk| ->]%put_record_dom; [|left; simpl; by rewrite Hr].
    left. destruct (byId c !! i); [by apply remove_record_dom in Hk|done].
  - unfold applyDestroySuccess. destruct (byCid c !! k') as [r|]; [|by left].
    destruct (sid r); simpl; rewrite lookup_delete; case_decide; [by intros []|auto|by intros []|auto].
  - by left.
  - intros Hk. apply (foldl_upsert_dom c xs k); [by destruct Hwf|done|exact Hk].
  - by left.
Qed.
