(* ===== verification/FindBlueprint.v ===== *)
(** * The find blueprint: src/packages/lore-actions/src/blueprints/find.js

    [findBlueprint opts] is [module.exports = function(opts)]: it fills the
    options with their defaults, refuses a missing collection, validates
    the options and returns the action creator [fetchAll(query, pagination)],
    whose thunk [function(dispatch)] is [fetchAll] below.  The thunk runs
    in two halves:

    - synchronously ([fetchAll]): a fresh collection, the request's query
      parameters and the combined query, one call to [collection.fetch],
      and the optimistic dispatch, whose result the thunk returns;
    - when the fetch settles ([settle]): the [.then] handler (dispatch of
      the success action, then of the normalisation actions) and the
      [.catch] handler (the [beforeDispatch] hook, then the error action),
      which runs on a failed fetch and also on an exception thrown by the
      [.then] handler.

    Redux actions, payloads and server data are JavaScript values
    ([JsValue.jsval]).  Effects run in [eff] over a [world]: the Redux
    store (abstract: whatever [store_dispatch] does, including throwing
    from a reducer or a subscriber), the log of observable events (fetches,
    dispatches, hook calls), and Backbone's client-id counter. *)

From S2P Require Import Prelude JsValue.
#[local] Set Warnings "-clear-no-such-hyp".

(** ** Options *)

(** [{actionType, payloadState}] of [options.optimistic] and
    [options.onSuccess]. *)
Record hook := mkHook { actionType : string; payloadState : string }.

(** [options.onError], whose [beforeDispatch] callback is optional. *)
Record error_hook := mkErrorHook {
  e_actionType : string;
  e_payloadState : string;
  beforeDispatch : bool
}.

(** [options.normalize]: [getActions(collection)] computes the actions for
    nested data; [dispatchActions(actions, dispatch)] is modelled by the
    list of actions it dispatches, in order. *)
Record normalizer := mkNormalizer {
  getActions : option (list jsval -> list jsval);
  dispatchActions : option (list jsval -> list jsval)
}.

Record find_options := mkFindOptions {
  collection : option string;
  onSuccess : option hook;
  onError : option error_hook;
  optimistic : option hook;
  normalize : option normalizer
}.

(** [_.defaultsDeep(options, defaultOptions)]: a missing option takes the
    default's value.  The hooks are complete records here, so the
    defaulting stops at the first level. *)
Definition defaultsDeep (o d : find_options) : find_options :=
  mkFindOptions (collection o ∪ collection d) (onSuccess o ∪ onSuccess d)
    (onError o ∪ onError d) (optimistic o ∪ optimistic d) (normalize o ∪ normalize d).

(** ** Payloads (lore-utils, outside src/) *)

(** A model of a fetched collection: Backbone's client id and the
    attributes the server returned. *)
Record model := mkModel { m_cid : string; m_attrs : jsval }.

(** [payload(model, state, error)]: the record form the reducers store. *)
Definition payload (m : model) (state : string) (error : jsval) : jsval :=
  JObj [("id", get_prop (m_attrs m) "id"); ("cid", JStr (m_cid m));
        ("state", JStr state); ("error", if truthy error then error else JObj []);
        ("data", m_attrs m)].

(** [payloadCollection(collection, state, error, query)]. *)
Definition payloadCollection (models : list model) (state : string) (error query : jsval)
  : jsval :=
  JObj [("state", JStr state); ("error", if truthy error then error else JObj []);
        ("data", JArr (map (fun m => payload m state JNull) models));
        ("query", query)].

(** The Redux action [{type, payload, query}] the blueprint dispatches. *)
Definition mkAction (ty : string) (pl query : jsval) : jsval :=
  JObj [("type", JStr ty); ("payload", pl); ("query", query)].

(** The fields the reducers read from an action and its payload. *)
Lemma mkAction_props ty pl q :
  get_prop (mkAction ty pl q) "type" = JStr ty /\ get_prop (mkAction ty pl q) "payload" = pl /\
  get_prop (mkAction ty pl q) "query" = q.
Proof. done. Qed.

Lemma payloadCollection_props models st err q :
  get_prop (payloadCollection models st err q) "state" = JStr st /\
  get_prop (payloadCollection models st err q) "data" =
    JArr (map (fun m => payload m st JNull) models) /\
  get_prop (payloadCollection models st err q) "error" = (if truthy err then err else JObj []).
Proof. done. Qed.

(** ** The world the thunk runs in *)

(** What the thunks do that can be observed: [collection.fetch(...)], a
    Redux dispatch, the [beforeDispatch] hook, and the HTTP request of the
    other verbs (method, server id of the target, body). *)
Inductive event :=
| EvFetch (collection : string) (data : jsval)
| EvDispatch (action : jsval)
| EvBeforeDispatch (response : jsval) (args : list jsval)
| EvRequest (method : string) (target : option string) (body : jsval).

Record world (S : Type) := mkWorld { w_store : S; w_log : list event; w_uid : N }.
Arguments mkWorld {S}.
Arguments w_store {S}.
Arguments w_log {S}.
Arguments w_uid {S}.

(** The client id [_.uniqueId('c')] returns when its counter reaches [n]. *)
Definition cid_of (n : N) : string := "c" +:+ pretty n.

#[export] Instance cid_of_inj : Inj (=) (=) cid_of.
Proof. intros n1 n2 H. unfold cid_of in H. by apply (inj (String.app "c")), (inj pretty) in H. Qed.

(** The settlement of [collection.fetch]: the server's array of records,
    or the rejection value (an HTTP response whose [data] is the body). *)
Inductive fetch_result :=
| FetchOk (records : list jsval)
| FetchFail (response : jsval).

(** The actions a log records as dispatched, in order. *)
Definition dispatched (log : list event) : list jsval :=
  omap (fun e => match e with EvDispatch a => Some a | _ => None end) log.

(** The fetches a log records. *)
Definition fetches (log : list event) : list (string * jsval) :=
  omap (fun e => match e with EvFetch c d => Some (c, d) | _ => None end) log.

Section Find.
Context {S : Type}.

(** Redux's [dispatch] on the store: the reducers, then the subscribers;
    either may throw, and the state they reached is kept. *)
Variable store_dispatch : jsval -> S -> outcome jsval unit * S.

(** [defaultOptions] and [validatePartialPairs] of lore-actions'
    [../utils], which is outside src/: any defaults, any validation. *)
Variable defaultOptions : find_options.
Variable validatePartialPairs : find_options -> option jsval.

Abbreviation M := (eff jsval (world S)).

Definition log_event (e : event) : M unit :=
  emodify (fun w => mkWorld (w_store w) (w_log w ++ [e]) (w_uid w)).

(** [dispatch(action)] returns the action, as Redux does. *)
Definition dispatch (a : jsval) : M jsval :=
  log_event (EvDispatch a) ;;;
  (fun w => let (o, s') := store_dispatch a (w_store w) in
            (match o with Ret _ => Ret a | Throw e => Throw e end,
             mkWorld s' (w_log w) (w_uid w))).

(** [_.uniqueId('c')], which Backbone uses for model client ids. *)
Definition new_cid : M string :=
  fun w => let n := N.succ (w_uid w) in
           (Ret (cid_of n), mkWorld (w_store w) (w_log w) n).

(** [collection.set(records)] on the fresh collection of a successful
    fetch: one model per record, in order. *)
Fixpoint set_models (records : list jsval) : M (list model) :=
  match records with
  | [] => eret []
  | r :: rs => c <- new_cid ;; ms <- set_models rs ;; eret (mkModel c r :: ms)
  end.

(** [new Error(msg)]. *)
Definition error_object (msg : string) : jsval := JObj [("message", JStr msg)].

(** What the blueprint's closure captures. *)
Record find_config := mkFindConfig { fc_collection : string; fc_options : find_options }.

(** find.js lines 8-20 and 80: [module.exports = function(opts = {})]. *)
Definition findBlueprint (opts : find_options) : outcome jsval find_config :=
  let options := defaultsDeep opts defaultOptions in
  match collection options with
  | None => Throw (error_object "Must specify a collection")
  | Some coll =>
      match validatePartialPairs options with
      | Some e => Throw e
      | None => Ret (mkFindConfig coll options)
      end
  end.

(** [function fetchAll(query = {}, pagination)]: the default applies to
    an [undefined] argument only. *)
Definition default_query (query : jsval) : jsval :=
  match query with JUndef => JObj [] | q => q end.

(** [_.extend({}, query, pagination)]: the data of the request. *)
Definition queryParameters (query pagination : jsval) : jsval :=
  JObj (assign_in [] [query; pagination]).

(** [{where: query, pagination: pagination}]. *)
Definition combinedQuery (query pagination : jsval) : jsval :=
  JObj [("where", query); ("pagination", pagination)].

(** The three actions of find.js: lines 73-77, 45-49 and 64-68. *)
Definition optimisticAction (h : hook) (cq : jsval) : jsval :=
  mkAction (actionType h) (payloadCollection [] (payloadState h) JNull cq) cq.

Definition successAction (h : hook) (models : list model) (cq : jsval) : jsval :=
  mkAction (actionType h) (payloadCollection models (payloadState h) JNull cq) cq.

Definition errorAction (h : error_hook) (models : list model) (error cq : jsval) : jsval :=
  mkAction (e_actionType h) (payloadCollection models (e_payloadState h) error cq) cq.

(** Lines 22-34 and 72-78: the synchronous half of the thunk. *)
Definition fetchAll (fc : find_config) (query0 pagination : jsval) : M (option jsval) :=
  let query := default_query query0 in
  let cq := combinedQuery query pagination in
  log_event (EvFetch (fc_collection fc) (queryParameters query pagination)) ;;;
  match optimistic (fc_options fc) with
  | Some h =>
      a <- dispatch (optimisticAction h cq) ;;
      eret (Some a)
  | None => eret None
  end.

(** The actions [getActions] computes for the fetched models, or none. *)
Definition normalize_actions (o : find_options) (models : list model) : list jsval :=
  match normalize o with
  | Some n => match getActions n with Some g => g (map m_attrs models) | None => [] end
  | None => []
  end.

(** Lines 35-55: the [.then] handler. *)
Definition onFetchSuccess (o : find_options) (models : list model) (cq : jsval) : M unit :=
  match onSuccess o with
  | None => eret tt
  | Some h =>
      let actions := normalize_actions o models in
      dispatch (successAction h models cq) ;;;
      match normalize o with
      | Some n => match dispatchActions n with
                  | Some f => eiter (fun a => dispatch a ;;; eret tt) (f actions)
                  | None => eret tt
                  end
      | None => eret tt
      end
  end.

(** Lines 56-70: the [.catch] handler; [response.data] is the error. *)
Definition onFetchError (o : find_options) (models : list model) (query cq response : jsval)
  : M unit :=
  match onError o with
  | None => eret tt
  | Some h =>
      let error := get_prop response "data" in
      (if beforeDispatch h then log_event (EvBeforeDispatch response [query]) else eret tt) ;;;
      dispatch (errorAction h models error cq) ;;;
      eret tt
  end.

(** The settlement of [collection.fetch(...).then(onSuccess).catch(onError)]:
    the [.catch] handler also receives what the [.then] handler throws,
    and then sees the collection the fetch filled. *)
Definition settle (fc : find_config) (query0 pagination : jsval) (r : fetch_result) : M unit :=
  let query := default_query query0 in
  let cq := combinedQuery query pagination in
  let o := fc_options fc in
  match r with
  | FetchOk records =>
      models <- set_models records ;;
      res <- etry (onFetchSuccess o models cq) ;;
      match res with
      | Ret _ => eret tt
      | Throw e => onFetchError o models query cq e
      end
  | FetchFail response => onFetchError o [] query cq response
  end.
End Find.

(** ** Running the thunk *)

(** The models [collection.set] builds from [records] when the client-id
    counter stands at [n]: c(n+1), c(n+2), ... in order. *)
Fixpoint number_models (n : N) (records : list jsval) : list model :=
  match records with
  | [] => []
  | r :: rs => mkModel (cid_of (N.succ n)) r :: number_models (N.succ n) rs
  end.

Lemma dispatched_app l1 l2 : dispatched (l1 ++ l2) = dispatched l1 ++ dispatched l2.
Proof. apply omap_app. Qed.

Lemma fetches_app l1 l2 : fetches (l1 ++ l2) = fetches l1 ++ fetches l2.
Proof. apply omap_app. Qed.

Create Rewrite HintDb find_rw.
Lemma dispatched_fmap l : dispatched (EvDispatch <$> l) = l.
Proof. induction l as [|a l IH]; [done|]. unfold dispatched in *. simpl. by f_equal. Qed.

Lemma fetches_fmap l : fetches (EvDispatch <$> l) = [].
Proof. by induction l. Qed.

Lemma dispatched_cons_dispatch a l : dispatched (EvDispatch a :: l) = a :: dispatched l.
Proof. done. Qed.

Lemma fetches_cons_dispatch a l : fetches (EvDispatch a :: l) = fetches l.
Proof. done. Qed.

#[export] Hint Rewrite dispatched_app fetches_app dispatched_fmap fetches_fmap
  dispatched_cons_dispatch fetches_cons_dispatch : find_rw.

Section FindRuns.
Context {S : Type}.
Variable store_dispatch : jsval -> S -> outcome jsval unit * S.
Abbreviation M := (eff jsval (world S)).

Lemma dispatch_run a w s' :
  store_dispatch a (w_store w) = (Ret tt, s') ->
  dispatch store_dispatch a w = (Ret a, mkWorld s' (w_log w ++ [EvDispatch a]) (w_uid w)).
Proof. intros H. unfold dispatch, log_event. simpl_eff. by rewrite H. Qed.

Lemma dispatch_run_throw a w s' e :
  store_dispatch a (w_store w) = (Throw e, s') ->
  dispatch store_dispatch a w = (Throw e, mkWorld s' (w_log w ++ [EvDispatch a]) (w_uid w)).
Proof. intros H. unfold dispatch, log_event. simpl_eff. by rewrite H. Qed.

Lemma set_models_run records (w : world S) :
  set_models records w =
    (Ret (number_models (w_uid w) records),
     mkWorld (w_store w) (w_log w) (w_uid w + N.of_nat (length records))).
Proof.
  revert w. induction records as [|r rs IH]; intros w; unfold set_models, new_cid; simpl_eff.
  - destruct w. simpl. by rewrite N.add_0_r.
  - fold (set_models (S:=S) rs). rewrite IH. simpl. do 2 f_equal. lia.
Qed.
End FindRuns.

Section AcceptingStore.
Context {S : Type}.
Variable store_dispatch : jsval -> S -> outcome jsval unit * S.
(** A store whose reducers and subscribers never throw. *)
Hypothesis store_accepts : forall a s, fst (store_dispatch a s) = Ret tt.

Lemma accepts_run a s : exists s', store_dispatch a s = (Ret tt, s').
Proof.
  specialize (store_accepts a s). destruct (store_dispatch a s) as [o s'].
  simpl in store_accepts. subst. by exists s'.
Qed.

Lemma fetchAll_run fc q p (w : world S) h :
  optimistic (fc_options fc) = Some h ->
  let cq := combinedQuery (default_query q) p in
  exists s', fetchAll store_dispatch fc q p w =
    (Ret (Some (optimisticAction h cq)),
     mkWorld s' (w_log w ++ [EvFetch (fc_collection fc) (queryParameters (default_query q) p);
                             EvDispatch (optimisticAction h cq)]) (w_uid w)).
Proof.
  intros Hh cq. unfold fetchAll. rewrite Hh. fold cq.
  destruct (accepts_run (optimisticAction h cq)
              (w_store (mkWorld (w_store w) (w_log w ++ [EvFetch (fc_collection fc)
                 (queryParameters (default_query q) p)]) (w_uid w)))) as [s' Hs'].
  exists s'. unfold log_event at 1. simpl_eff.
  erewrite dispatch_run; [|exact Hs']. simpl. by rewrite <-app_assoc.
Qed.

Lemma settle_ok_run fc q p records (w : world S) h :
  onSuccess (fc_options fc) = Some h -> normalize (fc_options fc) = None ->
  let cq := combinedQuery (default_query q) p in
  let models := number_models (w_uid w) records in
  exists s', settle store_dispatch fc q p (FetchOk records) w =
    (Ret tt, mkWorld s' (w_log w ++ [EvDispatch (successAction h models cq)])
                     (w_uid w + N.of_nat (length records))).
Proof.
  intros Hh Hn cq models. unfold settle. simpl_eff. rewrite set_models_run. simpl.
  unfold onFetchSuccess. rewrite Hh, Hn. fold cq models.
  destruct (accepts_run (successAction h models cq) (w_store w)) as [s' Hs'].
  exists s'. simpl_eff. erewrite dispatch_run; [done|exact Hs'].
Qed.

Lemma settle_fail_run fc q p response (w : world S) h :
  onError (fc_options fc) = Some h ->
  let cq := combinedQuery (default_query q) p in
  exists s', settle store_dispatch fc q p (FetchFail response) w =
    (Ret tt, mkWorld s' (w_log w ++
               (if beforeDispatch h then [EvBeforeDispatch response [default_query q]] else []) ++
               [EvDispatch (errorAction h [] (get_prop response "data") cq)]) (w_uid w)).
Proof.
  intros Hh cq. unfold settle, onFetchError. rewrite Hh. fold cq.
  set (a := errorAction h [] (get_prop response "data") cq).
  destruct (beforeDispatch h).
  - destruct (accepts_run a (w_store w)) as [s' Hs']. exists s'.
    unfold log_event at 1. simpl_eff. erewrite dispatch_run; [|exact Hs']. simpl.
    by rewrite <-app_assoc.
  - destruct (accepts_run a (w_store w)) as [s' Hs']. exists s'.
    simpl_eff. erewrite dispatch_run; [done|exact Hs'].
Qed.
Lemma dispatch_all_run (l : list jsval) (w : world S) :
  exists s', eiter (fun a => dispatch store_dispatch a ;;; eret tt) l w =
    (Ret tt, mkWorld s' (w_log w ++ (EvDispatch <$> l)) (w_uid w)).
Proof.
  revert w. induction l as [|a l IH]; intros w; simpl.
  { exists (w_store w). destruct w. simpl. by rewrite app_nil_r. }
  destruct (accepts_run a (w_store w)) as [s1 H1]. unfold ebind at 1 2.
  rewrite (dispatch_run store_dispatch a w s1 H1). simpl.
  destruct (IH (mkWorld s1 (w_log w ++ [EvDispatch a]) (w_uid w))) as [s' H]. exists s'.
  rewrite H. simpl. by rewrite <-app_assoc.
Qed.

(** The actions [options.normalize.dispatchActions(actions, dispatch)]
    dispatches after the success action. *)
Definition normalized_dispatches (o : find_options) (models : list model) : list jsval :=
  match normalize o with
  | Some n => match dispatchActions n with Some f => f (normalize_actions o models) | None => [] end
  | None => []
  end.

Lemma settle_ok_normalize_run fc q p records (w : world S) h :
  onSuccess (fc_options fc) = Some h ->
  let cq := combinedQuery (default_query q) p in
  let models := number_models (w_uid w) records in
  exists s', settle store_dispatch fc q p (FetchOk records) w =
    (Ret tt, mkWorld s' (w_log w ++ EvDispatch (successAction h models cq) ::
                         (EvDispatch <$> normalized_dispatches (fc_options fc) models))
                     (w_uid w + N.of_nat (length records))).
Proof.
  intros Hh cq models. unfold settle. simpl_eff. rewrite set_models_run. simpl.
  unfold onFetchSuccess. rewrite Hh. fold cq models.
  destruct (accepts_run (successAction h models cq) (w_store w)) as [s1 H1].
  erewrite ebind_step; [|apply (dispatch_run store_dispatch); exact H1]. simpl.
  unfold normalized_dispatches.
  destruct (normalize (fc_options fc)) as [n|]; simpl;
    [destruct (dispatchActions n) as [f|]; simpl|].
  - destruct (dispatch_all_run (f (normalize_actions (fc_options fc) models))
                (mkWorld s1 (w_log w ++ [EvDispatch (successAction h models cq)])
                         (w_uid w + N.of_nat (length records)))) as [s' H].
    exists s'. rewrite H. simpl. by rewrite <-app_assoc.
  - by exists s1.
  - by exists s1.
Qed.
End AcceptingStore.

Lemma dispatched_before_dispatch (b : bool) response args :
  dispatched (if b then [EvBeforeDispatch response args] else []) = [].
Proof. by destruct b. Qed.

Lemma fetches_before_dispatch (b : bool) response args :
  fetches (if b then [EvBeforeDispatch response args] else []) = [].
Proof. by destruct b. Qed.

#[export] Hint Rewrite dispatched_before_dispatch fetches_before_dispatch : find_rw.

(** ** Properties of the find blueprint *)

Section FindProps.
Context {S : Type}.
Variable store_dispatch : jsval -> S -> outcome jsval unit * S.

(** C2: Spec sections 4.2 and 5: one find invocation performs exactly one
    fetch, dispatches the optimistic action (empty data, the combined
    query) synchronously, and, when the fetch settles, exactly one
    reconciling action: the success action carrying the fetched models
    with the client ids Backbone gave them, or the error action carrying
    [response.data].  Events that happen between the two halves (other
    dispatches, other fetches) keep their place: the optimistic action
    precedes them and the reconciliation follows them.  The store is one
    whose reducers and subscribers do not throw. *)
Theorem find_reconciles_once fc q p r (w w1 : world S) between hopt hsucc herr :
  (forall a s, fst (store_dispatch a s) = Ret tt) ->
  optimistic (fc_options fc) = Some hopt -> onSuccess (fc_options fc) = Some hsucc ->
  onError (fc_options fc) = Some herr -> normalize (fc_options fc) = None ->
  w_log w1 = w_log (snd (fetchAll store_dispatch fc q p w)) ++ between ->
  let cq := combinedQuery (default_query q) p in
  let final := w_log (snd (settle store_dispatch fc q p r w1)) in
  dispatched final =
    dispatched (w_log w) ++ [optimisticAction hopt cq] ++ dispatched between ++
    [match r with
     | FetchOk records => successAction hsucc (number_models (w_uid w1) records) cq
     | FetchFail response => errorAction herr [] (get_prop response "data") cq
     end] /\
  fetches final =
    fetches (w_log w) ++ [(fc_collection fc, queryParameters (default_query q) p)] ++
    fetches between.
Proof.
  intros Hacc Hopt Hsucc Herr Hnorm Hw1 cq final.
  destruct (fetchAll_run store_dispatch Hacc fc q p w hopt Hopt) as [s0 H0].
  rewrite H0 in Hw1. simpl in Hw1. fold cq in Hw1. subst final.
  destruct r as [records|response].
  - destruct (settle_ok_run store_dispatch Hacc fc q p records w1 hsucc Hsucc Hnorm) as [s1 H1].
    rewrite H1. simpl. rewrite Hw1.
    autorewrite with find_rw. simpl. split; by rewrite ?app_nil_r, <-?app_assoc.
  - destruct (settle_fail_run store_dispatch Hacc fc q p response w1 herr Herr) as [s1 H1].
    rewrite H1. simpl. rewrite Hw1.
    autorewrite with find_rw. simpl. split; by rewrite ?app_nil_r, <-?app_assoc.
Qed.

(** C20: A finding.  find.js chains [.then(success).catch(failure)], so
    the failure handler also runs when the success handler throws, e.g.
    when a reducer or a store subscriber throws during the success
    dispatch.  The settlement then dispatches two reconciling actions,
    the success action and after it an error action, whose error is
    [e.data] of the thrown value and whose data still lists the fetched
    models. *)
Theorem find_success_throw_dispatches_error fc q p records (w1 : world S)
    hsucc herr e s1 :
  onSuccess (fc_options fc) = Some hsucc -> onError (fc_options fc) = Some herr ->
  normalize (fc_options fc) = None ->
  let cq := combinedQuery (default_query q) p in
  let models := number_models (w_uid w1) records in
  store_dispatch (successAction hsucc models cq) (w_store w1) = (Throw e, s1) ->
  fst (store_dispatch (errorAction herr models (get_prop e "data") cq) s1) = Ret tt ->
  fst (settle store_dispatch fc q p (FetchOk records) w1) = Ret tt /\
  dispatched (w_log (snd (settle store_dispatch fc q p (FetchOk records) w1))) =
    dispatched (w_log w1) ++
      [successAction hsucc models cq; errorAction herr models (get_prop e "data") cq].
Proof.
  intros Hsucc Herr Hnorm cq models Hthrow Hok.
  destruct (store_dispatch (errorAction herr models (get_prop e "data") cq) s1)
    as [o s2] eqn:Hs2. simpl in Hok. subst o.
  unfold settle. simpl_eff. rewrite set_models_run. simpl.
  unfold onFetchSuccess. rewrite Hsucc, Hnorm. fold cq models. simpl_eff.
  erewrite dispatch_run_throw; [|exact Hthrow]. simpl.
  unfold onFetchError. rewrite Herr. fold cq.
  destruct (beforeDispatch herr); unfold log_event; simpl_eff;
    (erewrite dispatch_run; [|exact Hs2]); simpl;
    (split; [done|]); autorewrite with find_rw; simpl; by rewrite ?app_nil_r, <-?app_assoc.
Qed.
(** C15: find.js lines 36-55 with [options.normalize]: when the fetch
    succeeds, the thunk dispatches the success action and then, in order,
    the actions [normalize.dispatchActions] dispatches for the actions
    [normalize.getActions] computed from the fetched collection (none when
    [getActions] is absent), and no other action; no further fetch. *)
Theorem find_success_dispatches_normalized fc q p records (w : world S) h :
  (forall a s, fst (store_dispatch a s) = Ret tt) ->
  onSuccess (fc_options fc) = Some h ->
  let cq := combinedQuery (default_query q) p in
  let models := number_models (w_uid w) records in
  let final := w_log (snd (settle store_dispatch fc q p (FetchOk records) w)) in
  dispatched final =
    dispatched (w_log w) ++ successAction h models cq :: normalized_dispatches (fc_options fc) models /\
  fetches final = fetches (w_log w).
Proof.
  intros Hacc Hh cq models final. subst final.
  destruct (settle_ok_normalize_run store_dispatch Hacc fc q p records w h Hh) as [s' H].
  rewrite H. cbn [snd w_log]. autorewrite with find_rw. by rewrite app_nil_r.
Qed.
End FindProps.

(** ** Fixtures: the find options of the todo model in redux.spec.js *)

Definition todo_find_options : find_options :=
  mkFindOptions (Some "todos") (Some (mkHook "FETCH_TODOS" "RESOLVED"))
    (Some (mkErrorHook "FETCH_TODOS" "ERROR_FETCHING" true))
    (Some (mkHook "FETCH_TODOS" "FETCHING")) None.

Definition todo_find_config : find_config := mkFindConfig "todos" todo_find_options.

(** A todo find whose normalizer turns each todo's nested [user] into an
    [ADD_USER] action and dispatches them all. *)
Definition user_normalizer : normalizer :=
  mkNormalizer (Some (map (fun attrs => JObj [("type", JStr "ADD_USER");
                                              ("payload", get_prop attrs "user")])))
               (Some id).

Definition normalized_find_config : find_config :=
  mkFindConfig "todos" (mkFindOptions (Some "todos") (Some (mkHook "FETCH_TODOS" "RESOLVED")) None
                          None (Some user_normalizer)).

(** A store that accepts every action, and one whose subscriber throws on
    the success action. *)
Definition accepting_store (a : jsval) (s : unit) : outcome jsval unit * unit := (Ret tt, s).

Definition throwing_store (a : jsval) (s : unit) : outcome jsval unit * unit :=
  match get_prop (get_prop a "payload") "state" with
  | JStr "RESOLVED" => (Throw (error_object "subscriber failed"), s)
  | _ => (Ret tt, s)
  end.

Lemma find_reconciles_once_witness :
  let w := mkWorld tt [] 0%N in
  let w1 := snd (fetchAll accepting_store todo_find_config JUndef JUndef w) in
  let r := FetchOk [JObj [("id", JStr "1"); ("title", JStr "foo")]] in
  let hopt := mkHook "FETCH_TODOS" "FETCHING" in
  let hsucc := mkHook "FETCH_TODOS" "RESOLVED" in
  let herr := mkErrorHook "FETCH_TODOS" "ERROR_FETCHING" true in
  (forall a s, fst (accepting_store a s) = Ret tt) /\
  optimistic (fc_options todo_find_config) = Some hopt /\
  onSuccess (fc_options todo_find_config) = Some hsucc /\
  onError (fc_options todo_find_config) = Some herr /\
  normalize (fc_options todo_find_config) = None /\
  w_log w1 = w_log (snd (fetchAll accepting_store todo_find_config JUndef JUndef w)) ++ [] /\
  let cq := combinedQuery (default_query JUndef) JUndef in
  let final := w_log (snd (settle accepting_store todo_find_config JUndef JUndef r w1)) in
  dispatched final =
    dispatched (w_log w) ++ [optimisticAction hopt cq] ++ dispatched [] ++
    [match r with
     | FetchOk records => successAction hsucc (number_models (w_uid w1) records) cq
     | FetchFail response => errorAction herr [] (get_prop response "data") cq
     end] /\
  fetches final =
    fetches (w_log w) ++
    [(fc_collection todo_find_config, queryParameters (default_query JUndef) JUndef)] ++ fetches [].
Proof.
  intros w w1 r hopt hsucc herr.
  assert (forall a s, fst (accepting_store a s) = Ret tt) as Hacc by done.
  split; [exact Hacc|]. do 4 (split; [reflexivity|]).
  split; [by rewrite app_nil_r|].
  apply (find_reconciles_once accepting_store todo_find_config JUndef JUndef r w w1 []
           hopt hsucc herr Hacc eq_refl eq_refl eq_refl eq_refl).
  by rewrite app_nil_r.
Defined.

Lemma find_success_dispatches_normalized_witness :
  let w := mkWorld tt [] 0%N in
  let rec := JObj [("id", JStr "1"); ("user", JObj [("id", JStr "u1")])] in
  let cq := combinedQuery (default_query JUndef) JUndef in
  let models := number_models 0 [rec] in
  dispatched (w_log (snd (settle accepting_store normalized_find_config JUndef JUndef
                                 (FetchOk [rec]) w))) =
    [successAction (mkHook "FETCH_TODOS" "RESOLVED") models cq;
     JObj [("type", JStr "ADD_USER"); ("payload", JObj [("id", JStr "u1")])]].
Proof.
  exact (proj1 (find_success_dispatches_normalized accepting_store normalized_find_config
                  JUndef JUndef _ (mkWorld tt [] 0%N) (mkHook "FETCH_TODOS" "RESOLVED")
                  (fun _ _ => eq_refl) eq_refl)).
Defined.

Lemma find_success_throw_dispatches_error_witness :
  let w1 := mkWorld tt [] 0%N in
  let records := [JObj [("id", JStr "1"); ("title", JStr "foo")]] in
  let hsucc := mkHook "FETCH_TODOS" "RESOLVED" in
  let herr := mkErrorHook "FETCH_TODOS" "ERROR_FETCHING" true in
  let e := error_object "subscriber failed" in
  let cq := combinedQuery (default_query JUndef) JUndef in
  let models := number_models (w_uid w1) records in
  onSuccess (fc_options todo_find_config) = Some hsucc /\
  onError (fc_options todo_find_config) = Some herr /\
  normalize (fc_options todo_find_config) = None /\
  throwing_store (successAction hsucc models cq) (w_store w1) = (Throw e, tt) /\
  fst (throwing_store (errorAction herr models (get_prop e "data") cq) tt) = Ret tt /\
  fst (settle throwing_store todo_find_config JUndef JUndef (FetchOk records) w1) = Ret tt /\
  dispatched (w_log (snd (settle throwing_store todo_find_config JUndef JUndef (FetchOk records) w1))) =
    dispatched (w_log w1) ++
      [successAction hsucc models cq; errorAction herr models (get_prop e "data") cq].
Proof.
  intros w1 records hsucc herr e cq models.
  do 5 (split; [reflexivity|]).
  apply (find_success_throw_dispatches_error throwing_store todo_find_config JUndef JUndef
           records w1 hsucc herr e tt eq_refl eq_refl eq_refl); reflexivity.
Defined.

(** ** The query key, the request data and the configuration errors *)

Lemma canonical_combinedQuery q p :
  canonical (combinedQuery q p) =
  JObj (merge_sort key_le [("where", canonical q); ("pagination", canonical p)]).
Proof. reflexivity. Qed.

(** Spec sections 3 and 8: the key under which a find result is
    cached is the same for two filters that differ only in the order in
    which their keys were inserted (with the same pagination). *)
Lemma query_key_filter_order fs gs p :
  obj_wf fs -> fs ≡ₚ gs ->
  query_key (combinedQuery (JObj fs) p) = query_key (combinedQuery (JObj gs) p).
Proof.
  intros Hwf Hperm. unfold query_key. rewrite !canonical_combinedQuery.
  by rewrite (canonical_obj_perm fs gs).
Qed.
(** C29: A finding.  The request data is [_.extend({}, query, pagination)]:
    a pagination key overrides a filter key of the same name, so such a
    filter value never reaches the server, although the cache key (built
    from [{where, pagination}]) keeps both. *)
Theorem queryParameters_pagination_wins fs ps k :
  obj_wf fs -> obj_wf ps ->
  get_prop (queryParameters (JObj fs) (JObj ps)) k =
  if decide (k ∈ ps.*1) then assoc_get ps k else assoc_get fs k.
Proof. apply get_prop_extend2. Qed.

Lemma queryParameters_pagination_wins_witness :
  let fs := [("page", JStr "drafts")] in
  let ps := [("page", JNum 2)] in
  obj_wf fs /\ obj_wf ps /\
  get_prop (queryParameters (JObj fs) (JObj ps)) "page" =
  (if decide ("page" ∈ ps.*1) then assoc_get ps "page" else assoc_get fs "page") /\
  get_prop (queryParameters (JObj fs) (JObj ps)) "page" = JNum 2.
Proof.
  intros fs ps.
  assert (obj_wf fs) as Hf by (unfold obj_wf; repeat constructor; set_solver).
  assert (obj_wf ps) as Hp by (unfold obj_wf; repeat constructor; set_solver).
  split; [exact Hf|]. split; [exact Hp|].
  split; [by apply queryParameters_pagination_wins|reflexivity].
Defined.

Lemma fetchAll_fetches {S} (sd : jsval -> S -> outcome jsval unit * S) fc q p (w : world S) :
  fetches (w_log (snd (fetchAll sd fc q p w))) =
  fetches (w_log w) ++ [(fc_collection fc, queryParameters (default_query q) p)].
Proof.
  unfold fetchAll. destruct (optimistic (fc_options fc)) as [h|].
  - unfold log_event at 1. simpl_eff. unfold dispatch, log_event. simpl_eff.
    destruct (sd _ _) as [[] s']; simpl; autorewrite with find_rw; simpl;
      by rewrite ?app_nil_r, <-?app_assoc.
  - unfold log_event. simpl_eff. by autorewrite with find_rw.
Qed.

(** C24: Spec section 7, configuration errors fail fast: the blueprint
    throws [new Error('Must specify a collection')] when the options,
    after defaulting, name no collection; when it returns an action
    creator, the options passed validation, name the collection, and every
    call of the creator issues exactly one fetch of that collection with
    the query parameters, whatever the store does. *)
Theorem findBlueprint_fail_fast defaults validate opts :
  (collection (defaultsDeep opts defaults) = None ->
   findBlueprint defaults validate opts = Throw (error_object "Must specify a collection")) /\
  forall fc, findBlueprint defaults validate opts = Ret fc ->
    validate (fc_options fc) = None /\ collection (fc_options fc) = Some (fc_collection fc) /\
    forall S (sd : jsval -> S -> outcome jsval unit * S) q p (w : world S),
      fetches (w_log (snd (fetchAll sd fc q p w))) =
      fetches (w_log w) ++ [(fc_collection fc, queryParameters (default_query q) p)].
Proof.
  unfold findBlueprint. split.
  - by intros ->.
  - intros fc. destruct (collection (defaultsDeep opts defaults)) as [coll|] eqn:Hc; [|done].
    destruct (validate (defaultsDeep opts defaults)) eqn:Hv; [done|].
    intros [= <-]. simpl. split; [done|]. split; [done|].
    intros S sd q p w. apply fetchAll_fetches.
Qed.

(** The client ids of the models of one fetch: distinct, and above the
    counter they started from. *)
Lemma number_models_cids n records m :
  m ∈ number_models n records ->
  exists j, m_cid m = cid_of j /\ (n < j)%N /\ (j <= n + N.of_nat (length records))%N.
Proof.
  revert n. induction records as [|r rs IH]; intros n; simpl; [by intros ?%elem_of_nil|].
  rewrite elem_of_cons. intros [->|Hm].
  - exists (N.succ n). simpl. split; [done|lia].
  - destruct (IH _ Hm) as (j & Hj & Hlo & Hhi). exists j. split; [done|lia].
Qed.

Lemma number_models_NoDup n records : NoDup (m_cid <$> number_models n records).
Proof.
  revert n. induction records as [|r rs IH]; intros n; simpl; [constructor|].
  constructor; [|apply IH].
  intros (m & Hm & Hin)%list_elem_of_fmap. simpl in Hm.
  destruct (number_models_cids _ _ _ Hin) as (j & Hj & Hlo & _).
  rewrite Hj in Hm. apply (inj cid_of) in Hm. lia.
Qed.

Lemma number_models_attrs n records : m_attrs <$> number_models n records = records.
Proof. revert n. induction records as [|r rs IH]; intros n; [done|]. simpl. by rewrite IH. Qed.
