(* ===== verification/Json.v ===== *)
(** * JSON.parse undoes JSON.stringify; the query key is injective

    The reducers file a find result under [JSON.stringify] of its combined
    query with sorted keys ([JsValue.query_key]).  This file gives a parser
    for the JSON text [json_stringify] writes ([JSON.parse] restricted to
    that output: numbers are integers, strings are 8-bit) and proves the
    round trip: parsing the text of a value gives back the value as JSON
    sees it ([json_norm]: [undefined] array elements read back as [null],
    [undefined] properties are gone).  So two values with the same text
    are the same JSON value, and two finds filed under the same key asked
    for the same filter and pagination once their keys are sorted
    ([query_key_injective]).

    The parser works on fuel: every call consumes one unit, and the size of
    the value ([jsize]) is enough. *)

From S2P Require Import Prelude JsValue FindBlueprint.
From Stdlib Require Import Ascii String.
#[local] Set Warnings "-clear-no-such-hyp".

(** ** Numbers *)

Definition is_digit (c : ascii) : bool :=
  let n := nat_of_ascii c in (48 <=? n) && (n <=? 57).

Definition digit_val (c : ascii) : N := N.of_nat (nat_of_ascii c - 48).

(** Reads the longest run of digits, accumulating its decimal value. *)
Fixpoint read_digits (acc : N) (s : string) : N * string :=
  match s with
  | String c s' => if is_digit c then read_digits (10 * acc + digit_val c)%N s' else (acc, s)
  | EmptyString => (acc, EmptyString)
  end.

(** An integer: an optional minus sign and at least one digit. *)
Definition parse_number (s : string) : option (Z * string) :=
  match s with
  | String c s' =>
      if nat_of_ascii c =? 45 then
        match s' with
        | String d _ => if is_digit d then let (n, r) := read_digits 0 s' in Some (Z.opp (Z.of_N n), r)
                        else None
        | EmptyString => None
        end
      else if is_digit c then let (n, r) := read_digits 0 s in Some (Z.of_N n, r)
      else None
  | EmptyString => None
  end.

(** The text after a value: no digit may follow a number. *)
Definition delim (rest : string) : Prop :=
  match rest with String c _ => is_digit c = false | EmptyString => True end.

Lemma pretty_N_char_digit x : is_digit (pretty_N_char x) = true.
Proof. unfold pretty_N_char. by repeat case_match. Qed.

Lemma digit_val_pretty_N_char x : (x < 10)%N -> digit_val (pretty_N_char x) = x.
Proof.
  intros Hx. assert (x = 0 \/ x = 1 \/ x = 2 \/ x = 3 \/ x = 4 \/ x = 5 \/ x = 6 \/ x = 7 \/
                     x = 8 \/ x = 9)%N as H by lia.
  by destruct_or! H; subst.
Qed.

(** Reading the digits [pretty_N_go x s] puts in front of [s]. *)
Lemma read_digits_pretty_N_go x : forall acc s,
  exists k, read_digits acc (pretty_N_go x s) = read_digits (acc * 10 ^ k + x)%N s.
Proof.
  induction (N.lt_wf_0 x) as [x _ IH]. intros acc s.
  destruct (decide (x = 0%N)) as [->|Hx].
  { exists 0%N. rewrite pretty_N_go_0. f_equal; lia. }
  rewrite pretty_N_go_step by lia.
  destruct (IH (x / 10)%N ltac:(apply N.div_lt; lia) acc
              (String (pretty_N_char (x mod 10)) s)) as [k Hk].
  exists (k + 1)%N. rewrite Hk. simpl. rewrite pretty_N_char_digit.
  rewrite digit_val_pretty_N_char by (apply N.mod_lt; lia).
  f_equal. rewrite N.pow_add_r.
  rewrite (N.div_mod x 10) at 3 by lia. lia.
Qed.

Lemma pretty_N_go_head x s :
  (0 < x)%N -> exists c t, pretty_N_go x s = String c t /\ is_digit c = true.
Proof.
  revert s. induction (N.lt_wf_0 x) as [x _ IH]. intros s Hx.
  rewrite pretty_N_go_step by done.
  destruct (decide (x / 10 = 0)%N) as [H0|H0].
  - rewrite H0, pretty_N_go_0. eexists _, _. split; [done|]. apply pretty_N_char_digit.
  - apply IH; [apply N.div_lt; lia|by apply N.neq_0_lt_0].
Qed.

Lemma read_digits_delim acc rest : delim rest -> read_digits acc rest = (acc, rest).
Proof. destruct rest as [|c r]; simpl; [done|]. by intros ->. Qed.

Lemma parse_pretty_N x rest :
  (0 < x)%N -> delim rest ->
  read_digits 0 (pretty_N_go x "" +:+ rest) = (x, rest).
Proof.
  intros Hx Hd.
  assert (Happ : forall s, pretty_N_go x s +:+ rest = pretty_N_go x (s +:+ rest)).
  { clear Hx. induction (N.lt_wf_0 x) as [y _ IH]. intros s.
    destruct (decide (y = 0%N)) as [->|Hy]; [by rewrite !pretty_N_go_0|].
    rewrite !(pretty_N_go_step y) by lia. rewrite IH by (apply N.div_lt; lia). done. }
  rewrite Happ, string_app_nil_l.
  destruct (read_digits_pretty_N_go x 0 rest) as [k ->].
  rewrite read_digits_delim by done. f_equal; lia.
Qed.

(** [pretty z], then a delimiter, reads back as [z]. *)
Lemma parse_number_pretty (z : Z) rest :
  delim rest -> parse_number (pretty z +:+ rest) = Some (z, rest).
Proof.
  intros Hd. destruct z as [|p|p].
  - simpl. destruct rest as [|c r]; simpl in *; [done|]. by rewrite Hd.
  - change (pretty (Z.pos p)) with (pretty (N.pos p)).
    unfold pretty, pretty_N. rewrite decide_False by done.
    destruct (pretty_N_go_head (N.pos p) "" ltac:(lia)) as (c & t & Hct & Hc).
    unfold parse_number. rewrite Hct, string_app_cons.
    assert (Hc45 : (nat_of_ascii c =? 45) = false).
    { apply Nat.eqb_neq. intros H. unfold is_digit in Hc. rewrite H in Hc. done. }
    rewrite Hc45, Hc. rewrite <-string_app_cons, <-Hct.
    by rewrite (parse_pretty_N (N.pos p) rest) by (done || lia).
  - change (pretty (Z.neg p)) with ("-" +:+ pretty (N.pos p)).
    unfold pretty, pretty_N. rewrite decide_False by done.
    destruct (pretty_N_go_head (N.pos p) "" ltac:(lia)) as (c & t & Hct & Hc).
    unfold parse_number. rewrite string_app_assoc, string_app_cons, string_app_nil_l.
    rewrite Hct, string_app_cons. cbn -[read_digits is_digit]. rewrite Hc.
    rewrite <-string_app_cons, <-Hct.
    by rewrite (parse_pretty_N (N.pos p) rest) by (done || lia).
Qed.

(** ** Strings *)

Definition hex_val (c : ascii) : option nat :=
  let n := nat_of_ascii c in
  if (48 <=? n) && (n <=? 57) then Some (n - 48)
  else if (97 <=? n) && (n <=? 102) then Some (n - 87)
  else if (65 <=? n) && (n <=? 70) then Some (n - 55)
  else None.

(** The short escapes of JSON: a backslash followed by a double quote, a
    backslash, a slash, or one of the letters b, f, n, r, t. *)
Definition unescape (e : ascii) : option ascii :=
  let n := nat_of_ascii e in
  if n =? 34 then Some ascii_dquote
  else if n =? 92 then Some ascii_bslash
  else if n =? 47 then Some (ascii_of_nat 47)
  else if n =? 98 then Some (ascii_of_nat 8)
  else if n =? 102 then Some (ascii_of_nat 12)
  else if n =? 110 then Some (ascii_of_nat 10)
  else if n =? 114 then Some (ascii_of_nat 13)
  else if n =? 116 then Some (ascii_of_nat 9)
  else None.

(** The body of a string literal up to its closing quote; [\uXXXX] is
    accepted for the 8-bit characters. *)
Fixpoint parse_str (s : string) : option (string * string) :=
  match s with
  | EmptyString => None
  | String c s1 =>
      if nat_of_ascii c =? 34 then Some (EmptyString, s1)
      else if nat_of_ascii c =? 92 then
        match s1 with
        | String e s2 =>
            if nat_of_ascii e =? 117 then
              match s2 with
              | String h1 (String h2 (String h3 (String h4 s3))) =>
                  match hex_val h1, hex_val h2, hex_val h3, hex_val h4 with
                  | Some a, Some b, Some c3, Some d =>
                      let code := ((a * 16 + b) * 16 + c3) * 16 + d in
                      if code <? 256 then
                        match parse_str s3 with
                        | Some (t, r) => Some (String (ascii_of_nat code) t, r)
                        | None => None
                        end
                      else None
                  | _, _, _, _ => None
                  end
              | _ => None
              end
            else
              match unescape e, parse_str s2 with
              | Some d, Some (t, r) => Some (String d t, r)
              | _, _ => None
              end
        | EmptyString => None
        end
      else if nat_of_ascii c <? 32 then None
      else
        match parse_str s1 with
        | Some (t, r) => Some (String c t, r)
        | None => None
        end
  end.

Lemma hex_val_hex_digit k : k < 16 -> hex_val (hex_digit k) = Some k.
Proof. intros Hk. do 16 (destruct k as [|k]; [reflexivity|]). lia. Qed.

Lemma ascii_of_nat_of_ascii_eq c n : nat_of_ascii c = n -> c = ascii_of_nat n.
Proof. intros <-. by rewrite ascii_nat_embedding. Qed.

(** One escaped character, then more text. *)
Lemma parse_str_escape_char c t s r :
  parse_str t = Some (s, r) -> parse_str (json_escape_char c +:+ t) = Some (String c s, r).
Proof.
  intros Ht. unfold json_escape_char.
  remember (nat_of_ascii c) as n eqn:Hn. symmetry in Hn.
  pose proof (ascii_of_nat_of_ascii_eq c n Hn) as Hc.
  pose proof (nat_ascii_bounded c) as Hb. rewrite Hn in Hb.
  destruct (Nat.eqb_spec n 34) as [->|H34]; [subst c; rewrite !string_app_cons, string_app_nil_l; simpl; by rewrite Ht|].
  destruct (Nat.eqb_spec n 92) as [->|H92]; [subst c; rewrite !string_app_cons, string_app_nil_l; simpl; by rewrite Ht|].
  destruct (Nat.eqb_spec n 8) as [->|H8]; [subst c; rewrite !string_app_cons, string_app_nil_l; simpl; by rewrite Ht|].
  destruct (Nat.eqb_spec n 12) as [->|H12]; [subst c; rewrite !string_app_cons, string_app_nil_l; simpl; by rewrite Ht|].
  destruct (Nat.eqb_spec n 10) as [->|H10]; [subst c; rewrite !string_app_cons, string_app_nil_l; simpl; by rewrite Ht|].
  destruct (Nat.eqb_spec n 13) as [->|H13]; [subst c; rewrite !string_app_cons, string_app_nil_l; simpl; by rewrite Ht|].
  destruct (Nat.eqb_spec n 9) as [->|H9]; [subst c; rewrite !string_app_cons, string_app_nil_l; simpl; by rewrite Ht|].
  destruct (Nat.ltb_spec n 32) as [Hlt|Hge].
  - rewrite !string_app_cons, string_app_nil_l.
    unfold parse_str; fold parse_str. change (nat_of_ascii ascii_bslash) with 92.
    cbv beta iota. change (nat_of_ascii "u"%char) with 117. cbv beta iota.
    rewrite !hex_val_hex_digit by (apply Nat.Div0.div_lt_upper_bound || apply Nat.mod_upper_bound; lia).
    change (hex_val "0"%char) with (Some 0). cbv beta iota zeta.
    replace (((0 * 16 + 0) * 16 + n / 16) * 16 + n mod 16) with n
      by (rewrite (Nat.div_mod n 16) at 1 by lia; lia).
    destruct (Nat.ltb_spec n 256) as [_|]; [|lia]. rewrite Ht. by rewrite <-Hc.
  - rewrite string_app_cons, string_app_nil_l. simpl. rewrite Hn.
    rewrite (proj2 (Nat.eqb_neq _ _) H34), (proj2 (Nat.eqb_neq _ _) H92).
    destruct (Nat.ltb_spec n 32); [lia|]. by rewrite Ht.
Qed.

Lemma parse_str_escape s rest :
  parse_str (json_escape s +:+ String ascii_dquote rest) = Some (s, rest).
Proof.
  induction s as [|c s IH]; [done|]. simpl json_escape. rewrite string_app_assoc.
  by apply parse_str_escape_char.
Qed.

(** ** Values *)

(** [s] with the prefix [p] removed, if it starts with [p]. *)
Fixpoint strip_prefix (p s : string) : option string :=
  match p, s with
  | EmptyString, _ => Some s
  | String a p', String b s' => if Ascii.eqb a b then strip_prefix p' s' else None
  | String _ _, EmptyString => None
  end.

Definition dquote_str : string := String ascii_dquote EmptyString.

(** A value, the elements of an array after its [[], the properties of an
    object after its [{]. *)
Fixpoint parse_value (fuel : nat) (s : string) {struct fuel} : option (jsval * string) :=
  match fuel with
  | O => None
  | S f =>
      match s with
      | EmptyString => None
      | String c r =>
          let n := nat_of_ascii c in
          if n =? 110 then r' ← strip_prefix "ull" r; Some (JNull, r')
          else if n =? 116 then r' ← strip_prefix "rue" r; Some (JBool true, r')
          else if n =? 102 then r' ← strip_prefix "alse" r; Some (JBool false, r')
          else if n =? 34 then '(t, r') ← parse_str r; Some (JStr t, r')
          else if n =? 91 then
            match strip_prefix "]" r with
            | Some r' => Some (JArr [], r')
            | None => '(xs, r') ← parse_elems f r; Some (JArr xs, r')
            end
          else if n =? 123 then
            match strip_prefix "}" r with
            | Some r' => Some (JObj [], r')
            | None => '(fs, r') ← parse_fields f r; Some (JObj fs, r')
            end
          else '(z, r') ← parse_number s; Some (JNum z, r')
      end
  end
with parse_elems (fuel : nat) (s : string) {struct fuel} : option (list jsval * string) :=
  match fuel with
  | O => None
  | S f =>
      '(v, r) ← parse_value f s;
      match strip_prefix "," r with
      | Some r' => '(vs, r'') ← parse_elems f r'; Some (v :: vs, r'')
      | None => r' ← strip_prefix "]" r; Some ([v], r')
      end
  end
with parse_fields (fuel : nat) (s : string) {struct fuel}
    : option (list (string * jsval) * string) :=
  match fuel with
  | O => None
  | S f =>
      r0 ← strip_prefix dquote_str s;
      '(k, r1) ← parse_str r0;
      r2 ← strip_prefix ":" r1;
      '(v, r3) ← parse_value f r2;
      match strip_prefix "," r3 with
      | Some r4 => '(fs, r5) ← parse_fields f r4; Some ((k, v) :: fs, r5)
      | None => r4 ← strip_prefix "}" r3; Some ([(k, v)], r4)
      end
  end.

(** What [JSON.parse(JSON.stringify(v))] gives back: an [undefined] array
    element becomes [null], an [undefined] property disappears. *)
Fixpoint json_norm (v : jsval) : jsval :=
  match v with
  | JArr xs => JArr (map (fun x => match x with JUndef => JNull | _ => json_norm x end) xs)
  | JObj fs => JObj (omap (fun kv => match kv.2 with
                                     | JUndef => None
                                     | _ => Some (kv.1, json_norm kv.2)
                                     end) fs)
  | _ => v
  end.

(** The fuel the parser needs for a value's text. *)
Fixpoint jsize (v : jsval) : nat :=
  match v with
  | JArr xs => S (sum_list_with (fun x => S (jsize x)) xs)
  | JObj fs => S (sum_list_with (fun kv => S (jsize kv.2)) fs)
  | _ => 1
  end.

(** ** The round trip *)

Lemma strip_prefix_app p t : strip_prefix p (p +:+ t) = Some t.
Proof. induction p as [|a p IH]; [done|]. simpl. by rewrite Ascii.eqb_refl. Qed.

Lemma json_stringify_None v : json_stringify v = None <-> v = JUndef.
Proof. destruct v as [| |[]| | | |]; naive_solver. Qed.

(** The first character of a number's text: a minus sign or a digit. *)
Lemma pretty_Z_head (z : Z) :
  exists c t, pretty z = String c t /\ (nat_of_ascii c = 45 \/ 48 <= nat_of_ascii c <= 57).
Proof.
  destruct z as [|p|p].
  - exists "0"%char, "". split; [done|]. right. vm_compute. lia.
  - change (pretty (Z.pos p)) with (pretty (N.pos p)). unfold pretty, pretty_N.
    rewrite decide_False by done.
    destruct (pretty_N_go_head (N.pos p) "" ltac:(lia)) as (c & t & -> & Hc).
    exists c, t. split; [done|]. right. unfold is_digit in Hc.
    apply andb_true_iff in Hc as [H1 H2]. apply Nat.leb_le in H1, H2. lia.
  - exists "-"%char, (pretty (N.pos p)). split; [done|]. left. done.
Qed.

(** Rules out, one by one, the branches of [parse_value] that test the
    first character against another one. *)
Ltac skip_char_branches H :=
  repeat match goal with
         | |- context [nat_of_ascii ?c =? ?m] =>
             let E := fresh in
             destruct (Nat.eqb_spec (nat_of_ascii c) m) as [E|E]; [exfalso; lia|]
         end.

Lemma parse_value_number f z rest :
  delim rest -> parse_value (S f) (pretty z +:+ rest) = Some (JNum z, rest).
Proof.
  intros Hd. destruct (pretty_Z_head z) as (c & t & Hz & Hc).
  rewrite Hz, string_app_cons. cbn [parse_value]. cbv zeta.
  skip_char_branches Hc.
  rewrite <-string_app_cons, <-Hz, parse_number_pretty by done. done.
Qed.

(** The text of a value never starts with the [,], [\]] or [}] that end
    the list it is an element of. *)
Lemma json_head v s :
  json_stringify v = Some s ->
  exists c t, s = String c t /\ nat_of_ascii c <> 93 /\ nat_of_ascii c <> 125.
Proof.
  destruct v as [| |[]|z|k|xs|fs]; simpl; intros; simplify_eq;
    try (eexists _, _; split; [by rewrite ?string_app_cons|vm_compute; lia]).
  destruct (pretty_Z_head z) as (c & t & -> & Hc). eexists _, _. split; [done|lia].
Qed.

(** What the round trip states of one value; [json_roundtrip] proves it of
    every value. *)
Definition roundtrips (v : jsval) : Prop :=
  forall s rest f, json_stringify v = Some s -> delim rest -> jsize v <= f ->
  parse_value f (s +:+ rest) = Some (json_norm v, rest).

Lemma roundtrips_scalar v :
  match v with JArr _ | JObj _ => False | _ => True end -> roundtrips v.
Proof.
  intros Hv s rest [|f] Hs Hd Hf; simpl in Hf; [destruct v; simpl in *; lia|].
  destruct v as [| |[]|z|k| |]; simpl in Hs; simplify_eq; try done;
    try by vm_compute.
  - by apply parse_value_number.
  - unfold json_quote. rewrite string_app_cons, string_app_assoc, string_app_cons,
      string_app_nil_l.
    cbn [parse_value]. rewrite parse_str_escape. by vm_compute.
Qed.

(** ** Arrays *)

Definition elem_text (x : jsval) : string := default "null" (json_stringify x).
Definition elem_norm (x : jsval) : jsval :=
  match x with JUndef => JNull | _ => json_norm x end.

Lemma delim_punct c t : is_digit c = false -> delim (String c EmptyString +:+ t).
Proof. by rewrite string_app_cons. Qed.

Lemma strip_prefix_head d c t u :
  nat_of_ascii c <> nat_of_ascii d -> strip_prefix (String d EmptyString) (String c t +:+ u) = None.
Proof.
  intros Hc. rewrite string_app_cons. simpl.
  by destruct (Ascii.eqb_spec d c); [subst|].
Qed.

Lemma concat_cons2 sep a b l :
  String.concat sep (a :: b :: l) = a +:+ sep +:+ String.concat sep (b :: l).
Proof. done. Qed.

Lemma concat_head sep a l : exists z, String.concat sep (a :: l) = a +:+ z.
Proof. destruct l; [exists ""; by rewrite string_app_nil_r|by eexists]. Qed.

(** A non-empty list of texts starts with the first one, which is not
    the [\]] or [}] that ends the list. *)
Lemma concat_strip sep l d u :
  Forall (fun s => exists c t, s = String c t /\ nat_of_ascii c <> nat_of_ascii d) l ->
  l <> [] -> strip_prefix (String d EmptyString) (String.concat sep l +:+ u) = None.
Proof.
  intros Hl Hne. destruct l as [|a l]; [done|]. apply Forall_cons in Hl as [(c & t & -> & Hc) _].
  destruct (concat_head sep (String c t) l) as [z ->].
  rewrite string_app_assoc. by apply strip_prefix_head.
Qed.

Lemma elem_head x :
  exists c t, elem_text x = String c t /\ nat_of_ascii c <> 93 /\ nat_of_ascii c <> 125.
Proof.
  unfold elem_text. destruct (json_stringify x) as [s|] eqn:Hs; simpl.
  - by apply json_head in Hs.
  - eexists _, _. split; [done|]. vm_compute. lia.
Qed.

Lemma roundtrips_elem x rest f :
  roundtrips x -> delim rest -> jsize x <= f ->
  parse_value f (elem_text x +:+ rest) = Some (elem_norm x, rest).
Proof.
  intros Hx Hd Hf. destruct (decide (x = JUndef)) as [->|Hu].
  - destruct f as [|f]; [simpl in Hf; lia|]. by vm_compute.
  - destruct (json_stringify x) as [s|] eqn:Hs; [|by apply json_stringify_None in Hs].
    unfold elem_text. rewrite Hs. simpl. rewrite (Hx s rest f) by done.
    by destruct x.
Qed.

Lemma parse_elems_run xs x rest f :
  Forall roundtrips (x :: xs) ->
  sum_list_with (fun y => S (jsize y)) (x :: xs) <= f ->
  parse_elems f (String.concat "," (map elem_text (x :: xs)) +:+ "]" +:+ rest)
  = Some (map elem_norm (x :: xs), rest).
Proof.
  revert x f. induction xs as [|y xs IH]; intros x [|f] Hall Hf; simpl in Hf; try lia;
    apply Forall_cons in Hall as [Hx Hall].
  - cbn [map String.concat parse_elems].
    rewrite roundtrips_elem by (done || lia || by apply delim_punct). by vm_compute.
  - cbn [map parse_elems]. rewrite concat_cons2, !string_app_assoc.
    rewrite roundtrips_elem by (done || lia || by apply delim_punct).
    cbn [mbind option_bind]. rewrite strip_prefix_app.
    change (String.concat "," (elem_text y :: map elem_text xs))
      with (String.concat "," (map elem_text (y :: xs))).
    rewrite IH by (done || simpl; lia). done.
Qed.

(** ** Objects *)

Definition field_text (kv : string * jsval) : option string :=
  s ← json_stringify kv.2; Some (json_quote kv.1 +:+ ":" +:+ s).
Definition field_norm (kv : string * jsval) : option (string * jsval) :=
  match kv.2 with JUndef => None | _ => Some (kv.1, json_norm kv.2) end.

Lemma field_text_None kv : field_text kv = None -> field_norm kv = None.
Proof.
  unfold field_text, field_norm. destruct (json_stringify kv.2) eqn:Hs; [done|].
  by apply json_stringify_None in Hs as ->.
Qed.

Lemma omap_fields_nil fs : omap field_text fs = [] -> omap field_norm fs = [].
Proof.
  induction fs as [|kv fs IH]; [done|]. simpl.
  destruct (field_text kv) eqn:Ht; [done|]. by rewrite (field_text_None kv Ht).
Qed.

(** One property: its quoted key, the colon, its value, then what follows. *)
Lemma parse_fields_one k v s u f :
  roundtrips v -> json_stringify v = Some s -> jsize v <= f -> delim u ->
  parse_fields (S f) ((json_quote k +:+ ":" +:+ s) +:+ u)
  = match strip_prefix "," u with
    | Some r4 => '(fs, r5) ← parse_fields f r4; Some ((k, json_norm v) :: fs, r5)
    | None => r4 ← strip_prefix "}" u; Some ([(k, json_norm v)], r4)
    end.
Proof.
  intros Hv Hs Hf Hd. cbn [parse_fields]. unfold json_quote.
  rewrite !string_app_assoc, string_app_cons.
  change (String ascii_dquote ?x) with (dquote_str +:+ x) at 1.
  rewrite strip_prefix_app. cbn [mbind option_bind].
  rewrite string_app_assoc, string_app_cons, string_app_nil_l, parse_str_escape.
  cbn [mbind option_bind].
  rewrite strip_prefix_app. cbn [mbind option_bind].
  by rewrite (Hv s u f).
Qed.

Lemma field_text_Some k v s :
  json_stringify v = Some s -> field_text (k, v) = Some (json_quote k +:+ ":" +:+ s).
Proof. unfold field_text. simpl. by intros ->. Qed.

Lemma field_norm_Some k v s :
  json_stringify v = Some s -> field_norm (k, v) = Some (k, json_norm v).
Proof. unfold field_norm. simpl. intros Hs. destruct v; [done|..]; done. Qed.

Lemma parse_fields_run fs rest f :
  Forall (fun kv => roundtrips kv.2) fs -> omap field_text fs <> [] ->
  sum_list_with (fun kv => S (jsize kv.2)) fs <= f ->
  parse_fields f (String.concat "," (omap field_text fs) +:+ "}" +:+ rest)
  = Some (omap field_norm fs, rest).
Proof.
  revert f. induction fs as [|[k v] fs IH]; intros f Hall Hne Hf; [done|].
  apply Forall_cons in Hall as [Hv Hall]. simpl in Hv, Hf.
  destruct (json_stringify v) as [s|] eqn:Hs.
  - rewrite (list_omap_cons_Some _ _ _ _ (field_text_Some k v s Hs)) in Hne |- *.
    rewrite (list_omap_cons_Some _ _ _ _ (field_norm_Some k v s Hs)).
    destruct f as [|f]; [lia|].
    destruct (omap field_text fs) as [|b l] eqn:Hl.
    + cbn [String.concat].
      rewrite (parse_fields_one k v s) by (done || lia || by apply delim_punct).
      rewrite (omap_fields_nil fs Hl). by vm_compute.
    + rewrite concat_cons2, (string_app_assoc (json_quote k +:+ ":" +:+ s)),
        (string_app_assoc ",").
      rewrite (parse_fields_one k v s) by (done || lia || by apply delim_punct).
      rewrite strip_prefix_app, IH by (done || lia). done.
  - apply json_stringify_None in Hs as ->.
    rewrite !list_omap_cons_None in Hne |- * by done.
    apply IH; [done|done|lia].
Qed.

Lemma elem_texts_head l :
  Forall (fun s => exists c t, s = String c t /\ nat_of_ascii c <> nat_of_ascii "]")
    (map elem_text l).
Proof.
  apply Forall_fmap, Forall_forall. intros y _.
  destruct (elem_head y) as (c & t & Ht & H93 & _). by exists c, t.
Qed.

Lemma field_texts_head fs :
  Forall (fun s => exists c t, s = String c t /\ nat_of_ascii c <> nat_of_ascii "}")
    (omap field_text fs).
Proof.
  apply Forall_forall. intros y (kv & _ & Hy)%list_elem_of_omap.
  unfold field_text, json_quote in Hy. destruct (json_stringify kv.2); simplify_eq/=.
  rewrite string_app_cons. eexists _, _. split; [done|]. vm_compute. lia.
Qed.

(** Parsing the text of any value, followed by anything that does not
    continue a number, gives back the value as JSON sees it and the rest. *)
Theorem json_roundtrip v : roundtrips v.
Proof.
  induction v as [| | | | |xs IH|fs IH] using jsval_ind';
    try (apply roundtrips_scalar; exact I);
    intros s rest [|f] Hs Hd Hf; simpl in Hf; try lia; simpl in Hs; simplify_eq;
    rewrite string_app_assoc, string_app_cons, string_app_nil_l, string_app_assoc;
    cbn [parse_value]; cbv zeta.
  - change (nat_of_ascii "[") with 91. cbn [Nat.eqb].
    change (map (fun x => default "null" (json_stringify x)) xs) with (map elem_text xs).
    destruct xs as [|x xs]; [by vm_compute|].
    rewrite concat_strip by (apply elem_texts_head || done). cbn [mbind option_bind].
    rewrite parse_elems_run by (done || lia). done.
  - change (nat_of_ascii "{") with 123. cbn [Nat.eqb].
    change (omap (fun kv => s ← json_stringify kv.2; Some (json_quote kv.1 +:+ ":" +:+ s)) fs)
      with (omap field_text fs).
    change (json_norm (JObj fs)) with (JObj (omap field_norm fs)).
    destruct (omap field_text fs) as [|b l] eqn:Hl.
    + rewrite (omap_fields_nil fs Hl). by vm_compute.
    + rewrite <-Hl, concat_strip by (apply field_texts_head || by rewrite Hl).
      cbn [mbind option_bind].
      rewrite parse_fields_run by (done || lia || by rewrite Hl). done.
Qed.

(** Two values with the same text are the same JSON value. *)
Lemma json_stringify_inj v w s :
  json_stringify v = Some s -> json_stringify w = Some s -> json_norm v = json_norm w.
Proof.
  intros Hv Hw. set (f := jsize v + jsize w).
  pose proof (json_roundtrip v s "" f Hv I ltac:(lia)) as Hpv.
  pose proof (json_roundtrip w s "" f Hw I ltac:(lia)) as Hpw.
  rewrite Hpv in Hpw. by simplify_eq.
Qed.

(** ** The query key *)

Lemma canonical_combinedQuery_sorted q p :
  canonical (combinedQuery q p) = JObj [("pagination", canonical p); ("where", canonical q)].
Proof. reflexivity. Qed.

Lemma canonical_undef v : canonical v = JUndef <-> v = JUndef.
Proof. by destruct v. Qed.

Lemma field_norm_undef k : field_norm (k, JUndef) = None.
Proof. done. Qed.

Lemma field_norm_def k v : v <> JUndef -> field_norm (k, v) = Some (k, json_norm v).
Proof. unfold field_norm. simpl. by destruct v. Qed.

Lemma default_query_def q : canonical (default_query q) <> JUndef.
Proof. rewrite canonical_undef. by destruct q. Qed.

Lemma field_norm_cons k v l :
  omap field_norm ((k, v) :: l) =
  if decide (v = JUndef) then omap field_norm l else (k, json_norm v) :: omap field_norm l.
Proof.
  case_decide; subst; [done|]. by apply list_omap_cons_Some, field_norm_def.
Qed.

(** [JSON.stringify] only sees a value up to [json_norm]: the [undefined]
    fields it drops and the [undefined] elements it writes as [null]. *)
Lemma elem_norm_match x :
  (match x with JUndef => JNull | _ => json_norm x end) =
  if decide (x = JUndef) then JNull else json_norm x.
Proof. by destruct x. Qed.

Lemma json_stringify_norm v : json_stringify (json_norm v) = json_stringify v.
Proof.
  induction v as [| | | | |xs IH|fs IH] using jsval_ind'; try done.
  - simpl. rewrite map_map. erewrite map_ext_Forall; [reflexivity|].
    eapply Forall_impl; [exact IH|]. intros x Hx. rewrite elem_norm_match.
    case_decide; [by subst|]. by rewrite Hx.
  - change (Some ("{" +:+ String.concat "," (omap field_text (omap field_norm fs)) +:+ "}") =
            Some ("{" +:+ String.concat "," (omap field_text fs) +:+ "}")).
    do 4 f_equal. induction fs as [|[k v] fs IHfs]; [done|].
    inversion IH as [|? ? Hv Hfs]; subst. simpl in Hv.
    destruct (decide (v = JUndef)) as [->|Hne]; [by apply IHfs|].
    rewrite (list_omap_cons_Some _ _ _ _ (field_norm_def k v Hne)).
    destruct (json_stringify v) as [t|] eqn:Hs; [|by apply json_stringify_None in Hs].
    rewrite (list_omap_cons_Some field_text (k, json_norm v) _ (json_quote k +:+ ":" +:+ t));
      [|unfold field_text; simpl; by rewrite Hv].
    rewrite (list_omap_cons_Some field_text (k, v) _ (json_quote k +:+ ":" +:+ t));
      [|unfold field_text; simpl; by rewrite Hs].
    by rewrite (IHfs Hfs).
Qed.

Lemma json_norm_undef v : json_norm v = JUndef <-> v = JUndef.
Proof. by destruct v. Qed.

Lemma query_key_norm q p :
  query_key (combinedQuery q p) =
  json_stringify (JObj (omap field_norm [("pagination", canonical p); ("where", canonical q)])).
Proof. unfold query_key. rewrite canonical_combinedQuery_sorted, <-json_stringify_norm. reflexivity. Qed.

Lemma query_key_inj q1 p1 q2 p2 :
  query_key (combinedQuery (default_query q1) p1) =
  query_key (combinedQuery (default_query q2) p2) ->
  json_norm (canonical (default_query q1)) = json_norm (canonical (default_query q2)) /\
  json_norm (canonical p1) = json_norm (canonical p2).
Proof.
  unfold query_key. rewrite !canonical_combinedQuery_sorted.
  destruct (json_stringify (JObj [("pagination", canonical p1); ("where", canonical (default_query q1))]))
    as [s|] eqn:H1; [|done].
  intros H2. pose proof (json_stringify_inj _ _ s H1 (eq_sym H2)) as Hn.
  change (JObj (omap field_norm [("pagination", canonical p1); ("where", canonical (default_query q1))])
          = JObj (omap field_norm [("pagination", canonical p2); ("where", canonical (default_query q2))]))
    in Hn.
  rewrite !field_norm_cons, !(decide_False _ _ (default_query_def _)) in Hn.
  repeat case_decide; simplify_eq/=; try done.
  by rewrite H, H0.
Qed.

(** C17: Spec sections 3 and 8: the key find.js's results are cached under
    identifies the query exactly: two finds share a key if and only if
    their filters, and their paginations, are the same JSON values once
    the keys of every object are sorted; so filters that differ only in
    the order their keys were inserted share a result, and no two
    different queries do. *)
Theorem query_key_iff q1 p1 q2 p2 :
  query_key (combinedQuery (default_query q1) p1) =
  query_key (combinedQuery (default_query q2) p2) <->
  json_norm (canonical (default_query q1)) = json_norm (canonical (default_query q2)) /\
  json_norm (canonical p1) = json_norm (canonical p2).
Proof.
  split; [apply query_key_inj|]. intros [Hq Hp].
  rewrite !query_key_norm, !field_norm_cons, !(decide_False _ _ (default_query_def _)), Hq.
  destruct (decide (canonical p1 = JUndef)) as [H1|H1], (decide (canonical p2 = JUndef)) as [H2|H2].
  - done.
  - exfalso. apply H2, json_norm_undef. by rewrite <-Hp, H1.
  - exfalso. apply H1, json_norm_undef. by rewrite Hp, H2.
  - by rewrite Hp.
Qed.


