(* ===== verification/Integration.v ===== *)
(** * The todo store: find.js's actions through the reducers

    The Redux store of redux.spec.js for its [todo] model: the reducers of
    [RecordStore] read the actions the find blueprint dispatches (their
    [type], [payload.state], [payload.data], [payload.error] and [query]);
    a record is filed under [String(payload.id)], so numeric and string ids
    share one key, and a query result under [query_key(action.query)].
    [app_wf] (coherent cache, client ids drawn from Backbone's counter) is
    the application's invariant; each step of a find (the thunk, the
    settlement) keeps it, and so does every local reducer operation.
    [redux_dispatch] is the store without subscribers the scenarios of
    [ReduxSpec] dispatch into. *)

From S2P Require Import Prelude JsValue RecordStore FindBlueprint.
#[local] Set Warnings "-clear-no-such-hyp".

(** ** The find reducer *)

(** A JavaScript property key: [obj[v]] files under [String(v)]. *)
Definition prop_key (v : jsval) : option string :=
  match v with
  | JStr s => Some s
  | JNum n => Some (pretty n)
  | _ => None
  end.

(** A record payload of a find result, as the reducers file it. *)
Definition found_of_payload (pl : jsval) : option found :=
  match get_prop pl "cid", prop_key (get_prop pl "id"), get_prop pl "data" with
  | JStr k, Some i, JObj d => Some (mkFound k i d)
  | _, _, _ => None
  end.

Definition founds_of (data : jsval) : list found :=
  match data with
  | JArr xs => omap found_of_payload xs
  | _ => []
  end.

(** The action type and payload states the find reducer answers to. *)
Record find_reducer := mkFindReducer {
  fr_type : string;
  fr_pending : string;
  fr_resolved : string;
  fr_error : string
}.

Definition reduce (fr : find_reducer) (a : jsval) (c : cache) : cache :=
  match get_prop a "type", query_key (get_prop a "query") with
  | JStr ty, Some key =>
      if String.eqb ty (fr_type fr) then
        let pl := get_prop a "payload" in
        match get_prop pl "state" with
        | JStr st =>
            if String.eqb st (fr_pending fr) then applyFindPending key c
            else if String.eqb st (fr_resolved fr) then
              applyFindSuccess key (founds_of (get_prop pl "data")) c
            else if String.eqb st (fr_error fr) then
              applyFindError key (get_prop pl "error") c
            else c
        | _ => c
        end
      else c
  | _, _ => c
  end.

(** The todo model's find actions. *)
Definition todo_reducer : find_reducer :=
  mkFindReducer "FETCH_TODOS" "FETCHING" "RESOLVED" "ERROR_FETCHING".

(** Redux's [dispatch] on a store with these reducers and no subscriber. *)
Definition redux_dispatch (fr : find_reducer) (a : jsval) (c : cache) : outcome jsval unit * cache :=
  (Ret tt, reduce fr a c).

(** ** The find actions through the reducer *)

(** The key of the cached result of [find(query, pagination)]. *)
Definition find_key (q p : jsval) : string :=
  default "" (query_key (combinedQuery (default_query q) p)).

Lemma query_key_combinedQuery q p :
  query_key (combinedQuery (default_query q) p) = Some (find_key q p).
Proof. unfold find_key, query_key. by rewrite canonical_combinedQuery. Qed.

(** The record a fetched model becomes. *)
Definition model_found (m : model) : option found :=
  match prop_key (get_prop (m_attrs m) "id"), m_attrs m with
  | Some i, JObj d => Some (mkFound (m_cid m) i d)
  | _, _ => None
  end.

Lemma founds_of_models models st :
  founds_of (JArr (map (fun m => payload m st JNull) models)) = omap model_found models.
Proof.
  induction models as [|m ms IH]; [done|]. unfold founds_of in *. rewrite map_cons.
  change (omap found_of_payload (payload m st JNull :: map (fun m => payload m st JNull) ms))
    with (match found_of_payload (payload m st JNull) with
          | Some y => y :: omap found_of_payload (map (fun m => payload m st JNull) ms)
          | None => omap found_of_payload (map (fun m => payload m st JNull) ms) end).
  change (omap model_found (m :: ms))
    with (match model_found m with
          | Some y => y :: omap model_found ms | None => omap model_found ms end).
  rewrite IH. unfold found_of_payload, model_found. simpl.
  by destruct (prop_key _), (m_attrs m).
Qed.

(** What the reducer does with an action of find.js: nothing, or one of
    the three find operations on the action's key, the success one with
    the records of the models in the payload. *)
Lemma reduce_find_action fr ty models st err q p c :
  let a := mkAction ty (payloadCollection models st err (combinedQuery (default_query q) p))
                     (combinedQuery (default_query q) p) in
  reduce fr a c = c \/
  reduce fr a c = applyFindPending (find_key q p) c \/
  reduce fr a c = applyFindSuccess (find_key q p) (omap model_found models) c \/
  exists e, reduce fr a c = applyFindError (find_key q p) e c.
Proof.
  intros a. unfold reduce. subst a.
  destruct (mkAction_props ty (payloadCollection models st err (combinedQuery (default_query q) p))
              (combinedQuery (default_query q) p)) as (-> & -> & ->).
  destruct (payloadCollection_props models st err (combinedQuery (default_query q) p))
    as (-> & -> & _).
  rewrite query_key_combinedQuery.
  destruct (String.eqb ty (fr_type fr)); [|by left].
  destruct (String.eqb st (fr_pending fr)); [by right; left|].
  destruct (String.eqb st (fr_resolved fr)).
  - right; right; left. by rewrite founds_of_models.
  - destruct (String.eqb st (fr_error fr)); [|by left]. right; right; right. eauto.
Qed.

(** ** Client ids come from Backbone's counter *)

(** Every client id of the cache is [cid_of n] for some [n <= b]. *)
Definition cids_bounded (c : cache) (b : N) : Prop :=
  forall k, is_Some (byCid c !! k) -> exists n, k = cid_of n /\ (n <= b)%N.

(** The invariant of the application: a coherent cache whose client ids
    the counter has already handed out. *)
Definition app_wf (w : world cache) : Prop :=
  cache_wf (w_store w) /\ cids_bounded (w_store w) (w_uid w).

Lemma cids_bounded_mono c b b' : cids_bounded c b -> (b <= b')%N -> cids_bounded c b'.
Proof. intros Hb Hle k Hk. destruct (Hb k Hk) as (n & -> & Hn). exists n. split; [done|lia]. Qed.

Lemma model_found_cid m x : model_found m = Some x -> f_cid x = m_cid m.
Proof. unfold model_found. destruct (prop_key _), (m_attrs m); naive_solver. Qed.

Lemma omap_model_found_cid (ms : list model) x :
  x ∈ omap model_found ms -> exists m, m ∈ ms /\ f_cid x = m_cid m.
Proof.
  intros (m & Hm & Hx)%list_elem_of_omap. exists m. split; [done|]. by apply model_found_cid.
Qed.

Lemma omap_model_found_NoDup (ms : list model) :
  NoDup (m_cid <$> ms) -> NoDup (f_cid <$> omap model_found ms).
Proof.
  induction ms as [|m ms IH]; [constructor|]. rewrite fmap_cons, NoDup_cons.
  intros [Hm Hnd]. destruct (model_found m) as [x|] eqn:Hx; simpl; rewrite Hx; [|by apply IH].
  simpl. constructor; [|by apply IH].
  intros (y & Hy & Hin)%list_elem_of_fmap. apply Hm.
  destruct (omap_model_found_cid _ _ Hin) as (m' & Hm' & Hc).
  rewrite (model_found_cid _ _ Hx) in Hy. rewrite Hy, Hc. by apply list_elem_of_fmap_2.
Qed.

(** The models of a fetch, numbered above the counter bound of the cache,
    give a find result with fresh client ids. *)
Lemma models_found_fresh c b (ms : list model) :
  cids_bounded c b -> NoDup (m_cid <$> ms) ->
  (forall m, m ∈ ms -> exists j, m_cid m = cid_of j /\ (b < j)%N) ->
  found_fresh c (omap model_found ms).
Proof.
  intros Hb Hnd Hms. split; [by apply omap_model_found_NoDup|].
  intros x Hx. destruct (omap_model_found_cid _ _ Hx) as (m & Hm & Hc).
  destruct (Hms m Hm) as (j & Hj & Hlt).
  destruct (byCid c !! f_cid x) eqn:Hk; [|done].
  destruct (Hb (f_cid x)) as (n & Hn & Hle); [by rewrite Hk|].
  rewrite Hc, Hj in Hn. apply (inj cid_of) in Hn. lia.
Qed.

(** A reducer operation that files no new client id keeps the bound. *)
Lemma apply_op_bounded o c b b' :
  cache_wf c -> op_ok c o -> cids_bounded c b -> (b <= b')%N ->
  (forall k, k ∈ op_new_cids o -> exists n, k = cid_of n /\ (n <= b')%N) ->
  cids_bounded (apply_op o c) b'.
Proof.
  intros Hwf Hok Hb Hle Hnew k Hk.
  destruct (apply_op_dom o c k Hwf Hok Hk) as [Hk'|Hk']; [|by apply Hnew].
  by apply (cids_bounded_mono c b).
Qed.

(** The reducer keeps the invariant on every action find.js dispatches,
    provided the models it carries were numbered above the cache's bound. *)
Lemma reduce_find_action_wf fr ty models st err q p c b b' :
  cache_wf c -> cids_bounded c b -> (b <= b')%N -> NoDup (m_cid <$> models) ->
  (forall m, m ∈ models -> exists j, m_cid m = cid_of j /\ (b < j)%N /\ (j <= b')%N) ->
  let c' := reduce fr (mkAction ty (payloadCollection models st err (combinedQuery (default_query q) p))
                         (combinedQuery (default_query q) p)) c in
  cache_wf c' /\ cids_bounded c' b'.
Proof.
  intros Hwf Hb Hle Hnd Hms c'.
  assert (forall o, op_ok c o -> (forall k, k ∈ op_new_cids o -> exists n, k = cid_of n /\ (n <= b')%N) ->
            c' = apply_op o c -> cache_wf c' /\ cids_bounded c' b') as Hop.
  { intros o Hok Hnew ->. split; [by apply apply_op_wf|]. by eapply apply_op_bounded. }
  assert (forall k, k ∈ @nil string -> exists n, k = cid_of n /\ (n <= b')%N) as Hnil.
  { intros k Hk. by apply elem_of_nil in Hk. }
  destruct (reduce_find_action fr ty models st err q p c) as [H|[H|[H|[e H]]]]; fold c' in H.
  - subst c'. rewrite H. split; [done|]. by apply (cids_bounded_mono c b).
  - by apply (Hop (FindPending (find_key q p))).
  - apply (Hop (FindSuccess (find_key q p) (omap model_found models))); [|simpl|done].
    + apply (models_found_fresh c b); [done|done|]. intros m Hm.
      destruct (Hms m Hm) as (j & ? & ? & _). eauto.
    + intros k (x & -> & Hx)%list_elem_of_fmap.
      destruct (omap_model_found_cid _ _ Hx) as (m & Hm & ->).
      destruct (Hms m Hm) as (j & -> & _ & ?). eauto.
  - by apply (Hop (FindError (find_key q p) e)).
Qed.

(** ** The application's event loop *)

Section App.
Variable fr : find_reducer.

Lemma redux_dispatch_run a (w : world cache) :
  dispatch (redux_dispatch fr) a w =
  (Ret a, mkWorld (reduce fr a (w_store w)) (w_log w ++ [EvDispatch a]) (w_uid w)).
Proof. by apply dispatch_run. Qed.

(** The synchronous half of a find leaves the counter and either leaves
    the cache or reduces the optimistic action. *)
Lemma fetchAll_world fc q p (w : world cache) :
  let w' := snd (fetchAll (redux_dispatch fr) fc q p w) in
  w_uid w' = w_uid w /\
  (w_store w' = w_store w \/
   exists h, w_store w' =
     reduce fr (optimisticAction h (combinedQuery (default_query q) p)) (w_store w)).
Proof.
  unfold fetchAll. destruct (optimistic (fc_options fc)) as [h|];
    unfold log_event at 1; simpl_eff; [|auto].
  split; [done|]. right. by exists h.
Qed.

(** The settlement moves the counter past the fetched models and either
    leaves the cache or reduces the success or the error action. *)
Lemma settle_world fc q p r (w : world cache) :
  normalize (fc_options fc) = None ->
  let cq := combinedQuery (default_query q) p in
  let w' := snd (settle (redux_dispatch fr) fc q p r w) in
  match r with
  | FetchOk records =>
      w_uid w' = (w_uid w + N.of_nat (length records))%N /\
      (w_store w' = w_store w \/
       exists h, w_store w' =
         reduce fr (successAction h (number_models (w_uid w) records) cq) (w_store w))
  | FetchFail response =>
      w_uid w' = w_uid w /\
      (w_store w' = w_store w \/
       exists h, w_store w' = reduce fr (errorAction h [] (get_prop response "data") cq) (w_store w))
  end.
Proof.
  intros Hn cq w'. subst w'. unfold settle. fold cq.
  destruct r as [records|response].
  - simpl_eff. rewrite set_models_run. simpl. unfold onFetchSuccess.
    destruct (onSuccess (fc_options fc)) as [h|]; simpl_eff; [|auto].
    rewrite Hn. simpl_eff. split; [done|]. right. by exists h.
  - unfold onFetchError. destruct (onError (fc_options fc)) as [h|]; simpl_eff; [|auto].
    destruct (beforeDispatch h); unfold log_event; simpl_eff;
      (split; [done|]); right; by exists h.
Qed.

End App.

(** The reducer operations that file no new client id. *)
Definition local_op (o : store_op) : Prop :=
  match o with
  | OptimisticCreate _ _ | FindSuccess _ _ => False
  | _ => True
  end.

Lemma local_op_props o c : local_op o -> op_ok c o /\ op_new_cids o = [].
Proof. by destruct o. Qed.

Lemma no_new_cids k b : k ∈ @nil string -> exists n, k = cid_of n /\ (n <= b)%N.
Proof. by intros ?%elem_of_nil. Qed.

#[export] Hint Resolve no_new_cids : lore.

(** ** Each step of the application keeps the invariant *)

Lemma app_init_wf : app_wf (mkWorld empty_cache [] 0%N).
Proof.
  split; [apply empty_cache_wf|]. intros k Hk. simpl in Hk. by apply is_Some_None in Hk.
Qed.

Lemma fetchAll_app_wf fr fc q p w :
  app_wf w -> app_wf (snd (fetchAll (redux_dispatch fr) fc q p w)).
Proof.
  intros [Hwf Hb].
  destruct (fetchAll_world fr fc q p w) as [Hu [Hs|[h Hs]]]; unfold app_wf; rewrite Hu, Hs;
    [done|]. unfold optimisticAction.
  apply (reduce_find_action_wf _ _ _ _ _ _ _ _ (w_uid w)); try done.
  - constructor.
  - by intros m ?%elem_of_nil.
Qed.

Lemma settle_app_wf fr fc q p r w :
  normalize (fc_options fc) = None -> app_wf w ->
  app_wf (snd (settle (redux_dispatch fr) fc q p r w)).
Proof.
  intros Hn [Hwf Hb]. pose proof (settle_world fr fc q p r w Hn) as Hset.
  destruct r as [records|response].
  - destruct Hset as [Hu [Hs|[h Hs]]]; unfold app_wf; rewrite Hu, Hs.
    { split; [done|]. apply (cids_bounded_mono _ (w_uid w)); [done|lia]. }
    unfold successAction.
    apply (reduce_find_action_wf _ _ _ _ _ _ _ _ (w_uid w)); [done|done|lia| |].
    + apply number_models_NoDup.
    + intros m Hm. destruct (number_models_cids _ _ _ Hm) as (j & ? & ? & ?). eauto.
  - destruct Hset as [Hu [Hs|[h Hs]]]; unfold app_wf; rewrite Hu, Hs; [done|].
    unfold errorAction.
    apply (reduce_find_action_wf _ _ _ _ _ _ _ _ (w_uid w)); try done.
    + constructor.
    + by intros m ?%elem_of_nil.
Qed.

(** A step whose cache change is a local reducer operation. *)
Lemma local_op_app_wf o w w' :
  local_op o -> w_store w' = apply_op o (w_store w) -> w_uid w' = w_uid w ->
  app_wf w -> app_wf w'.
Proof.
  intros Hloc Hs Hu [Hwf Hb]. destruct (local_op_props o (w_store w) Hloc) as [Hok Hnew].
  unfold app_wf. rewrite Hs, Hu. split; [by apply apply_op_wf|].
  apply (apply_op_bounded o _ (w_uid w)); [done|done|done|lia|]. rewrite Hnew. auto with lore.
Qed.

Definition init_world : world cache := mkWorld empty_cache [] 0%N.

(** ** A find result lands in the cache *)

(** The server id a record of the response is filed under. *)
Definition record_key (x : jsval) : option string := prop_key (get_prop x "id").

Lemma omap_model_found_number n records :
  (forall x, x ∈ records -> exists d i, x = JObj d /\ record_key x = Some i) ->
  f_id <$> omap model_found (number_models n records) = omap record_key records.
Proof.
  revert n. induction records as [|x xs IH]; intros n Hrec; [done|].
  destruct (Hrec x) as (d & i & -> & Hi); [by left|].
  unfold record_key in Hi. simpl in Hi.
  cbn [number_models].
  rewrite (list_omap_cons_Some model_found _ _ (mkFound (cid_of (N.succ n)) i d))
    by (unfold model_found; simpl; by rewrite Hi).
  rewrite (list_omap_cons_Some record_key _ _ i) by done.
  rewrite fmap_cons, IH; [done|]. intros y Hy. apply Hrec. by right.
Qed.

Lemma settle_ok_store fr fc q p records (w : world cache) h :
  onSuccess (fc_options fc) = Some h -> normalize (fc_options fc) = None ->
  w_store (snd (settle (redux_dispatch fr) fc q p (FetchOk records) w)) =
  reduce fr (successAction h (number_models (w_uid w) records) (combinedQuery (default_query q) p))
    (w_store w).
Proof.
  intros Hh Hn. unfold settle. simpl_eff. rewrite set_models_run. simpl.
  unfold onFetchSuccess. rewrite Hh, Hn. by simpl_eff.
Qed.

Lemma reduce_success fr h models q p c :
  actionType h = fr_type fr -> payloadState h = fr_resolved fr -> payloadState h <> fr_pending fr ->
  reduce fr (successAction h models (combinedQuery (default_query q) p)) c =
  applyFindSuccess (find_key q p) (omap model_found models) c.
Proof.
  intros Hty Hres Hpend. unfold reduce, successAction.
  destruct (mkAction_props (actionType h)
              (payloadCollection models (payloadState h) JNull (combinedQuery (default_query q) p))
              (combinedQuery (default_query q) p)) as (-> & -> & ->).
  destruct (payloadCollection_props models (payloadState h) JNull (combinedQuery (default_query q) p))
    as (-> & -> & _).
  rewrite query_key_combinedQuery, Hty, String.eqb_refl.
  destruct (String.eqb_spec (payloadState h) (fr_pending fr)); [done|].
  rewrite Hres, String.eqb_refl. by rewrite founds_of_models.
Qed.

(** C5: Spec sections 4.1 and 8, find: when the fetch of a find thunk
    succeeds, the store's reducers cache the answer under the key of the
    thunk's combined query as a resolved query listing the server ids in
    the server's order, and file every record of the answer under its
    server id (a numeric id under its decimal string) and under its client
    id, resolved, with the server's data.  It holds in every coherent state
    of the application, for every answer whose records are objects with
    distinct ids. *)
Theorem find_result_cached fr fc q p records (w : world cache) h :
  app_wf w -> onSuccess (fc_options fc) = Some h -> normalize (fc_options fc) = None ->
  actionType h = fr_type fr -> payloadState h = fr_resolved fr -> payloadState h <> fr_pending fr ->
  (forall x, x ∈ records -> exists d i, x = JObj d /\ record_key x = Some i) ->
  NoDup (omap record_key records) ->
  let c' := w_store (snd (settle (redux_dispatch fr) fc q p (FetchOk records) w)) in
  find c' !! find_key q p = Some (mkQuery (omap record_key records) QRESOLVED JNull) /\
  forall d i, JObj d ∈ records -> record_key (JObj d) = Some i ->
    exists r, byId c' !! i = Some r /\ byCid c' !! cid r = Some r /\
              data r = d /\ rstate r = RESOLVED.
Proof.
  intros [Hwf Hb] Hh Hn Hty Hres Hpend Hrec Hnd c'.
  set (models := number_models (w_uid w) records).
  assert (c' = applyFindSuccess (find_key q p) (omap model_found models) (w_store w)) as Hc'.
  { subst c'. rewrite (settle_ok_store fr fc q p records w h Hh Hn). by apply reduce_success. }
  assert (found_fresh (w_store w) (omap model_found models)) as Hfr.
  { apply (models_found_fresh _ (w_uid w)); [done|apply number_models_NoDup|].
    intros m Hm. destruct (number_models_cids _ _ _ Hm) as (j & ? & ? & _). eauto. }
  pose proof (omap_model_found_number (w_uid w) records Hrec) as Hids. fold models in Hids.
  destruct (find_success_upserts (find_key q p) (omap model_found models) (w_store w))
    as [Hq Hx]; [done|done|by rewrite Hids|].
  rewrite Hc'. split; [by rewrite Hq, Hids|].
  intros d i Hd Hi.
  assert (JObj d ∈ m_attrs <$> models) as (m & Hm & Hmin)%list_elem_of_fmap.
  { subst models. by rewrite number_models_attrs. }
  assert (mkFound (m_cid m) i d ∈ omap model_found models) as Hf.
  { apply list_elem_of_omap. exists m. split; [done|].
    unfold model_found. rewrite <-Hm. unfold record_key in Hi. by rewrite Hi. }
  destruct (Hx _ Hf) as (r & ? & ? & ? & ?). by exists r.
Qed.

Lemma find_result_cached_witness :
  let w := snd (fetchAll (redux_dispatch todo_reducer) todo_find_config JUndef JUndef init_world) in
  let h := mkHook "FETCH_TODOS" "RESOLVED" in
  let records := [JObj [("id", JStr "1"); ("title", JStr "foo")]] in
  app_wf w /\ onSuccess (fc_options todo_find_config) = Some h /\
  normalize (fc_options todo_find_config) = None /\
  actionType h = fr_type todo_reducer /\ payloadState h = fr_resolved todo_reducer /\
  payloadState h <> fr_pending todo_reducer /\
  (forall x, x ∈ records -> exists d i, x = JObj d /\ record_key x = Some i) /\
  NoDup (omap record_key records) /\
  let c' := w_store (snd (settle (redux_dispatch todo_reducer) todo_find_config JUndef JUndef
                            (FetchOk records) w)) in
  find c' !! find_key JUndef JUndef = Some (mkQuery (omap record_key records) QRESOLVED JNull) /\
  forall d i, JObj d ∈ records -> record_key (JObj d) = Some i ->
    exists r, byId c' !! i = Some r /\ byCid c' !! cid r = Some r /\
              data r = d /\ rstate r = RESOLVED.
Proof.
  intros w h records.
  assert (app_wf w) as Hwf.
  { apply fetchAll_app_wf, app_init_wf. }
  assert (forall x, x ∈ records -> exists d i, x = JObj d /\ record_key x = Some i) as Hrec.
  { intros x ->%list_elem_of_singleton. eexists _, _. split; reflexivity. }
  assert (NoDup (omap record_key records)) as Hnd by (simpl; repeat constructor; set_solver).
  split; [exact Hwf|]. do 4 (split; [reflexivity|]). split; [discriminate|].
  split; [exact Hrec|]. split; [exact Hnd|].
  apply (find_result_cached todo_reducer todo_find_config JUndef JUndef records w h Hwf);
    [reflexivity..|discriminate|exact Hrec|exact Hnd].
Defined.

(** ** The optimistic and the error halves of a find *)

(** The reducer reads the payload state of an action find.js built. *)
Lemma reduce_find_state fr ty st models err q p c :
  ty = fr_type fr ->
  let a := mkAction ty (payloadCollection models st err (combinedQuery (default_query q) p))
                    (combinedQuery (default_query q) p) in
  reduce fr a c =
  if String.eqb st (fr_pending fr) then applyFindPending (find_key q p) c
  else if String.eqb st (fr_resolved fr) then
    applyFindSuccess (find_key q p) (omap model_found models) c
  else if String.eqb st (fr_error fr) then
    applyFindError (find_key q p) (if truthy err then err else JObj []) c
  else c.
Proof.
  intros Hty a. unfold reduce, a.
  destruct (mkAction_props ty (payloadCollection models st err (combinedQuery (default_query q) p))
              (combinedQuery (default_query q) p)) as (-> & -> & ->).
  destruct (payloadCollection_props models st err (combinedQuery (default_query q) p))
    as (-> & -> & ->).
  rewrite query_key_combinedQuery, Hty, String.eqb_refl. by rewrite founds_of_models.
Qed.

Lemma fetchAll_store fr fc q p (w : world cache) h :
  optimistic (fc_options fc) = Some h ->
  w_store (snd (fetchAll (redux_dispatch fr) fc q p w)) =
  reduce fr (optimisticAction h (combinedQuery (default_query q) p)) (w_store w).
Proof. intros Hh. unfold fetchAll. rewrite Hh. unfold log_event. by simpl_eff. Qed.

Lemma settle_fail_store fr fc q p response (w : world cache) h :
  onError (fc_options fc) = Some h ->
  w_store (snd (settle (redux_dispatch fr) fc q p (FetchFail response) w)) =
  reduce fr (errorAction h [] (get_prop response "data") (combinedQuery (default_query q) p))
    (w_store w).
Proof.
  intros Hh. unfold settle, onFetchError. rewrite Hh.
  destruct (beforeDispatch h); unfold log_event; by simpl_eff.
Qed.

(** C7: Spec section 4.2, find, the synchronous half: when the optimistic
    hook names the pending state of the reducer, the thunk leaves the
    records alone and files an empty pending query result under the query
    key, before any answer from the server. *)
Theorem find_optimistic_pending fr fc q p (w : world cache) h :
  optimistic (fc_options fc) = Some h -> actionType h = fr_type fr ->
  payloadState h = fr_pending fr ->
  let c' := w_store (snd (fetchAll (redux_dispatch fr) fc q p w)) in
  find c' !! find_key q p = Some (mkQuery [] QPENDING JNull) /\
  byId c' = byId (w_store w) /\ byCid c' = byCid (w_store w).
Proof.
  intros Hh Hty Hst c'. subst c'. rewrite (fetchAll_store fr fc q p w h Hh).
  unfold optimisticAction. rewrite reduce_find_state by done.
  rewrite Hst, String.eqb_refl. simpl. by rewrite lookup_insert_eq.
Qed.

(** C8: Spec section 4.1, stale-while-error: when the fetch of a find
    fails and the error hook names the reducer's error state, the query
    result turns to ERROR with [response.data] (or [{}] when there is
    none) and keeps the ids it listed before; no record changes. *)
Theorem find_error_keeps_stale fr fc q p response (w : world cache) h :
  onError (fc_options fc) = Some h -> e_actionType h = fr_type fr ->
  e_payloadState h = fr_error fr -> fr_error fr <> fr_pending fr ->
  fr_error fr <> fr_resolved fr ->
  let err := get_prop response "data" in
  let c' := w_store (snd (settle (redux_dispatch fr) fc q p (FetchFail response) w)) in
  find c' !! find_key q p =
    Some (mkQuery (from_option record_ids [] (find (w_store w) !! find_key q p)) QERROR
                  (if truthy err then err else JObj [])) /\
  byId c' = byId (w_store w) /\ byCid c' = byCid (w_store w).
Proof.
  intros Hh Hty Hst Hp Hr err c'. subst c'. rewrite (settle_fail_store fr fc q p response w h Hh).
  unfold errorAction. rewrite reduce_find_state by done. rewrite Hst.
  destruct (String.eqb_spec (fr_error fr) (fr_pending fr)); [done|].
  destruct (String.eqb_spec (fr_error fr) (fr_resolved fr)); [done|].
  rewrite String.eqb_refl. simpl. rewrite lookup_insert_eq.
  by destruct (find (w_store w) !! find_key q p).
Qed.

(** The todo store after one find answered with the todo ['1']. *)
Definition found_one : world cache :=
  let w1 := snd (fetchAll (redux_dispatch todo_reducer) todo_find_config JUndef JUndef init_world) in
  snd (settle (redux_dispatch todo_reducer) todo_find_config JUndef JUndef
              (FetchOk [JObj [("id", JStr "1"); ("title", JStr "foo")]]) w1).

Definition offline : jsval := JObj [("data", JObj [("message", JStr "offline")])].

(** C32: A finding on spec section 4.1.  A find whose optimistic hook names
    the pending state overwrites the query result with an empty pending one
    before its fetch settles, so when that fetch fails the "stale" ids the
    error keeps are the empty list: a refetch that fails loses the records
    the previous find listed, and stale-while-error only shows for a
    failure that settles after the optimistic step of no other find. *)
Theorem refetch_error_loses_stale_ids fr fc q p response (w : world cache) hopt herr :
  optimistic (fc_options fc) = Some hopt -> actionType hopt = fr_type fr ->
  payloadState hopt = fr_pending fr ->
  onError (fc_options fc) = Some herr -> e_actionType herr = fr_type fr ->
  e_payloadState herr = fr_error fr -> fr_error fr <> fr_pending fr ->
  fr_error fr <> fr_resolved fr ->
  let w1 := snd (fetchAll (redux_dispatch fr) fc q p w) in
  let c' := w_store (snd (settle (redux_dispatch fr) fc q p (FetchFail response) w1)) in
  exists e, find c' !! find_key q p = Some (mkQuery [] QERROR e).
Proof.
  intros Hopt Hty Hst Herr Hety Hest Hp Hr w1 c'. subst c'.
  rewrite (settle_fail_store fr fc q p response w1 herr Herr).
  unfold errorAction. rewrite reduce_find_state by done. rewrite Hest.
  destruct (String.eqb_spec (fr_error fr) (fr_pending fr)); [done|].
  destruct (String.eqb_spec (fr_error fr) (fr_resolved fr)); [done|].
  rewrite String.eqb_refl. simpl. rewrite lookup_insert_eq.
  subst w1. rewrite (fetchAll_store fr fc q p w hopt Hopt).
  unfold optimisticAction. rewrite reduce_find_state by done.
  rewrite Hst, String.eqb_refl. simpl. rewrite lookup_insert_eq. by eexists.
Qed.

Lemma find_optimistic_pending_witness :
  let c' := w_store (snd (fetchAll (redux_dispatch todo_reducer) todo_find_config JUndef JUndef
                            init_world)) in
  find c' !! find_key JUndef JUndef = Some (mkQuery [] QPENDING JNull) /\
  byId c' = byId empty_cache /\ byCid c' = byCid empty_cache.
Proof.
  exact (find_optimistic_pending todo_reducer todo_find_config JUndef JUndef init_world
           (mkHook "FETCH_TODOS" "FETCHING") eq_refl eq_refl eq_refl).
Defined.

Lemma find_error_keeps_stale_witness :
  let c' := w_store (snd (settle (redux_dispatch todo_reducer) todo_find_config JUndef JUndef
                            (FetchFail offline) found_one)) in
  find c' !! find_key JUndef JUndef =
    Some (mkQuery ["1"] QERROR (JObj [("message", JStr "offline")])) /\
  byId c' = byId (w_store found_one) /\ byCid c' = byCid (w_store found_one).
Proof.
  pose proof (find_error_keeps_stale todo_reducer todo_find_config JUndef JUndef offline found_one
                (mkErrorHook "FETCH_TODOS" "ERROR_FETCHING" true) eq_refl eq_refl eq_refl
                ltac:(discriminate) ltac:(discriminate)) as H.
  vm_compute in H. vm_compute. exact H.
Defined.

Lemma refetch_error_loses_stale_ids_witness :
  let w1 := snd (fetchAll (redux_dispatch todo_reducer) todo_find_config JUndef JUndef found_one) in
  let c' := w_store (snd (settle (redux_dispatch todo_reducer) todo_find_config JUndef JUndef
                            (FetchFail offline) w1)) in
  find (w_store found_one) !! find_key JUndef JUndef = Some (mkQuery ["1"] QRESOLVED JNull) /\
  exists e, find c' !! find_key JUndef JUndef = Some (mkQuery [] QERROR e).
Proof.
  split; [vm_compute; reflexivity|].
  exact (refetch_error_loses_stale_ids todo_reducer todo_find_config JUndef JUndef offline found_one
           (mkHook "FETCH_TODOS" "FETCHING") (mkErrorHook "FETCH_TODOS" "ERROR_FETCHING" true)
           eq_refl eq_refl eq_refl eq_refl eq_refl eq_refl ltac:(discriminate) ltac:(discriminate)).
Defined.
