(* ===== verification/Crud.v ===== *)
(** * The create, update, destroy and get verbs of the action dispatcher

    The blueprints of these verbs (lore-actions' create.js, update.js,
    destroy.js and get.js) are not under src/; they are modelled from the
    contract of spec section 4.2 and exercised by the scenarios of
    redux.spec.js.  Each verb has a synchronous half, which runs its guards
    (a record without a server id cannot be updated or destroyed: the
    [PrecariousUpdateError] of spec section 7), applies the optimistic
    transition of [RecordStore] and issues one request, and a settlement,
    which applies the reconciling transition for the server's answer.

    The verbs run in the [world] of [FindBlueprint]: the todo cache, the log
    of observable events (here the HTTP requests) and Backbone's client-id
    counter, which created and fetched models share.  The file also holds
    the fixtures of redux.spec.js the scenarios of [ReduxSpec] start from
    (the populated todo, the three counts the tests read). *)

From S2P Require Import Prelude JsValue RecordStore FindBlueprint Integration.
#[local] Set Warnings "-clear-no-such-hyp".

(** ** Requests, answers and the state *)

(** The settlement of a request: the response body, or the rejection. *)
Inductive answer :=
| AnsOk (body : jsval)
| AnsFail (error : jsval).

Abbreviation CM := (eff jsval (world cache)).

(** [new PrecariousUpdateError(...)]. *)
Definition precarious_error (verb : string) : jsval :=
  JObj [("name", JStr "PrecariousUpdateError");
        ("message", JStr ("Cannot " +:+ verb +:+ " a record without a server id"))].

(** The attributes of a response body. *)
Definition body_fields (body : jsval) : fields :=
  match body with JObj fs => fs | _ => [] end.

Definition set_cache (f : cache -> cache) : CM unit :=
  emodify (fun w => mkWorld (f (w_store w)) (w_log w) (w_uid w)).

(** One HTTP request: method, server id of the target, body. *)
Definition issue (method : string) (target : option string) (body : jsval) : CM unit :=
  log_event (EvRequest method target body).

(** ** The verbs *)

(** [create(data)]: a fresh client id, the optimistic record, one POST;
    the optimistic record is returned synchronously. *)
Definition create (d : fields) : CM record :=
  k <- new_cid ;;
  set_cache (applyOptimisticCreate k d) ;;;
  issue "POST" None (JObj d) ;;;
  eret (mkRecord k None d PENDING_OPTIMISTIC JNull None).

(** The settlement of a create: the server id is [String(body.id)]. *)
Definition create_settle (k : string) (a : answer) : CM unit :=
  match a with
  | AnsOk body =>
      match prop_key (get_prop body "id") with
      | Some i => set_cache (applyCreateSuccess k i (body_fields body))
      | None => set_cache (applyCreateError k body)
      end
  | AnsFail e => set_cache (applyCreateError k e)
  end.

(** [update(record, partial)]: fails fast without a server id, else the
    optimistic merge and one PUT against the server id. *)
Definition update (r : record) (partial : fields) : CM unit :=
  match sid r with
  | None => ethrow (precarious_error "update")
  | Some i =>
      set_cache (applyOptimisticUpdate (cid r) partial) ;;;
      issue "PUT" (Some i) (JObj partial)
  end.

Definition update_settle (k : string) (a : answer) : CM unit :=
  match a with
  | AnsOk body => set_cache (applyUpdateSuccess k (body_fields body))
  | AnsFail e => set_cache (applyUpdateError k e)
  end.

(** [destroy(record)]: fails fast without a server id, else marks the
    record and issues one DELETE. *)
Definition destroy (r : record) : CM unit :=
  match sid r with
  | None => ethrow (precarious_error "destroy")
  | Some i =>
      set_cache (applyOptimisticDestroy (cid r)) ;;;
      issue "DELETE" (Some i) JUndef
  end.

Definition destroy_settle (k : string) (a : answer) : CM unit :=
  match a with
  | AnsOk _ => set_cache (applyDestroySuccess k)
  | AnsFail e => set_cache (applyDestroyError k e)
  end.

(** [get(id)]: a find scoped to one identifier, its query result keyed by
    that identifier (spec section 4.2). *)
Definition get (id : jsval) : CM unit :=
  match prop_key id with
  | None => eret tt
  | Some i => set_cache (applyFindPending i) ;;; issue "GET" (Some i) JUndef
  end.

(** The fetched model receives a client id from Backbone's counter. *)
Definition get_settle (id : jsval) (a : answer) : CM unit :=
  match prop_key id with
  | None => eret tt
  | Some i =>
      match a with
      | AnsOk body =>
          k <- new_cid ;;
          let j := default i (prop_key (get_prop body "id")) in
          set_cache (applyFindSuccess i [mkFound k j (body_fields body)])
      | AnsFail e => set_cache (applyFindError i e)
      end
  end.

(** ** The scenarios of redux.spec.js *)

Definition crud_init (c : cache) : world cache := mkWorld c [] 0%N.

(** The title a record of [byId] holds, as [state.todo.byId[id].data.title]. *)
Definition title_by_id (c : cache) (i : string) : option jsval :=
  r ← byId c !! i; Some (assoc_get (data r) "title").

(** [populateStore(store, {todo: [{id, cid: 'c1', title: 'foo'}]})] of the
    test helpers: one resolved todo filed under [c1] and [String(id)]. *)
Definition populated_todo_record (id : jsval) : record :=
  mkRecord "c1" (prop_key id) [("id", id); ("cid", JStr "c1"); ("title", JStr "foo")]
           RESOLVED JNull None.

Definition populate (id : jsval) : cache := put_record (populated_todo_record id) empty_cache.

(** The three counts every scenario checks: [_.keys(state.todo.find)],
    [_.keys(state.todo.byId)] and [_.keys(state.todo.byCid)]. *)
Definition counts (c : cache) : nat * nat * nat := (size (find c), size (byId c), size (byCid c)).

(** ** What each verb does to the world *)

Lemma create_run d w :
  let k := cid_of (N.succ (w_uid w)) in
  create d w =
  (Ret (mkRecord k None d PENDING_OPTIMISTIC JNull None),
   mkWorld (applyOptimisticCreate k d (w_store w)) (w_log w ++ [EvRequest "POST" None (JObj d)])
           (N.succ (w_uid w))).
Proof. unfold create, new_cid, set_cache, issue, log_event. by simpl_eff. Qed.

Lemma update_run r p w :
  update r p w =
  match sid r with
  | None => (Throw (precarious_error "update"), w)
  | Some i => (Ret tt, mkWorld (applyOptimisticUpdate (cid r) p (w_store w))
                              (w_log w ++ [EvRequest "PUT" (Some i) (JObj p)]) (w_uid w))
  end.
Proof. unfold update, set_cache, issue, log_event. by destruct (sid r); simpl_eff. Qed.

Lemma destroy_run r w :
  destroy r w =
  match sid r with
  | None => (Throw (precarious_error "destroy"), w)
  | Some i => (Ret tt, mkWorld (applyOptimisticDestroy (cid r) (w_store w))
                              (w_log w ++ [EvRequest "DELETE" (Some i) JUndef]) (w_uid w))
  end.
Proof. unfold destroy, set_cache, issue, log_event. by destruct (sid r); simpl_eff. Qed.

Lemma get_run id w :
  get id w =
  match prop_key id with
  | None => (Ret tt, w)
  | Some i => (Ret tt, mkWorld (applyFindPending i (w_store w))
                              (w_log w ++ [EvRequest "GET" (Some i) JUndef]) (w_uid w))
  end.
Proof. unfold get, set_cache, issue, log_event. by destruct (prop_key id); simpl_eff. Qed.

(** A step whose only effect on the cache is a local reducer operation. *)
Definition local_change (w w' : world cache) : Prop :=
  w_uid w' = w_uid w /\
  (w_store w' = w_store w \/ exists o, local_op o /\ w_store w' = apply_op o (w_store w)).

Lemma local_change_wf w w' : local_change w w' -> app_wf w -> app_wf w'.
Proof.
  intros [Hu [Hs|(o&Hloc&Hs)]] Hw; [|by eapply local_op_app_wf].
  destruct Hw as [Hwf Hb]. unfold app_wf. by rewrite Hs, Hu.
Qed.

(** [local_by o]: the step applied the local operation [o]. *)
Ltac local_by o := split; [done|right; exists o; split; [exact I|reflexivity]].
Ltac local_none := split; [done|by left].

Lemma create_settle_local k a w : local_change w (snd (create_settle k a w)).
Proof.
  unfold create_settle, set_cache. destruct a as [body|e]; [destruct (prop_key _) as [i|]|];
    simpl_eff; [local_by (CreateSuccess k i (body_fields body)) | local_by (CreateError k body)
               | local_by (CreateError k e)].
Qed.

Lemma update_local r p w : local_change w (snd (update r p w)).
Proof.
  rewrite update_run. destruct (sid r); simpl; [local_by (OptimisticUpdate (cid r) p)|local_none].
Qed.

Lemma update_settle_local k a w : local_change w (snd (update_settle k a w)).
Proof.
  unfold update_settle, set_cache. destruct a as [body|e]; simpl_eff;
    [local_by (UpdateSuccess k (body_fields body)) | local_by (UpdateError k e)].
Qed.

Lemma destroy_local r w : local_change w (snd (destroy r w)).
Proof.
  rewrite destroy_run. destruct (sid r); simpl; [local_by (OptimisticDestroy (cid r))|local_none].
Qed.

Lemma destroy_settle_local k a w : local_change w (snd (destroy_settle k a w)).
Proof.
  unfold destroy_settle, set_cache. destruct a as [body|e]; simpl_eff;
    [local_by (DestroySuccess k) | local_by (DestroyError k e)].
Qed.

Lemma get_local id w : local_change w (snd (get id w)).
Proof. rewrite get_run. destruct (prop_key id) as [i|]; simpl; [local_by (FindPending i)|local_none]. Qed.

(** ** The verbs that file a new client id *)

Lemma fresh_cid_absent c b : cids_bounded c b -> byCid c !! cid_of (N.succ b) = None.
Proof.
  intros Hb. destruct (byCid c !! _) eqn:Hk; [|done].
  destruct (Hb (cid_of (N.succ b))) as (n&Hn&Hle); [by rewrite Hk|].
  apply (inj cid_of) in Hn. lia.
Qed.

(** A step applying an operation that files only the next client id of
    the counter, which it advances. *)
Lemma next_cid_op_wf o w w' :
  op_ok (w_store w) o -> op_new_cids o ⊆ [cid_of (N.succ (w_uid w))] ->
  w_store w' = apply_op o (w_store w) -> w_uid w' = N.succ (w_uid w) ->
  app_wf w -> app_wf w'.
Proof.
  intros Hok Hnew Hs Hu [Hwf Hb]. unfold app_wf. rewrite Hs, Hu.
  split; [by apply apply_op_wf|].
  apply (apply_op_bounded o _ (w_uid w)); [done|done|done|lia|].
  intros k Hk. apply Hnew, list_elem_of_singleton in Hk as ->. eauto with lia.
Qed.

Lemma create_app_wf d w : app_wf w -> app_wf (snd (create d w)).
Proof.
  rewrite create_run. simpl.
  by apply (next_cid_op_wf (OptimisticCreate (cid_of (N.succ (w_uid w))) d)).
Qed.

Lemma get_settle_app_wf id a w : app_wf w -> app_wf (snd (get_settle id a w)).
Proof.
  intros Hw. unfold get_settle.
  destruct (prop_key id) as [i|]; [|done]. destruct a as [body|e].
  - unfold new_cid, set_cache. simpl_eff.
    set (x := mkFound (cid_of (N.succ (w_uid w))) (default i (prop_key (get_prop body "id")))
                      (body_fields body)).
    apply (next_cid_op_wf (FindSuccess i [x]) w); [|simpl; set_solver|done|done|done].
    split; [repeat constructor; set_solver|].
    intros y ->%list_elem_of_singleton. apply fresh_cid_absent, Hw.
  - eapply local_change_wf; [|exact Hw]. unfold set_cache. simpl_eff.
    local_by (FindError i e).
Qed.
