(* ===== verification/App.v ===== *)
(** * The application: every verb of the action dispatcher, interleaved

    [app_step] is the event loop of an application built on one model (the
    todo model of redux.spec.js): a find thunk starts or its fetch settles
    ([FindBlueprint], through the reducers of [Integration]), a create,
    update, destroy or get starts or its request settles ([Crud]), or any
    other reducer operation that files no new client id runs.  Any number
    of requests may be in flight and they may settle in any order: the
    relation fixes no order.  [app_wf] (a coherent cache whose client ids
    Backbone's counter has already handed out) holds along every run. *)

From S2P Require Import Prelude JsValue RecordStore FindBlueprint Integration Crud.
#[local] Set Warnings "-clear-no-such-hyp".

Section App.
Variable fr : find_reducer.

Inductive app_step : world cache -> world cache -> Prop :=
| StepFind fc q p w :
    app_step w (snd (fetchAll (redux_dispatch fr) fc q p w))
| StepSettle fc q p r w :
    normalize (fc_options fc) = None ->
    app_step w (snd (settle (redux_dispatch fr) fc q p r w))
| StepCreate d w : app_step w (snd (create d w))
| StepCreateSettle k a w : app_step w (snd (create_settle k a w))
| StepUpdate r p w : app_step w (snd (update r p w))
| StepUpdateSettle k a w : app_step w (snd (update_settle k a w))
| StepDestroy r w : app_step w (snd (destroy r w))
| StepDestroySettle k a w : app_step w (snd (destroy_settle k a w))
| StepGet id w : app_step w (snd (get id w))
| StepGetSettle id a w : app_step w (snd (get_settle id a w))
| StepOp o w :
    local_op o -> app_step w (mkWorld (apply_op o (w_store w)) (w_log w) (w_uid w)).

Inductive app_reachable : world cache -> Prop :=
| app_init : app_reachable (mkWorld empty_cache [] 0%N)
| app_next w w' : app_reachable w -> app_step w w' -> app_reachable w'.
End App.

Lemma app_step_wf fr w w' : app_wf w -> app_step fr w w' -> app_wf w'.
Proof.
  intros Hw Hs. destruct Hs as [fc q p w|fc q p r w Hn|d w|k a w|r p w|k a w|r w|k a w|id w
                               |id a w|o w Hloc].
  - by apply fetchAll_app_wf.
  - by apply settle_app_wf.
  - by apply create_app_wf.
  - by eapply local_change_wf; [apply create_settle_local|].
  - by eapply local_change_wf; [apply update_local|].
  - by eapply local_change_wf; [apply update_settle_local|].
  - by eapply local_change_wf; [apply destroy_local|].
  - by eapply local_change_wf; [apply destroy_settle_local|].
  - by eapply local_change_wf; [apply get_local|].
  - by apply get_settle_app_wf.
  - by eapply local_op_app_wf.
Qed.

(** C1: The application's invariant.  Along every run of the event loop
    (find thunks started, fetches settled with any server answer, records
    created under client ids from Backbone's counter, updates, destroys
    and gets started and settled in any order, any other reducer operation)
    the cache stays coherent: every record is filed under its own client
    id, under its server id exactly when it has one, both indices hold the
    same record, every id a cached query lists is a record of [byId], and
    every client id is one the counter has already handed out, so the
    models of the next fetch never collide with a cached record. *)
Theorem app_reachable_wf fr w : app_reachable fr w -> app_wf w.
Proof.
  induction 1 as [|w w' _ IH Hstep]; [apply app_init_wf|by apply (app_step_wf fr w)].
Qed.

(** ** A run of the todo application *)

(** redux.spec.js's todo: a find answered with one record, then a create
    answered by the server. *)
Definition todo_run : world cache :=
  let w1 := snd (fetchAll (redux_dispatch todo_reducer) todo_find_config JUndef JUndef init_world) in
  let w2 := snd (settle (redux_dispatch todo_reducer) todo_find_config JUndef JUndef
                        (FetchOk [JObj [("id", JStr "1"); ("title", JStr "foo")]]) w1) in
  let w3 := snd (create [("title", JStr "bar")] w2) in
  snd (create_settle "c2" (AnsOk (JObj [("id", JStr "2"); ("title", JStr "bar")])) w3).

Lemma todo_run_reachable : app_reachable todo_reducer todo_run.
Proof.
  eapply app_next; [|apply StepCreateSettle]. eapply app_next; [|apply StepCreate].
  eapply app_next; [|apply StepSettle; reflexivity].
  eapply app_next; [apply app_init|apply StepFind].
Qed.

Lemma app_reachable_wf_witness : app_reachable todo_reducer todo_run /\ app_wf todo_run.
Proof. split; [exact todo_run_reachable|]. exact (app_reachable_wf _ _ todo_run_reachable). Defined.
