(* ===== verification/Http.v ===== *)
(** * The network boundary: the requests of a run, their URLs and headers

    The blueprints issue their requests through Backbone, which builds the
    URL from the model configuration and sends the headers the model's
    [properties] define.  The example application's configuration is
    src/examples/auth/config/models.js: [apiRoot] is
    [http://localhost:1337], [pluralize] is left to its default, and every
    request carries [Authorization: 'Bearer ' + auth.getToken()].

    Spec section "network boundary" fixes the routes: [POST /{plural}]
    creates, [GET /{plural}] finds, [GET], [PUT] and [DELETE]
    [/{plural}/{id}] get, update and destroy.  [route] is that table, as
    the requests each [call] of the dispatcher sends.  [logs_only P m]
    states that a computation only appends events satisfying [P] to the
    log; with it and the run lemmas of the verbs, [calls_follow_routes]
    shows that every call, on any store, sends exactly the requests of its
    route, on the record's server id, and that settlements send none.  The
    URL of a request is [url]; a router reads it back with [parse_url]
    ([url_roundtrip]), and [bearer_header_roundtrip] reads the token back
    from the header of models.js. *)

From S2P Require Import Prelude JsValue RecordStore FindBlueprint Json Integration Crud App.
From Stdlib Require Import Ascii String.
#[local] Set Warnings "-clear-no-such-hyp".

(** ** The model configuration (models.js) *)

Record models_config := mkConfig {
  apiRoot : string;
  pluralize : option bool;           (* [undefined] when the line is commented out *)
  headers : jsval -> jsval           (* [properties.headers], given [auth.getToken()] *)
}.

(** [module.exports] of models.js: [apiRoot], the commented-out
    [pluralize], and [properties.headers] returning
    [{'Authorization': 'Bearer ' + auth.getToken()}]. *)
Definition models_js : models_config :=
  mkConfig "http://localhost:1337" None
           (fun token => JObj [("Authorization", JStr ("Bearer " +:+ js_to_string token))]).

(** ** Routes and URLs *)

(** A call of the action dispatcher, or the settlement of one: the five
    verbs of spec section 4.2 and the answers that settle them. *)
Inductive call :=
| CFind (fc : find_config) (query pagination : jsval)
| CFindSettle (fc : find_config) (query pagination : jsval) (r : fetch_result)
| CCreate (d : fields)
| CCreateSettle (k : string) (a : answer)
| CUpdate (r : record) (partial : fields)
| CUpdateSettle (k : string) (a : answer)
| CDestroy (r : record)
| CDestroySettle (k : string) (a : answer)
| CGet (id : jsval)
| CGetSettle (id : jsval) (a : answer).

(** Running a call on the todo store (the find reducers, no subscriber). *)
Definition run_call (fr : find_reducer) (c : call) (w : world cache) : world cache :=
  match c with
  | CFind fc q p => snd (fetchAll (redux_dispatch fr) fc q p w)
  | CFindSettle fc q p r => snd (settle (redux_dispatch fr) fc q p r w)
  | CCreate d => snd (create d w)
  | CCreateSettle k a => snd (create_settle k a w)
  | CUpdate r p => snd (update r p w)
  | CUpdateSettle k a => snd (update_settle k a w)
  | CDestroy r => snd (destroy r w)
  | CDestroySettle k a => snd (destroy_settle k a w)
  | CGet id => snd (Crud.get id w)
  | CGetSettle id a => snd (get_settle id a w)
  end.

(** The network boundary of the spec as the requests each call sends:
    [GET /{plural}] with the query's parameters for a find, [POST
    /{plural}] with the data for a create, [PUT], [DELETE] and [GET]
    [/{plural}/{id}] on the record's server id for update, destroy and get
    (none without one: the [PrecariousUpdateError] of section 7), and
    nothing for a settlement. *)
Definition route (c : call) : list event :=
  match c with
  | CFind fc q p => [EvFetch (fc_collection fc) (queryParameters (default_query q) p)]
  | CCreate d => [EvRequest "POST" None (JObj d)]
  | CUpdate r p => match sid r with Some i => [EvRequest "PUT" (Some i) (JObj p)] | None => [] end
  | CDestroy r => match sid r with Some i => [EvRequest "DELETE" (Some i) JUndef] | None => [] end
  | CGet id => match prop_key id with Some i => [EvRequest "GET" (Some i) JUndef] | None => [] end
  | _ => []
  end.

(** The events that go over the network: requests and fetches. *)
Definition is_request (e : event) : bool :=
  match e with EvRequest _ _ _ | EvFetch _ _ => true | _ => false end.

Definition no_request (e : event) : Prop := is_request e = false.

(** [apiRoot/{plural(resource)}[/id]]: pluralisation is on unless the
    configuration turns it off. *)
Definition url (cfg : models_config) (plural : string -> string) (resource : string)
    (target : option string) : string :=
  apiRoot cfg +:+ "/" +:+
  (if default true (pluralize cfg) then plural resource else resource) +:+
  match target with Some i => "/" +:+ i | None => "" end.

Definition slash : ascii := "/".

(** A path segment: the text up to the next slash, and the rest. *)
Fixpoint segment (s : string) : string * string :=
  match s with
  | EmptyString => (EmptyString, EmptyString)
  | String c r => if Ascii.eqb c slash then (EmptyString, s)
                  else let (a, b) := segment r in (String c a, b)
  end.

(** The router of the server: the collection's path and the member's id. *)
Definition parse_url (cfg : models_config) (s : string) : option (string * option string) :=
  r ← strip_prefix (apiRoot cfg +:+ "/") s;
  let (coll, rest) := segment r in
  match rest with
  | EmptyString => Some (coll, None)
  | String c i => if Ascii.eqb c slash then
                    let (id, more) := segment i in
                    if String.eqb more EmptyString then Some (coll, Some id) else None
                  else None
  end.

(** A string without a slash. *)
Definition no_slash (s : string) : Prop := Forall (fun c => c <> slash) (String.list_ascii_of_string s).

(** ** What a computation appends to the log *)

Section Logs.
Context {S : Type}.
Variable P : event -> Prop.

Definition logs_only {A} (m : eff jsval (world S) A) : Prop :=
  forall w, exists new, w_log (snd (m w)) = w_log w ++ new /\ Forall P new.

Lemma logs_only_ret {A} (a : A) : logs_only (eret a).
Proof. intros w. exists []. by rewrite app_nil_r. Qed.

Lemma logs_only_throw {A} e : logs_only (ethrow (A:=A) e).
Proof. intros w. exists []. by rewrite app_nil_r. Qed.

Lemma logs_only_bind {A B} (m : eff jsval (world S) A) (k : A -> eff jsval (world S) B) :
  logs_only m -> (forall a, logs_only (k a)) -> logs_only (ebind m k).
Proof.
  intros Hm Hk w. unfold ebind. destruct (Hm w) as (n1&H1&F1).
  destruct (m w) as [[a|e] w1]; simpl in *; [|by exists n1].
  destruct (Hk a w1) as (n2&H2&F2). exists (n1 ++ n2).
  rewrite H2, H1, app_assoc. split; [done|by apply Forall_app].
Qed.

Lemma logs_only_frame {A} (m : eff jsval (world S) A) :
  (forall w, w_log (snd (m w)) = w_log w) -> logs_only m.
Proof. intros Hm w. exists []. by rewrite Hm, app_nil_r. Qed.

Lemma logs_only_log_event e : P e -> logs_only (log_event e).
Proof. intros He w. exists [e]. split; [done|by constructor]. Qed.

Lemma logs_only_dispatch sd a : P (EvDispatch a) -> logs_only (dispatch sd a).
Proof.
  intros Ha. apply logs_only_bind; [by apply logs_only_log_event|].
  intros _. apply logs_only_frame. intros w. simpl. by destruct sd.
Qed.

Lemma logs_only_new_cid : logs_only new_cid.
Proof. by apply logs_only_frame. Qed.

Lemma logs_only_set_models records : logs_only (set_models records).
Proof.
  induction records as [|r rs IH]; simpl; [apply logs_only_ret|].
  apply logs_only_bind; [apply logs_only_new_cid|]. intros c.
  apply logs_only_bind; [done|]. intros ms. apply logs_only_ret.
Qed.

Lemma logs_only_etry {A} (m : eff jsval (world S) A) : logs_only m -> logs_only (etry m).
Proof. intros Hm w. destruct (Hm w) as (n&H&F). exists n. unfold etry. by destruct (m w). Qed.

Lemma logs_only_eiter {A} (f : A -> eff jsval (world S) unit) l :
  (forall x, logs_only (f x)) -> logs_only (eiter f l).
Proof.
  intros Hf. induction l as [|x l IH]; simpl; [apply logs_only_ret|].
  by apply logs_only_bind.
Qed.
End Logs.

Create HintDb logs.
#[export] Hint Resolve logs_only_ret logs_only_throw logs_only_log_event logs_only_dispatch
  logs_only_new_cid logs_only_set_models logs_only_etry logs_only_eiter : logs.

#[export] Hint Extern 1 (no_request _) => reflexivity : logs.

(** Splits a computation into its steps and discharges each with the
    lemmas of [logs]. *)
Ltac logs_only_by :=
  repeat first
    [ progress cbv zeta
    | solve [eauto with logs]
    | apply logs_only_etry
    | apply logs_only_eiter; intros ?
    | apply logs_only_bind; [|intros ?]
    | progress case_match
    | constructor ].

(** ** Every call sends the requests of its route *)

Lemma logs_only_set_cache P f : logs_only P (set_cache f).
Proof. by apply logs_only_frame. Qed.
#[export] Hint Resolve logs_only_set_cache : logs.

(** A computation that logs no request sends none. *)
Lemma logs_only_no_request {A} (m : eff jsval (world cache) A) w :
  logs_only no_request m ->
  exists new, w_log (snd (m w)) = w_log w ++ new /\ filter is_request new = [].
Proof.
  intros Hm. destruct (Hm w) as (n & Hn & Hf). exists n. split; [done|].
  clear Hn. induction Hf as [|e n He _ IH]; [done|]. rewrite filter_cons_False; [exact IH|].
  unfold no_request in He. rewrite He. simpl. tauto.
Qed.

Lemma settle_no_request fr fc q p r : logs_only no_request (settle (redux_dispatch fr) fc q p r).
Proof. unfold settle, onFetchSuccess, onFetchError. logs_only_by. Qed.

Lemma verb_settle_no_request k a id :
  logs_only no_request (create_settle k a) /\ logs_only no_request (update_settle k a) /\
  logs_only no_request (destroy_settle k a) /\ logs_only no_request (get_settle id a).
Proof.
  unfold create_settle, update_settle, destroy_settle, Crud.get_settle.
  split_and!; logs_only_by.
Qed.

(** The log a synchronous find appends: the fetch, then the optimistic
    dispatch when there is an optimistic hook. *)
Lemma fetchAll_log fr fc q p w :
  exists rest, w_log (snd (fetchAll (redux_dispatch fr) fc q p w)) =
    w_log w ++ EvFetch (fc_collection fc) (queryParameters (default_query q) p) :: rest /\
    filter is_request rest = [].
Proof.
  unfold fetchAll, log_event. destruct (optimistic (fc_options fc)); simpl_eff.
  - eexists. rewrite <-app_assoc. by split.
  - exists []. by split.
Qed.

(** C9: The dispatcher refines the spec's network boundary: every call of
    a verb, and every settlement, on any store, appends to the log exactly
    the requests of its route, in the table of the spec: one [GET] of the
    collection with the query's parameters for a find, one [POST] with the
    data for a create, one [PUT], [DELETE] or [GET] on the record's server
    id for update, destroy and get (none when there is no server id), and
    no request for a settlement. *)
Theorem calls_follow_routes fr c w :
  exists new, w_log (run_call fr c w) = w_log w ++ new /\ filter is_request new = route c.
Proof.
  destruct c as [fc q p|fc q p r|d|k a|r p|k a|r|k a|id|id a]; unfold run_call, route; cbv beta iota.
  - destruct (fetchAll_log fr fc q p w) as (rest & -> & Hr). eexists. split; [done|].
    rewrite filter_cons_True by done. by rewrite Hr.
  - by apply logs_only_no_request, settle_no_request.
  - rewrite create_run. simpl. by eexists.
  - apply logs_only_no_request, (verb_settle_no_request k a JNull).
  - rewrite update_run. destruct (sid r); simpl; [by eexists|]. exists []. by rewrite app_nil_r.
  - apply logs_only_no_request, (verb_settle_no_request k a JNull).
  - rewrite destroy_run. destruct (sid r); simpl; [by eexists|]. exists []. by rewrite app_nil_r.
  - apply logs_only_no_request, (verb_settle_no_request k a JNull).
  - rewrite get_run. destruct (prop_key id); simpl; [by eexists|]. exists []. by rewrite app_nil_r.
  - apply logs_only_no_request, (verb_settle_no_request "" a id).
Qed.

(** ** URLs and headers *)

Lemma no_slash_cons c s : no_slash (String c s) -> c <> slash /\ no_slash s.
Proof. unfold no_slash. simpl. by rewrite Forall_cons. Qed.

(** The first segment of a path that starts with a slash-free text [a]
    followed by nothing or by a slash. *)
Lemma segment_app a rest :
  no_slash a -> (rest = EmptyString \/ exists r, rest = String slash r) ->
  segment (a +:+ rest) = (a, rest).
Proof.
  intros Ha Hr. induction a as [|c a IH].
  - rewrite string_app_nil_l. destruct Hr as [->|[r ->]]; [done|]. done.
  - apply no_slash_cons in Ha as [Hc Ha]. rewrite string_app_cons. simpl.
    destruct (Ascii.eqb_spec c slash); [done|]. by rewrite IH.
Qed.

(** The URL of a request under the configuration of models.js is read
    back by the server's router: for a collection path and a member id
    without slashes, [parse_url] of [http://localhost:1337/{plural}[/id]]
    gives the path and the id back (pluralisation is on, models.js leaving
    [pluralize] to its default). *)
Lemma url_roundtrip plural res t :
  no_slash (plural res) -> (forall i, t = Some i -> no_slash i) ->
  parse_url models_js (url models_js plural res t) = Some (plural res, t).
Proof.
  intros Hp Ht. unfold parse_url, url. simpl default. cbv iota.
  rewrite <-(string_app_assoc (apiRoot models_js)), strip_prefix_app. simpl mbind.
  destruct t as [i|].
  - rewrite segment_app by (done || right; by eexists). simpl.
    rewrite string_app_nil_l.
    pose proof (segment_app i "" (Ht i eq_refl) (or_introl eq_refl)) as Hs.
    rewrite string_app_nil_r in Hs. by rewrite Hs.
  - rewrite segment_app by (done || by left). done.
Qed.

(** The token a server reads from the [Authorization] header. *)
Definition bearer_token (hdrs : jsval) : option string :=
  match get_prop hdrs "Authorization" with
  | JStr s => strip_prefix "Bearer " s
  | _ => None
  end.

(** The headers of models.js carry the token back to the server:
    [Authorization] is ['Bearer ' + auth.getToken()], from which the server
    reads [String(auth.getToken())].  With no token ([null] or
    [undefined]) the header is still sent, and the server reads the token
    ["null"] or ["undefined"]. *)
Lemma bearer_header_roundtrip v : bearer_token (headers models_js v) = Some (js_to_string v).
Proof. unfold bearer_token. simpl. by rewrite string_app_nil_l. Qed.
