(* ===== verification/ReduxSpec.v ===== *)
(** * redux.spec.js: the scenarios against the test's mock server

    Each [describe] block of lore/test/integration/redux.spec.js installs,
    in its [beforeEach], one persisted [nock] interceptor on
    [https://api.example.com]: a method, a path and the status and body of
    the reply.  Its [it] runs one verb of the action dispatcher, checks the
    optimistic state, and checks the state again once the server's answer
    has been reconciled.

    Here the answer is not written into the scenario: the scenario takes
    the one request the verb logged, builds its URL as Backbone does
    ([Http.url] under the tests' configuration, the collection's URL for a
    find), and asks the interceptors of its block, as nock does, for the
    reply; a request no interceptor matches gets none, and the scenario
    fails, as the test does on nock's "No match for request".  A 2xx reply
    settles the verb with the body; any other status fails it. *)

From S2P Require Import Prelude JsValue RecordStore FindBlueprint Json Integration Crud Http.
From Stdlib Require Import String.
#[local] Set Warnings "-clear-no-such-hyp".

(** ** The mock server *)

(** [nock(host).persist().<method>(path).reply(status, body)]. *)
Record interceptor := mkInterceptor {
  ic_host : string;
  ic_method : string;
  ic_path : string;
  ic_status : Z;
  ic_body : jsval
}.

(** The host every block names. *)
Definition nock_host : string := "https://api.example.com".

(** [config = {hooks: require('../defaultHooks')}] (lines 8-10): the
    collections' [apiRoot] is the host the interceptors name, pluralisation
    is left to its default, and the tests send no headers. *)
Definition config : models_config := mkConfig nock_host None (fun _ => JObj []).

(** The models' resource ([todo]) and its plural, the collection's path. *)
Definition todo_plural (resource : string) : string := resource +:+ "s".

(** The method and the URL of a request of the log.  A find fetches the
    collection's URL with [data: queryParameters] as its query string: the
    interceptors of the file declare no [.query()], so only a fetch without
    parameters can match one, and a fetch with parameters has no URL here. *)
Definition request_of (e : event) : option (string * string) :=
  match e with
  | EvRequest m t _ => Some (m, url config todo_plural "todo" t)
  | EvFetch c (JObj []) => Some ("GET", apiRoot config +:+ "/" +:+ c)
  | _ => None
  end.

(** nock serves a request with the first interceptor whose method is the
    request's and whose host and path make its URL. *)
Definition intercept (ics : list interceptor) (req : string * string) : option interceptor :=
  List.find (fun ic => String.eqb req.1 (ic_method ic) &&
                       String.eqb req.2 (ic_host ic +:+ ic_path ic)) ics.

(** jQuery's [ajax] resolves on a 2xx status and rejects otherwise. *)
Definition reply (ic : interceptor) : answer :=
  if (200 <=? ic_status ic)%Z && (ic_status ic <? 300)%Z then AnsOk (ic_body ic)
  else AnsFail (ic_body ic).

(** The answer to the one request a step sent, if the interceptors serve
    it: a step that sent no request or more than one gets none. *)
Definition answer_to (ics : list interceptor) (w : world cache) : option answer :=
  match filter is_request (w_log w) with
  | [e] => req ← request_of e; ic ← intercept ics req; Some (reply ic)
  | _ => None
  end.

(** Backbone's [collection.fetch] on a 2xx answer sets the models of the
    body: the elements of an array, or the one object. *)
Definition fetch_of (a : answer) : fetch_result :=
  match a with
  | AnsOk (JArr xs) => FetchOk xs
  | AnsOk v => FetchOk [v]
  | AnsFail r => FetchFail r
  end.

(** ** The interceptors of the describe blocks *)

(** Lines 28-37 (with a numeric id: 261-270). *)
Definition nock_create (id : jsval) : interceptor :=
  mkInterceptor nock_host "POST" "/todos" 201 (JObj [("id", id); ("title", JStr "foo")]).

(** Lines 70-81 (303-315). *)
Definition nock_find (id : jsval) : interceptor :=
  mkInterceptor nock_host "GET" "/todos" 200 (JArr [JObj [("id", id); ("title", JStr "foo")]]).

(** Lines 113-122 (346-355). *)
Definition nock_get (id : jsval) : interceptor :=
  mkInterceptor nock_host "GET" "/todos/1" 200 (JObj [("id", id); ("title", JStr "foo")]).

(** Lines 156-165 (388-397). *)
Definition nock_update (id : jsval) : interceptor :=
  mkInterceptor nock_host "PUT" "/todos/1" 200 (JObj [("id", id); ("title", JStr "bar")]).

(** Lines 211-217 (443-449): [.reply(200)], no body. *)
Definition nock_destroy : interceptor := mkInterceptor nock_host "DELETE" "/todos/1" 200 JUndef.

(** The [id as Number] blocks. *)
Definition nock_create_number : interceptor := nock_create (JNum 1).
Definition nock_find_number : interceptor := nock_find (JNum 1).
Definition nock_get_number : interceptor := nock_get (JNum 1).
Definition nock_update_number : interceptor := nock_update (JNum 1).

(** ** The scenarios *)

(** redux.spec.js lines 39-66: create a todo, check the optimistic state,
    let the server answer, check again; the record under the optimistic
    client id has a server id. *)
Definition create_test (id : jsval) : bool :=
  let (o, w1) := create [("title", JStr "foo")] (crud_init empty_cache) in
  match o, answer_to [nock_create id] w1 with
  | Ret r, Some a =>
      let c1 := w_store w1 in
      let c2 := w_store (snd (create_settle (cid r) a w1)) in
      bool_decide (counts c1 = (0, 0, 1) /\ counts c2 = (0, 1, 1) /\
                   is_Some (byCid c2 !! cid r ≫= sid))
  | _, _ => false
  end.

(** The key the find test reads, ['{"where":{}}']. *)
Definition spec_find_key : string := "{" +:+ json_quote "where" +:+ ":{}}".

(** [state.todo.find[key].data.length]. *)
Definition query_length (c : cache) (key : string) : nat :=
  match find c !! key with Some q => List.length (record_ids q) | None => 0 end.

(** Lines 83-109: call [lore.actions.todo.find()], check the optimistic
    state, let the server answer, check the state again. *)
Definition find_test (id : jsval) : bool :=
  let w1 := snd (fetchAll (redux_dispatch todo_reducer) todo_find_config JUndef JUndef init_world) in
  match answer_to [nock_find id] w1 with
  | Some a =>
      let c1 := w_store w1 in
      let c2 := w_store (snd (settle (redux_dispatch todo_reducer) todo_find_config JUndef JUndef
                               (fetch_of a) w1)) in
      bool_decide (size (find c1) = 1 /\ size (byId c1) = 0 /\ size (byCid c1) = 0 /\
                   query_length c1 spec_find_key = 0 /\
                   size (find c2) = 1 /\ size (byId c2) = 1 /\ size (byCid c2) = 1 /\
                   query_length c2 spec_find_key = 1)
  | None => false
  end.

(** Lines 124-152: [get('1')]; both the optimistic state and the answered
    one are expected to hold the record in [byId] and [byCid] and no query
    result. *)
Definition get_test (id : jsval) : bool :=
  let w1 := snd (Crud.get id (crud_init empty_cache)) in
  match answer_to [nock_get id] w1 with
  | Some a =>
      let w2 := snd (get_settle id a w1) in
      bool_decide (counts (w_store w1) = (0, 1, 1) /\ counts (w_store w2) = (0, 1, 1) /\
                   title_by_id (w_store w2) "1" = Some (JStr "foo"))
  | None => false
  end.

(** Lines 167-207: update the populated todo to [{title: 'baz'}], check
    the optimistic title, let the server answer. *)
Definition update_test (id : jsval) : bool :=
  let w0 := crud_init (populate id) in
  let w1 := snd (update (populated_todo_record id) [("title", JStr "baz")] w0) in
  match answer_to [nock_update id] w1 with
  | Some a =>
      let w2 := snd (update_settle "c1" a w1) in
      bool_decide (counts (w_store w1) = (0, 1, 1) /\
                   title_by_id (w_store w1) "1" = Some (JStr "baz") /\
                   counts (w_store w2) = (0, 1, 1) /\
                   title_by_id (w_store w2) "1" = Some (JStr "bar"))
  | None => false
  end.

(** Lines 219-253: destroy the populated todo; it stays until the server
    confirms, then it is gone from every index. *)
Definition destroy_test (id : jsval) : bool :=
  let w0 := crud_init (populate id) in
  let w1 := snd (destroy (populated_todo_record id) w0) in
  match answer_to [nock_destroy] w1 with
  | Some a =>
      let w2 := snd (destroy_settle "c1" a w1) in
      bool_decide (counts (w_store w1) = (0, 1, 1) /\ counts (w_store w2) = (0, 0, 0))
  | None => false
  end.

(** Lines 256-486 repeat the scenarios with the number [1] as the id. *)
Definition create_test_number : bool := create_test (JNum 1).
Definition find_test_number : bool := find_test (JNum 1).
Definition get_test_number : bool := get_test (JNum 1).
Definition update_test_number : bool := update_test (JNum 1).
Definition destroy_test_number : bool := destroy_test (JNum 1).

(** ** The scenarios on the model *)

(** The create, update and destroy scenarios of redux.spec.js pass on
    the model, with the todo's id as a string and as a number: each verb
    sends one request, the interceptor of its block serves it, and the
    counts of query results, records by server id and records by client
    id, and the titles, are the ones the test expects before and after the
    answer is reconciled. *)
Lemma crud_tests_pass :
  create_test (JStr "1") = true /\ create_test_number = true /\
  update_test (JStr "1") = true /\ update_test_number = true /\
  destroy_test (JStr "1") = true /\ destroy_test_number = true.
Proof. vm_compute. repeat split. Qed.

(** A finding.  The get scenario of redux.spec.js contradicts spec
    section 4.2: with [get] a find scoped to one identifier, the optimistic
    state holds one query result and no record, where the test expects no
    query result and the record under its server id and its client id;
    the test cannot pass on a dispatcher that follows the spec, whatever
    the server answers. *)
Lemma get_test_fails id i :
  prop_key id = Some i ->
  counts (w_store (snd (Crud.get id (crud_init empty_cache)))) = (1, 0, 0) /\ get_test id = false.
Proof.
  intros Hi. unfold get_test. rewrite !get_run, Hi. simpl.
  assert (Hc : counts (applyFindPending i empty_cache) = (1, 0, 0)).
  { unfold counts. simpl. by rewrite insert_empty, map_size_singleton. }
  split; [exact Hc|]. destruct (answer_to _ _); [|done].
  apply bool_decide_eq_false_2. rewrite Hc. naive_solver.
Qed.

(** The find scenario of redux.spec.js passes on the model, with the
    todo's id as a string and as a number: the fetch of the collection's
    URL without parameters is served by the block's interceptor; one
    pending query under the key ['{"where":{}}'] and no record before the
    answer; one resolved query listing one record, filed once under its
    client id and once under its server id, after. *)
Lemma find_test_passes : find_test (JStr "1") = true /\ find_test_number = true.
Proof. split; vm_compute; reflexivity. Qed.

(** ** Witnesses *)
