(* ===== verification/Connect.v ===== *)
(** * The connect decorator: src/packages/lore-hook-connect/src/connect.js

    [connect(select, options)(DecoratedComponent)] is a React class whose
    instances select a slice of the Redux state, pass it to the decorated
    component, and, with [options.subscribe], recompute it when the store
    changes, deferring [setState] by one [setTimeout] tick and skipping it
    when the instance is no longer mounted.

    The model is one decorated class ([select], [subscribe] fixed by the
    Section) and any number of instances.  [select] returns a value or
    throws; [check_slice] adds [selectState]'s invariant.  A [bridge] holds
    the Redux state, the store's listeners (subscription id and instance,
    in subscription order), the instances, the queue of pending timer
    callbacks and a log of what the instances did (select calls,
    setState, renders).  React's lifecycle drives the methods: [mount]
    (getInitialState, render, componentDidMount), [notify] (a store change
    runs every listener of the snapshot), [fire] (the oldest timer
    callback), [update_props] (shouldComponentUpdate with the next props,
    render) and [unmount] (componentWillUnmount).  [_getState]
    (./getState.js) is outside src/: it is the Section's [getState], a
    function that reads the store; a [getState] that dispatches while it
    is read (connect.js lines 88-93) is not modelled here.  The factory
    around the class is in [Decorate]. *)

From S2P Require Import Prelude JsValue.
From Stdlib Require Import Ascii String.
#[local] Set Warnings "-clear-no-such-hyp".

(** ** JavaScript helpers *)

(** [invariant(false, format, slice)]: an [Error] named
    [Invariant Violation] whose message is the format with [%s] replaced. *)
Definition invariant_error (slice : jsval) : jsval :=
  JObj [("message", JStr ("The return value of `select` prop must be an object. Instead received "
                          +:+ js_to_string slice +:+ "."));
        ("name", JStr "Invariant Violation")].

(** What [selectState] makes of [select]'s outcome: a plain object is
    the slice, any other value the invariant violation, and an exception
    [select] throws propagates. *)
Definition check_slice (o : outcome jsval jsval) : outcome jsval jsval :=
  match o with
  | Ret slice => if is_plain_object slice then Ret slice else Throw (invariant_error slice)
  | Throw e => Throw e
  end.

(** ** Instances and the bridge *)

Record instance := mkInstance {
  ci_props : jsval;                (* this.props *)
  ci_nextState : jsval;            (* this.nextState *)
  ci_state : jsval;                (* this.state, merged by setState *)
  ci_mounted : bool;               (* this.isMounted() *)
  ci_unsubscribe : option nat      (* this.unsubscribe, by subscription id *)
}.

Inductive bevent :=
| ESelect (i : nat)
| ESetState (i : nat) (slice : jsval)
| ERender (i : nat) (props : jsval).

Record bridge (S : Type) := mkBridge {
  b_store : S;
  b_listeners : list (nat * nat);
  b_next_sub : nat;
  b_comps : gmap nat instance;
  b_timers : list (nat * jsval);
  b_log : list bevent
}.
Arguments mkBridge {S}.
Arguments b_store {S}.
Arguments b_listeners {S}.
Arguments b_next_sub {S}.
Arguments b_comps {S}.
Arguments b_timers {S}.
Arguments b_log {S}.

(** [_.assign({ref: 'decoratedComponent'}, this.nextState, this.props)]:
    the props of the decorated element. *)
Definition render_props (nextState props : jsval) : jsval :=
  JObj (assign_in [("ref", JStr "decoratedComponent")] [nextState; props]).

(** [getStateOnMount]'s options: [options = options || {}], then
    [_.assign({}, options, {force: options.forceFetchOnMount})]. *)
Definition mount_options (options : jsval) : jsval :=
  let options := if truthy options then options else JObj [] in
  JObj (assign_in [] [options; JObj [("force", get_prop options "forceFetchOnMount")]]).

Section Connect.
Context {St : Type}.

(** [_getState(actions, blueprints, reducerActionMap)]: reads
    [(state, stateKey, params, options)]. *)
Variable getState : St -> string -> jsval -> jsval -> jsval.
(** [select(getState, props, context)]: the decorated class's selector,
    given [getState] bound to the current state; it returns a value or
    throws (a member access on [undefined] in its body, say). *)
Variable select : (string -> jsval -> jsval -> jsval) -> jsval -> outcome jsval jsval.
(** [options.subscribe], truthy or not. *)
Variable subscribe : bool.

Abbreviation B := (bridge St).
Abbreviation M := (eff jsval B).

Definition set_comps (f : gmap nat instance -> gmap nat instance) : M unit :=
  emodify (fun w => mkBridge (b_store w) (b_listeners w) (b_next_sub w) (f (b_comps w))
                             (b_timers w) (b_log w)).

Definition log_bevent (e : bevent) : M unit :=
  emodify (fun w => mkBridge (b_store w) (b_listeners w) (b_next_sub w) (b_comps w)
                             (b_timers w) (b_log w ++ [e])).

(** The wrapper [getStateOnMount(state, stateKey, params, options)]. *)
Definition getStateOnMount (state : St) (key : string) (params options : jsval) : jsval :=
  getState state key params (mount_options options).

(** [selectState(props, context, getState)] for instance [i]: read the
    store, call [select], require a plain object. *)
Definition selectState (i : nat) (gs : St -> string -> jsval -> jsval -> jsval) (props : jsval)
  : M jsval :=
  w <- eget ;;
  log_bevent (ESelect i) ;;;
  slice <- elift (select (gs (b_store w)) props) ;;
  if is_plain_object slice then eret slice else ethrow (invariant_error slice).

Definition get_comp (i : nat) : M (option instance) := w <- eget ;; eret (b_comps w !! i).

Definition put_comp (i : nat) (ci : instance) : M unit := set_comps (insert i ci).

(** [render()]: the decorated element with [this.nextState] and
    [this.props]. *)
Definition render (i : nat) : M unit :=
  o <- get_comp i ;;
  match o with
  | Some ci => log_bevent (ERender i (render_props (ci_nextState ci) (ci_props ci)))
  | None => eret tt
  end.

(** [getInitialState()]: the slice through [getStateOnMount]; React's
    state starts as [{}]. *)
Definition getInitialState (i : nat) (props : jsval) : M unit :=
  slice <- selectState i getStateOnMount props ;;
  put_comp i (mkInstance props slice (JObj []) false None).

(** The listener [componentDidMount] subscribes: select now, set the
    state one tick later. *)
Definition listener (i : nat) : M unit :=
  o <- get_comp i ;;
  match o with
  | Some ci =>
      slice <- selectState i getState (ci_props ci) ;;
      emodify (fun w => mkBridge (b_store w) (b_listeners w) (b_next_sub w) (b_comps w)
                                 (b_timers w ++ [(i, slice)]) (b_log w))
  | None => eret tt
  end.

(** [componentDidMount()]: [if (!options.subscribe) return;], else
    [this.unsubscribe = this.context.store.subscribe(listener)]; the
    instance is mounted from here on. *)
Definition componentDidMount (i : nat) : M unit :=
  o <- get_comp i ;;
  match o with
  | Some ci =>
      if subscribe then
        w <- eget ;;
        let sid := b_next_sub w in
        eput (mkBridge (b_store w) (b_listeners w ++ [(sid, i)]) (S sid)
                (<[i := mkInstance (ci_props ci) (ci_nextState ci) (ci_state ci) true (Some sid)]>
                   (b_comps w))
                (b_timers w) (b_log w))
      else put_comp i (mkInstance (ci_props ci) (ci_nextState ci) (ci_state ci) true None)
  | None => eret tt
  end.

(** Mounting an instance: getInitialState, render, componentDidMount. *)
Definition mount (i : nat) (props : jsval) : M unit :=
  getInitialState i props ;;; render i ;;; componentDidMount i.

(** [shouldComponentUpdate(nextProps)]: recompute [this.nextState] with
    the next props; always [true], so React renders next. *)
Definition shouldComponentUpdate (i : nat) (nextProps : jsval) : M bool :=
  o <- get_comp i ;;
  match o with
  | Some ci =>
      slice <- selectState i getState nextProps ;;
      put_comp i (mkInstance (ci_props ci) slice (ci_state ci) (ci_mounted ci) (ci_unsubscribe ci)) ;;;
      eret true
  | None => eret false
  end.

(** React's update of an instance to [nextProps]. *)
Definition update_props (i : nat) (nextProps : jsval) : M unit :=
  b <- shouldComponentUpdate i nextProps ;;
  o <- get_comp i ;;
  match o with
  | Some ci =>
      put_comp i (mkInstance nextProps (ci_nextState ci) (ci_state ci) (ci_mounted ci)
                    (ci_unsubscribe ci)) ;;;
      (if b then render i else eret tt)
  | None => eret tt
  end.

(** The merge [setState] performs on React's state. *)
Definition merge_state (ci : instance) (slice : jsval) : jsval :=
  JObj (assign_in (keys_in (ci_state ci)) [slice]).

(** [this.setState(nextState)]: merge into React's state, then the
    update cycle with the same props. *)
Definition setState (i : nat) (slice : jsval) : M unit :=
  o <- get_comp i ;;
  match o with
  | Some ci =>
      put_comp i (mkInstance (ci_props ci) (ci_nextState ci)
                    (merge_state ci slice)
                    (ci_mounted ci) (ci_unsubscribe ci)) ;;;
      log_bevent (ESetState i slice) ;;;
      update_props i (ci_props ci)
  | None => eret tt
  end.

(** The oldest [setTimeout] callback: [if (this.isMounted())
    this.setState(nextState)]. *)
Definition fire : M unit :=
  w <- eget ;;
  match b_timers w with
  | [] => eret tt
  | (i, slice) :: rest =>
      eput (mkBridge (b_store w) (b_listeners w) (b_next_sub w) (b_comps w) rest (b_log w)) ;;;
      o <- get_comp i ;;
      match o with
      | Some ci => if ci_mounted ci then setState i slice else eret tt
      | None => eret tt
      end
  end.

(** A store change: the new state, then every listener of the snapshot
    taken before the loop, in subscription order; a listener that throws
    stops the loop, as in Redux's [dispatch]. *)
Definition notify (s' : St) : M unit :=
  w <- eget ;;
  eput (mkBridge s' (b_listeners w) (b_next_sub w) (b_comps w) (b_timers w) (b_log w)) ;;;
  eiter (fun l => listener l.2) (b_listeners w).

(** [componentWillUnmount()]: [if (this.unsubscribe) this.unsubscribe();]
    then React unmounts the instance. *)
Definition unmount (i : nat) : M unit :=
  o <- get_comp i ;;
  match o with
  | Some ci =>
      (match ci_unsubscribe ci with
       | Some sid =>
           emodify (fun w => mkBridge (b_store w) (filter (fun l => l.1 <> sid) (b_listeners w))
                                      (b_next_sub w) (b_comps w) (b_timers w) (b_log w))
       | None => eret tt
       end) ;;;
      put_comp i (mkInstance (ci_props ci) (ci_nextState ci) (ci_state ci) false (ci_unsubscribe ci))
  | None => eret tt
  end.

(** React's lifecycle as a step relation: mount a new instance, change
    the store, run the oldest timer callback, update or unmount a mounted
    instance.  A step that throws keeps the effects it performed. *)
Definition is_mounted (w : B) (i : nat) : Prop :=
  exists ci, b_comps w !! i = Some ci /\ ci_mounted ci = true.

Inductive bstep : B -> B -> Prop :=
| BMount i props w : b_comps w !! i = None -> bstep w (snd (mount i props w))
| BNotify s' w : bstep w (snd (notify s' w))
| BFire w : bstep w (snd (fire w))
| BProps i props w : is_mounted w i -> bstep w (snd (update_props i props w))
| BUnmount i w : is_mounted w i -> bstep w (snd (unmount i w)).

(** The event loop running [n] timer callbacks in order. *)
Fixpoint fire_all (n : nat) (w : B) : B :=
  match n with
  | 0 => w
  | S n => fire_all n (snd (fire w))
  end.

(** The bridge before any instance exists, over the store's state [s]. *)
Definition bridge_init (s : St) : B := mkBridge s [] 0 ∅ [] [].

(** The slice instance [j]'s listener selects in [w]. *)
Definition slice_of (w : B) (j : nat) : jsval :=
  match b_comps w !! j with
  | Some c => match check_slice (select (getState (b_store w)) (ci_props c)) with
              | Ret sl => sl
              | Throw _ => JObj []
              end
  | None => JObj []
  end.

(** ** The invariant

    Every listener of the store belongs to a mounted instance whose
    [this.unsubscribe] removes it. *)
Definition listener_ok (w : B) (l : nat * nat) : Prop :=
  exists ci, b_comps w !! l.2 = Some ci /\ ci_mounted ci = true /\ ci_unsubscribe ci = Some l.1.

Record bridge_wf (w : B) : Prop := {
  wf_ok : Forall (listener_ok w) (b_listeners w);
  wf_nodup : NoDup (b_listeners w).*1;
  wf_fresh : Forall (fun l => l.1 < b_next_sub w) (b_listeners w)
}.

(** The fields of an instance the invariant reads. *)
Definition sub_fields (ci : instance) : bool * option nat := (ci_mounted ci, ci_unsubscribe ci).

Definition unmounted (w : B) (i : nat) : Prop :=
  exists ci, b_comps w !! i = Some ci /\ ci_mounted ci = false.

(** The instance an event is about. *)
Definition bevent_inst (e : bevent) : nat :=
  match e with ESelect i | ESetState i _ | ERender i _ => i end.

(** ** How each method changes the bridge *)

Lemma selectState_run i gs props w :
  selectState i gs props w =
  (check_slice (select (gs (b_store w)) props),
   mkBridge (b_store w) (b_listeners w) (b_next_sub w) (b_comps w) (b_timers w)
            (b_log w ++ [ESelect i])).
Proof.
  unfold selectState, log_bevent. simpl_eff.
  destruct (select _ _) as [sl|e]; simpl; [by destruct is_plain_object|done].
Qed.

Lemma listener_run i w :
  listener i w =
  match b_comps w !! i with
  | Some ci =>
      match check_slice (select (getState (b_store w)) (ci_props ci)) with
      | Ret sl =>
          (Ret tt, mkBridge (b_store w) (b_listeners w) (b_next_sub w) (b_comps w)
                            (b_timers w ++ [(i, sl)]) (b_log w ++ [ESelect i]))
      | Throw e =>
          (Throw e, mkBridge (b_store w) (b_listeners w) (b_next_sub w) (b_comps w) (b_timers w)
                             (b_log w ++ [ESelect i]))
      end
  | None => (Ret tt, w)
  end.
Proof.
  unfold listener, get_comp. simpl_eff. destruct (b_comps w !! i); [|done].
  rewrite selectState_run. simpl. by destruct check_slice.
Qed.

Lemma mount_run i props w :
  snd (mount i props w) =
  match check_slice (select (getStateOnMount (b_store w)) props) with
  | Ret sl =>
    let sub := if subscribe then Some (b_next_sub w) else None in
    mkBridge (b_store w)
             (if subscribe then b_listeners w ++ [(b_next_sub w, i)] else b_listeners w)
             (if subscribe then S (b_next_sub w) else b_next_sub w)
             (<[i := mkInstance props sl (JObj []) true sub]> (b_comps w))
             (b_timers w) (b_log w ++ [ESelect i; ERender i (render_props sl props)])
  | Throw _ => mkBridge (b_store w) (b_listeners w) (b_next_sub w) (b_comps w) (b_timers w)
                        (b_log w ++ [ESelect i])
  end.
Proof.
  unfold mount, getInitialState, render, componentDidMount, get_comp, put_comp,
    set_comps, log_bevent.
  simpl_eff. rewrite selectState_run. simpl.
  destruct check_slice; [|done]. simpl.
  rewrite lookup_insert_eq. simpl. rewrite lookup_insert_eq. simpl.
  rewrite <-app_assoc. destruct subscribe; simpl_eff; by rewrite insert_insert_eq.
Qed.

Lemma mount_returns i props w sl :
  check_slice (select (getStateOnMount (b_store w)) props) = Ret sl ->
  fst (mount i props w) = Ret tt.
Proof.
  intros Hp. unfold mount, getInitialState, render, componentDidMount, get_comp, put_comp,
    set_comps, log_bevent.
  simpl_eff. rewrite selectState_run. simpl. rewrite Hp. simpl.
  rewrite lookup_insert_eq. simpl. rewrite lookup_insert_eq. simpl.
  destruct subscribe; by simpl_eff.
Qed.

Lemma update_props_run i p w ci :
  b_comps w !! i = Some ci ->
  snd (update_props i p w) =
  match check_slice (select (getState (b_store w)) p) with
  | Ret sl =>
    mkBridge (b_store w) (b_listeners w) (b_next_sub w)
             (<[i := mkInstance p sl (ci_state ci) (ci_mounted ci) (ci_unsubscribe ci)]> (b_comps w))
             (b_timers w) (b_log w ++ [ESelect i; ERender i (render_props sl p)])
  | Throw _ => mkBridge (b_store w) (b_listeners w) (b_next_sub w) (b_comps w) (b_timers w)
                        (b_log w ++ [ESelect i])
  end.
Proof.
  intros Hi.
  unfold update_props, shouldComponentUpdate, render, get_comp, put_comp, set_comps, log_bevent.
  simpl_eff. rewrite Hi. simpl. rewrite selectState_run. simpl.
  destruct check_slice; [|done]. simpl_eff.
  rewrite lookup_insert_eq. simpl. rewrite insert_insert_eq, lookup_insert_eq. simpl.
  by rewrite <-app_assoc.
Qed.

Lemma update_props_absent i p w :
  b_comps w !! i = None -> snd (update_props i p w) = w.
Proof.
  intros Hi. unfold update_props, shouldComponentUpdate, get_comp. simpl_eff.
  by rewrite !Hi.
Qed.

Lemma setState_run i slice w ci :
  b_comps w !! i = Some ci ->
  snd (setState i slice w) =
  match check_slice (select (getState (b_store w)) (ci_props ci)) with
  | Ret sl =>
    mkBridge (b_store w) (b_listeners w) (b_next_sub w)
             (<[i := mkInstance (ci_props ci) sl (merge_state ci slice) (ci_mounted ci)
                                (ci_unsubscribe ci)]> (b_comps w))
             (b_timers w) (b_log w ++ [ESetState i slice; ESelect i;
                                        ERender i (render_props sl (ci_props ci))])
  | Throw _ => mkBridge (b_store w) (b_listeners w) (b_next_sub w)
                (<[i := mkInstance (ci_props ci) (ci_nextState ci) (merge_state ci slice)
                                   (ci_mounted ci) (ci_unsubscribe ci)]> (b_comps w))
                (b_timers w) (b_log w ++ [ESetState i slice; ESelect i])
  end.
Proof.
  intros Hi. unfold setState, get_comp, put_comp, set_comps, log_bevent.
  simpl_eff. rewrite Hi. simpl.
  erewrite update_props_run by (simpl; apply lookup_insert_eq). simpl.
  destruct check_slice; simpl; by rewrite ?insert_insert_eq, <-!app_assoc.
Qed.

Lemma fire_run w :
  snd (fire w) =
  match b_timers w with
  | [] => w
  | (i, slice) :: rest =>
      let w1 := mkBridge (b_store w) (b_listeners w) (b_next_sub w) (b_comps w) rest (b_log w) in
      match b_comps w !! i with
      | Some ci => if ci_mounted ci then snd (setState i slice w1) else w1
      | None => w1
      end
  end.
Proof.
  unfold fire, get_comp. simpl_eff.
  destruct (b_timers w) as [|[i slice] rest]; [done|]. simpl_eff.
  destruct (b_comps w !! i) as [ci|]; [|done]. destruct (ci_mounted ci); [|done].
  simpl. by destruct setState.
Qed.

Lemma unmount_run i w ci :
  b_comps w !! i = Some ci ->
  snd (unmount i w) =
  mkBridge (b_store w)
           (match ci_unsubscribe ci with
            | Some sid => filter (fun l => l.1 <> sid) (b_listeners w)
            | None => b_listeners w
            end)
           (b_next_sub w)
           (<[i := mkInstance (ci_props ci) (ci_nextState ci) (ci_state ci) false
                              (ci_unsubscribe ci)]> (b_comps w))
           (b_timers w) (b_log w).
Proof.
  intros Hi. unfold unmount, get_comp, put_comp, set_comps. simpl_eff. rewrite Hi.
  by destruct (ci_unsubscribe ci); simpl_eff.
Qed.

(** A run of the listeners changes only the timers and the log, and logs
    select calls of the listeners' instances. *)
Lemma listeners_frame (ls : list (nat * nat)) w :
  let w' := snd (eiter (fun l => listener l.2) ls w) in
  b_store w' = b_store w /\ b_listeners w' = b_listeners w /\ b_next_sub w' = b_next_sub w /\
  b_comps w' = b_comps w /\
  exists new, b_log w' = b_log w ++ new /\ Forall (fun e => exists l, l ∈ ls /\ e = ESelect l.2) new.
Proof.
  revert w. induction ls as [|l ls IH]; intros w; simpl.
  { repeat split; auto. exists []. by rewrite app_nil_r. }
  unfold ebind. rewrite listener_run.
  destruct (b_comps w !! l.2) as [ci|] eqn:Hl.
  2:{ destruct (IH w) as (?&?&?&?&new&?&?). repeat split; auto. exists new.
      split; [done|]. eapply Forall_impl; [done|]. set_solver. }
  destruct (check_slice (select (getState (b_store w)) (ci_props ci))) as [sl|e]; simpl.
  - destruct (IH (mkBridge (b_store w) (b_listeners w) (b_next_sub w) (b_comps w)
                    (b_timers w ++ [(l.2, sl)])
                    (b_log w ++ [ESelect l.2]))) as (->&->&->&->&new&->&Hnew).
    repeat split; auto. exists (ESelect l.2 :: new). split; [simpl; by rewrite <-app_assoc|].
    constructor; [set_solver|]. eapply Forall_impl; [done|]. set_solver.
  - repeat split; auto. exists [ESelect l.2]. split; [done|]. constructor; set_solver.
Qed.

Lemma notify_run s' w :
  snd (notify s' w) =
  snd (eiter (fun l => listener l.2) (b_listeners w)
             (mkBridge s' (b_listeners w) (b_next_sub w) (b_comps w) (b_timers w) (b_log w))).
Proof. unfold notify. simpl_eff. by destruct eiter. Qed.

(** ** The invariant is preserved *)

Lemma bridge_wf_fields w w' :
  bridge_wf w -> b_listeners w' = b_listeners w -> b_next_sub w' = b_next_sub w ->
  (forall j, sub_fields <$> b_comps w' !! j = sub_fields <$> b_comps w !! j) ->
  bridge_wf w'.
Proof.
  intros [Hok Hnd Hfr] Hl Hn Hc. split; rewrite ?Hl, ?Hn; [|done|done].
  eapply Forall_impl; [exact Hok|]. intros [sid j] (ci&Hj&Hm&Hu). simpl in *.
  specialize (Hc j). rewrite Hj in Hc.
  destruct (b_comps w' !! j) as [ci'|] eqn:Hj'; simpl in Hc; [|done].
  unfold sub_fields in Hc. injection Hc as Hm' Hu'.
  exists ci'. split; [done|]. by rewrite Hm', Hu'.
Qed.

Lemma sub_fields_insert (m : gmap nat instance) i ci ci' :
  m !! i = Some ci -> sub_fields ci' = sub_fields ci ->
  forall j, sub_fields <$> <[i := ci']> m !! j = sub_fields <$> m !! j.
Proof.
  intros Hi Hf j. destruct (decide (i = j)) as [<-|].
  - by rewrite lookup_insert_eq, Hi; simpl; rewrite Hf.
  - by rewrite lookup_insert_ne.
Qed.

Lemma bridge_wf_log w l :
  bridge_wf w ->
  bridge_wf (mkBridge (b_store w) (b_listeners w) (b_next_sub w) (b_comps w) (b_timers w) l).
Proof. intros Hw. by eapply bridge_wf_fields. Qed.

Lemma setState_fields i slice w ci :
  b_comps w !! i = Some ci ->
  let w' := snd (setState i slice w) in
  b_listeners w' = b_listeners w /\ b_next_sub w' = b_next_sub w /\
  forall j, sub_fields <$> b_comps w' !! j = sub_fields <$> b_comps w !! j.
Proof.
  intros Hi. rewrite (setState_run _ _ _ _ Hi). cbv zeta.
  destruct check_slice; simpl; (split; [done|split; [done|]]); by eapply sub_fields_insert.
Qed.

Lemma update_props_fields i p w :
  let w' := snd (update_props i p w) in
  b_listeners w' = b_listeners w /\ b_next_sub w' = b_next_sub w /\
  forall j, sub_fields <$> b_comps w' !! j = sub_fields <$> b_comps w !! j.
Proof.
  destruct (b_comps w !! i) as [ci|] eqn:Hi; [|by rewrite update_props_absent].
  rewrite (update_props_run _ _ _ _ Hi). cbv zeta.
  destruct check_slice; simpl; (split; [done|split; [done|]]); [by eapply sub_fields_insert|done].
Qed.

Lemma listener_ok_insert_ne w w' i ci' l :
  listener_ok w l -> l.2 <> i -> b_comps w' = <[i := ci']> (b_comps w) -> listener_ok w' l.
Proof. intros (ci&?&?&?) ? Hc. exists ci. by rewrite Hc, lookup_insert_ne. Qed.

Lemma listener_ok_fresh w w' i ci' ls :
  b_comps w !! i = None -> b_comps w' = <[i := ci']> (b_comps w) ->
  Forall (listener_ok w) ls -> Forall (listener_ok w') ls.
Proof.
  intros Hi Hc Hls. eapply Forall_impl; [exact Hls|]. intros l Hl.
  eapply listener_ok_insert_ne; [done| |done]. intros <-. destruct Hl as (?&?&?). congruence.
Qed.

Lemma mount_wf i props w :
  b_comps w !! i = None -> bridge_wf w -> bridge_wf (snd (mount i props w)).
Proof.
  intros Hi [Hok Hnd Hfr]. rewrite mount_run. cbv zeta.
  destruct check_slice as [sl|e]; [|by apply bridge_wf_log].
  destruct subscribe; split; simpl.
  - apply Forall_app; split; [by eapply listener_ok_fresh|].
    constructor; [|done]. exists (mkInstance props sl (JObj []) true (Some (b_next_sub w))).
    simpl. by rewrite lookup_insert_eq.
  - rewrite fmap_app. apply NoDup_app. split_and!; [done| |by apply NoDup_singleton].
    intros n Hn Hn'. apply list_elem_of_singleton in Hn'. simpl in Hn'. subst n.
    apply list_elem_of_fmap in Hn as (l&Hl1&Hl).
    eapply Forall_forall in Hfr; [|exact Hl]. simpl in Hfr. rewrite Hl1 in Hfr. lia.
  - apply Forall_app; split; [|constructor; simpl; [lia|done]].
    eapply Forall_impl; [exact Hfr|]. simpl. lia.
  - by eapply listener_ok_fresh.
  - done.
  - done.
Qed.

Lemma notify_wf s' w : bridge_wf w -> bridge_wf (snd (notify s' w)).
Proof.
  intros Hw. rewrite notify_run.
  destruct (listeners_frame (b_listeners w)
              (mkBridge s' (b_listeners w) (b_next_sub w) (b_comps w) (b_timers w) (b_log w)))
    as (_&Hl&Hn&Hc&_).
  eapply bridge_wf_fields; [exact Hw|exact Hl|exact Hn|]. by rewrite Hc.
Qed.

Lemma fire_wf w : bridge_wf w -> bridge_wf (snd (fire w)).
Proof.
  intros Hw. rewrite fire_run.
  destruct (b_timers w) as [|[i slice] rest]; [done|].
  set (w1 := mkBridge (b_store w) (b_listeners w) (b_next_sub w) (b_comps w) rest (b_log w)).
  assert (Hw1 : bridge_wf w1) by (by eapply bridge_wf_fields).
  destruct (b_comps w !! i) as [ci|] eqn:Hi; [|done]. destruct (ci_mounted ci); [|done].
  destruct (setState_fields i slice w1 ci Hi) as (Hl&Hn&Hc).
  by eapply bridge_wf_fields.
Qed.

Lemma update_props_wf i p w : bridge_wf w -> bridge_wf (snd (update_props i p w)).
Proof.
  intros Hw. destruct (update_props_fields i p w) as (Hl&Hn&Hc). by eapply bridge_wf_fields.
Qed.

Lemma unmount_wf i w : bridge_wf w -> bridge_wf (snd (unmount i w)).
Proof.
  intros [Hok Hnd Hfr].
  destruct (b_comps w !! i) as [ci|] eqn:Hi.
  2:{ unfold unmount, get_comp. simpl_eff. by rewrite Hi. }
  rewrite (unmount_run _ _ _ Hi).
  assert (Hne : forall l, l ∈ b_listeners w ->
                (if ci_unsubscribe ci is Some sid then l.1 <> sid else True) -> l.2 <> i).
  { intros l Hl Hs <-. eapply Forall_forall in Hok as (cj&Hj&_&Hu); [|exact Hl].
    rewrite Hi in Hj. injection Hj as <-. rewrite Hu in Hs. done. }
  destruct (ci_unsubscribe ci) as [sid|] eqn:Hu; split; simpl.
  - apply Forall_forall. intros l (Hs&Hl)%list_elem_of_filter.
    eapply listener_ok_insert_ne; [by eapply Forall_forall| |done]. by apply Hne.
  - eapply sublist_NoDup; [exact Hnd|]. apply fmap_sublist, sublist_filter.
  - apply Forall_forall. intros l (_&Hl)%list_elem_of_filter.
    rewrite Forall_forall in Hfr. by apply Hfr.
  - apply Forall_forall. intros l Hl.
    eapply listener_ok_insert_ne; [by eapply Forall_forall| |done]. by apply Hne.
  - done.
  - done.
Qed.

Lemma bstep_wf w w' : bstep w w' -> bridge_wf w -> bridge_wf w'.
Proof.
  destruct 1; eauto using mount_wf, notify_wf, fire_wf, update_props_wf, unmount_wf.
Qed.

(** ** An unmounted instance stays quiet *)

Definition quiet (i : nat) (w w' : B) : Prop :=
  exists new, b_log w' = b_log w ++ new /\ Forall (fun e => bevent_inst e <> i) new.

Lemma quiet_refl i w : quiet i w w.
Proof. exists []. by rewrite app_nil_r. Qed.

Lemma quiet_same_log i w w' : b_log w' = b_log w -> quiet i w w'.
Proof. intros Hl. exists []. by rewrite Hl, app_nil_r. Qed.

Lemma quiet_trans i w1 w2 w3 : quiet i w1 w2 -> quiet i w2 w3 -> quiet i w1 w3.
Proof.
  intros (n1&H1&F1) (n2&H2&F2). exists (n1 ++ n2).
  rewrite H2, H1, app_assoc. split; [done|]. by apply Forall_app.
Qed.

Lemma quiet_log i w l j :
  j <> i -> Forall (fun e => bevent_inst e = j) l ->
  quiet i w (mkBridge (b_store w) (b_listeners w) (b_next_sub w) (b_comps w) (b_timers w)
                      (b_log w ++ l)).
Proof. intros Hj Hl. exists l. split; [done|]. eapply Forall_impl; [exact Hl|]. naive_solver. Qed.

Lemma mounted_unmounted_ne w i j : is_mounted w j -> unmounted w i -> j <> i.
Proof. intros (c&Hc&Hm) (d&Hd&Hn) <-. congruence. Qed.

Lemma unmounted_insert_ne w w' i j cj :
  unmounted w i -> j <> i -> b_comps w' = <[j := cj]> (b_comps w) -> unmounted w' i.
Proof. intros (ci&?&?) ? Hc. exists ci. by rewrite Hc, lookup_insert_ne. Qed.

Ltac quiet_events := eexists; split; [simpl; by rewrite <-?app_assoc|]; repeat constructor; simpl; auto.

Lemma bstep_quiet w w' i :
  bridge_wf w -> unmounted w i -> bstep w w' -> unmounted w' i /\ quiet i w w'.
Proof.
  intros Hw Hi Hs. destruct Hs as [j props w Hj|s' w|w|j p w Hj|j w Hj].
  - assert (j <> i) by (intros <-; destruct Hi as (?&?&?); congruence).
    rewrite mount_run. cbv zeta. destruct check_slice.
    + split; [by eapply unmounted_insert_ne|quiet_events].
    + split; [done|quiet_events].
  - rewrite notify_run.
    destruct (listeners_frame (b_listeners w)
                (mkBridge s' (b_listeners w) (b_next_sub w) (b_comps w) (b_timers w) (b_log w)))
      as (_&_&_&Hc&new&Hl&Hnew).
    split; [destruct Hi as (ci&?&?); exists ci; by rewrite Hc|].
    exists new. split; [done|]. eapply Forall_impl; [exact Hnew|].
    intros e (l&Hl'&->). simpl. eapply mounted_unmounted_ne; [|exact Hi].
    eapply Forall_forall in Hl'; [|apply Hw]. destruct Hl' as (c&?&?&?). by exists c.
  - rewrite fire_run. destruct (b_timers w) as [|[j slice] rest]; [split; [done|apply quiet_refl]|].
    cbv zeta.
    destruct (b_comps w !! j) as [cj|] eqn:Hj; [|split; [done|by apply quiet_same_log]].
    destruct (ci_mounted cj) eqn:Hm; [|split; [done|by apply quiet_same_log]].
    assert (j <> i) by (eapply mounted_unmounted_ne; [by exists cj|exact Hi]).
    rewrite (setState_run j slice _ cj); [|exact Hj]. cbv zeta. destruct check_slice;
      (split; [by eapply unmounted_insert_ne|quiet_events]).
  - assert (j <> i) by (by eapply mounted_unmounted_ne).
    destruct Hj as (cj&Hj&_). rewrite (update_props_run _ _ _ _ Hj). cbv zeta.
    destruct check_slice; [split; [by eapply unmounted_insert_ne|quiet_events]|].
    split; [done|quiet_events].
  - assert (j <> i) by (by eapply mounted_unmounted_ne).
    destruct Hj as (cj&Hj&_). rewrite (unmount_run _ _ _ Hj).
    split; [by eapply unmounted_insert_ne|by apply quiet_same_log].
Qed.

(** ** A store change reaches every subscriber *)

Definition selects_plain (w : B) (j : nat) : Prop :=
  exists c sl, b_comps w !! j = Some c /\
               check_slice (select (getState (b_store w)) (ci_props c)) = Ret sl.

Lemma listeners_run_plain (ls : list (nat * nat)) v :
  Forall (fun l => selects_plain v l.2) ls ->
  snd (eiter (fun l => listener l.2) ls v) =
  mkBridge (b_store v) (b_listeners v) (b_next_sub v) (b_comps v)
           (b_timers v ++ ((fun l => (l.2, slice_of v l.2)) <$> ls))
           (b_log v ++ ((fun l => ESelect l.2) <$> ls)).
Proof.
  revert v. induction ls as [|l ls IH]; intros v Hls.
  { simpl. rewrite !app_nil_r. by destruct v. }
  inversion Hls as [|? ? (c&sl&Hc&Hp) Hrest]; subst. simpl. unfold ebind.
  rewrite listener_run, Hc, Hp.
  rewrite IH; simpl; [|eapply Forall_impl; [exact Hrest|]; done].
  unfold slice_of at 2. rewrite Hc, Hp. by rewrite <-!app_assoc.
Qed.

Lemma fire_head v j sl rest c nx :
  b_timers v = (j, sl) :: rest -> b_comps v !! j = Some c -> ci_mounted c = true ->
  check_slice (select (getState (b_store v)) (ci_props c)) = Ret nx ->
  snd (fire v) =
  mkBridge (b_store v) (b_listeners v) (b_next_sub v)
           (<[j := mkInstance (ci_props c) nx (merge_state c sl) true (ci_unsubscribe c)]> (b_comps v))
           rest
           (b_log v ++ [ESetState j sl; ESelect j; ERender j (render_props nx (ci_props c))]).
Proof.
  intros Ht Hc Hm Hp. rewrite fire_run, Ht. cbv zeta. rewrite Hc, Hm.
  rewrite (setState_run j sl _ c); [|exact Hc]. simpl. rewrite Hp. by rewrite Hm.
Qed.

Lemma mounted_plain_insert v v1 j0 c0 c1 t :
  b_store v1 = b_store v -> b_comps v !! j0 = Some c0 ->
  b_comps v1 = <[j0 := c1]> (b_comps v) ->
  ci_props c1 = ci_props c0 -> ci_mounted c1 = true ->
  is_mounted v t /\ selects_plain v t -> is_mounted v1 t /\ selects_plain v1 t.
Proof.
  intros Hs Hc0 Hc Hp Hm [(c&Hct&Hmt) (c'&sl&Hct'&Hpt)]. rewrite Hct in Hct'. injection Hct' as <-.
  unfold is_mounted, selects_plain. rewrite Hc, Hs.
  destruct (decide (j0 = t)) as [<-|Hne].
  - rewrite lookup_insert_eq. rewrite Hc0 in Hct. injection Hct as <-.
    split; [exists c1|exists c1, sl]; by rewrite ?Hp.
  - rewrite lookup_insert_ne by done. split; [exists c|exists c, sl]; auto.
Qed.

Lemma fire_all_spec (ts : list (nat * jsval)) v :
  b_timers v = ts ->
  Forall (fun t => is_mounted v t.1 /\ selects_plain v t.1) ts ->
  let v' := fire_all (List.length ts) v in
  b_timers v' = [] /\ b_store v' = b_store v /\
  forall j c, b_comps v !! j = Some c ->
    exists c', b_comps v' !! j = Some c' /\ ci_props c' = ci_props c /\
               ci_mounted c' = ci_mounted c /\
               if decide (j ∈ ts.*1)
               then check_slice (select (getState (b_store v)) (ci_props c)) = Ret (ci_nextState c')
               else ci_nextState c' = ci_nextState c.
Proof.
  revert v. induction ts as [|[j0 sl] rest IH]; intros v Ht Hts; simpl.
  { split; [done|split; [done|]]. intros j c Hc. exists c.
    by split_and!. }
  inversion Hts as [|? ? [(c0&Hc0&Hm0) (c0'&nx&Hc0'&Hp0)] Hrest]; subst.
  rewrite Hc0 in Hc0'. injection Hc0' as <-. simpl in *.
  rewrite (fire_head v j0 sl rest c0 nx Ht Hc0 Hm0 Hp0).
  set (c1 := mkInstance (ci_props c0) nx (merge_state c0 sl) true (ci_unsubscribe c0)).
  destruct (IH (mkBridge (b_store v) (b_listeners v) (b_next_sub v) (<[j0 := c1]> (b_comps v))
                 rest (b_log v ++ [ESetState j0 sl; ESelect j0;
                                   ERender j0 (render_props nx (ci_props c0))])))
    as (Hnil&Hst&Hcs); [done| |].
  { eapply Forall_impl; [exact Hrest|]. intros t.
    by eapply (mounted_plain_insert v _ j0 c0 c1). }
  split; [done|split; [done|]]. intros j c Hc. simpl in Hst.
  destruct (decide (j = j0)) as [->|Hne].
  - rewrite Hc0 in Hc. injection Hc as <-.
    destruct (Hcs j0 c1) as (c'&Hc'&Hp'&Hm'&Hn'); [by simpl; rewrite lookup_insert_eq|].
    exists c'. simpl in *. split_and!; [done|done|congruence|].
    rewrite decide_True by set_solver. case_decide; [done|by rewrite Hn'].
  - destruct (Hcs j c) as (c'&Hc'&Hp'&Hm'&Hn'); [by simpl; rewrite lookup_insert_ne|].
    exists c'. simpl in Hn'. split_and!; [done|done|done|].
    repeat case_decide; first [done | set_solver].
Qed.

(** ** The bridge's properties *)

(** C6: The subscription invariant holds in every bridge React's
    lifecycle can reach: each store listener belongs to a mounted
    instance whose [this.unsubscribe] is that listener's subscription,
    subscription ids are distinct and below the next one to allocate. *)
Theorem reachable_bridge_wf s w : rtc bstep (bridge_init s) w -> bridge_wf w.
Proof.
  intros Hr. eapply (rtc_ind_r bridge_wf); [| |exact Hr].
  - split; constructor.
  - intros w1 w2 _ Hs IH. by eapply bstep_wf.
Qed.

(** C3: Spec section 5, "it updates the consumer only if the consumer is
    still active": once an instance is unmounted, no run of the lifecycle
    selects for it, sets its state or renders it again, although timer
    callbacks queued before the unmount may still fire. *)
Theorem unmounted_stays_quiet w w' i :
  bridge_wf w -> unmounted w i -> rtc bstep w w' -> unmounted w' i /\ quiet i w w'.
Proof.
  intros Hw Hi Hr. revert Hw Hi. induction Hr as [w|w1 w2 w3 Hs _ IH]; intros Hw Hi.
  - split; [done|apply quiet_refl].
  - destruct (bstep_quiet w1 w2 i Hw Hi Hs) as [Hi2 Hq12].
    destruct (IH (bstep_wf _ _ Hs Hw) Hi2) as [Hi3 Hq23].
    split; [done|by eapply quiet_trans].
Qed.

Lemma fst_equal_length_le1 (ls : list (nat * nat)) sid :
  NoDup ls.*1 -> Forall (fun l => l.1 = sid) ls -> List.length ls <= 1.
Proof.
  destruct ls as [|l1 [|l2 ls]]; simpl; [lia|lia|].
  intros Hnd Hs. inversion Hs as [|? ? H1 Hs']; inversion Hs' as [|? ? H2 _]; subst.
  apply NoDup_cons in Hnd as [Hnd _]. rewrite H2 in Hnd. set_solver.
Qed.

(** Every instance is subscribed to the store at most once:
    [componentDidMount] subscribes one listener, and nothing else does. *)
Lemma subscribed_at_most_once w i :
  bridge_wf w -> List.length (filter (fun l => l.2 = i) (b_listeners w)) <= 1.
Proof.
  intros [Hok Hnd _].
  destruct (b_comps w !! i) as [ci|] eqn:Hi.
  - apply (fst_equal_length_le1 _ (default 0 (ci_unsubscribe ci))).
    + eapply sublist_NoDup; [exact Hnd|]. apply fmap_sublist, sublist_filter.
    + apply Forall_forall. intros l (<-&Hl)%list_elem_of_filter.
      eapply Forall_forall in Hok as (cj&Hj&_&Hu); [|exact Hl]. rewrite Hi in Hj.
      injection Hj as <-. by rewrite Hu.
  - destruct (filter _ _) as [|l ls] eqn:Hf; [simpl; lia|]. exfalso.
    assert (Hl : l ∈ filter (fun l => l.2 = i) (b_listeners w)) by (rewrite Hf; left).
    apply list_elem_of_filter in Hl as (<-&Hl).
    eapply Forall_forall in Hok as (cj&Hj&_); [|exact Hl]. congruence.
Qed.

(** C23: Spec section 5, "on deactivation, the Bridge unsubscribes":
    after [componentWillUnmount] no listener of the store belongs to the
    instance. *)
Theorem unmount_unsubscribes w i :
  bridge_wf w -> is_mounted w i -> forall l, l ∈ b_listeners (snd (unmount i w)) -> l.2 <> i.
Proof.
  intros Hw (ci&Hi&_) l Hl <-.
  destruct (unmount_wf l.2 w Hw) as [Hok _ _].
  eapply Forall_forall in Hok as (cj&Hj&Hm&_); [|exact Hl].
  rewrite (unmount_run _ _ _ Hi) in Hj. simpl in Hj. rewrite lookup_insert_eq in Hj.
  injection Hj as <-. done.
Qed.

Lemma notify_plain s' w :
  Forall (fun l => exists c sl, b_comps w !! l.2 = Some c /\
                                check_slice (select (getState s') (ci_props c)) = Ret sl)
         (b_listeners w) ->
  let v0 := mkBridge s' (b_listeners w) (b_next_sub w) (b_comps w) (b_timers w) (b_log w) in
  snd (notify s' w) =
  mkBridge s' (b_listeners w) (b_next_sub w) (b_comps w)
           (b_timers w ++ ((fun l => (l.2, slice_of v0 l.2)) <$> b_listeners w))
           (b_log w ++ ((fun l => ESelect l.2) <$> b_listeners w)).
Proof. intros Hp. rewrite notify_run. by rewrite listeners_run_plain. Qed.

(** A store change followed by the timer callbacks it queued. *)
Lemma notify_fire_all w s' :
  bridge_wf w -> b_timers w = [] ->
  Forall (fun l => exists c sl, b_comps w !! l.2 = Some c /\
                                check_slice (select (getState s') (ci_props c)) = Ret sl)
         (b_listeners w) ->
  let w' := fire_all (List.length (b_listeners w)) (snd (notify s' w)) in
  b_timers w' = [] /\
  forall l c, l ∈ b_listeners w -> b_comps w !! l.2 = Some c ->
    exists c', b_comps w' !! l.2 = Some c' /\ ci_props c' = ci_props c /\
               check_slice (select (getState s') (ci_props c)) = Ret (ci_nextState c').
Proof.
  intros [Hok _ _] Ht Hp. cbv zeta. rewrite (notify_plain s' w Hp), Ht. simpl.
  set (ts := (fun l => (l.2, _)) <$> b_listeners w).
  replace (List.length (b_listeners w)) with (List.length ts) by (unfold ts; by rewrite length_fmap).
  destruct (fire_all_spec ts (mkBridge s' (b_listeners w) (b_next_sub w) (b_comps w) ts
              (b_log w ++ ((fun l => ESelect l.2) <$> b_listeners w)))) as (Hnil&Hst&Hcs);
    [done| |].
  { apply Forall_fmap, Forall_forall. intros l Hl. simpl.
    eapply Forall_forall in Hok as (c&Hc&Hm&_); [|exact Hl].
    eapply Forall_forall in Hp as (c'&sl&Hc'&Hpl); [|exact Hl].
    rewrite Hc in Hc'. injection Hc' as <-.
    split; [by exists c|by exists c, sl]. }
  split; [done|]. intros l c Hl Hc.
  destruct (Hcs l.2 c Hc) as (c'&Hc'&Hprops&_&Hn). exists c'. split_and!; [done|done|].
  rewrite decide_True in Hn; [exact Hn|]. apply list_elem_of_fmap. exists (l.2, slice_of
    (mkBridge s' (b_listeners w) (b_next_sub w) (b_comps w) [] (b_log w)) l.2).
  split; [done|]. apply list_elem_of_fmap. by exists l.
Qed.

(** C4: Spec section 5, liveness: after a store change, once the timer
    callbacks the listeners queued have run, every subscribed instance
    whose [select] returns a plain object on the new state holds that
    object as [this.nextState], the props its decorated component is
    rendered with. *)
Theorem store_change_reaches_subscribers w s' :
  bridge_wf w -> b_timers w = [] ->
  Forall (fun l => exists c sl, b_comps w !! l.2 = Some c /\
                                check_slice (select (getState s') (ci_props c)) = Ret sl)
         (b_listeners w) ->
  let w' := fire_all (List.length (b_listeners w)) (snd (notify s' w)) in
  b_timers w' = [] /\
  forall l c, l ∈ b_listeners w -> b_comps w !! l.2 = Some c ->
    exists c', b_comps w' !! l.2 = Some c' /\ ci_props c' = ci_props c /\
               check_slice (select (getState s') (ci_props c)) = Ret (ci_nextState c').
Proof. apply notify_fire_all. Qed.

(** C22: A finding against spec section 5, "each store notification
    triggers at most one derived-state recomputation": with one
    subscribed instance, a store change calls [select] twice, once in the
    listener and once more in [shouldComponentUpdate] when the deferred
    [setState] re-renders, before the instance renders the new slice. *)
Theorem store_change_selects_twice w s' sid i c sl :
  bridge_wf w -> b_listeners w = [(sid, i)] -> b_timers w = [] -> b_comps w !! i = Some c ->
  check_slice (select (getState s') (ci_props c)) = Ret sl ->
  b_log (snd (fire (snd (notify s' w)))) =
  b_log w ++ [ESelect i; ESetState i sl; ESelect i; ERender i (render_props sl (ci_props c))].
Proof.
  intros [Hok _ _] Hl Ht Hc Hp.
  rewrite Hl in Hok. inversion Hok as [|? ? (c'&Hc'&Hm&_) _]; subst. simpl in Hc'.
  rewrite Hc in Hc'. injection Hc' as <-.
  rewrite notify_plain; [|rewrite Hl; constructor; [by exists c, sl|done]].
  rewrite Hl, Ht. unfold slice_of. simpl. rewrite Hc, Hp.
  erewrite fire_head; [|reflexivity|exact Hc|exact Hm|exact Hp]. simpl.
  by rewrite <-app_assoc.
Qed.

(** C25: Spec section 7, [InvariantViolation]: when [select] throws, or
    returns anything but a plain object, at mount ([check_slice] gives
    the exception: [select]'s own, or the [Invariant Violation] error
    naming the value), mounting throws it and no instance is created;
    only the select call happened. *)
Theorem mount_rejects_non_object i props w e :
  check_slice (select (getStateOnMount (b_store w)) props) = Throw e ->
  mount i props w =
  (Throw e,
   mkBridge (b_store w) (b_listeners w) (b_next_sub w) (b_comps w) (b_timers w)
            (b_log w ++ [ESelect i])).
Proof.
  intros Hp. unfold mount, getInitialState. simpl_eff.
  rewrite selectState_run. simpl. by rewrite Hp.
Qed.

(** C16: Mounting, on every branch of [componentDidMount]: with a plain
    object as the selection, the instance holds it as [this.nextState]
    with an empty React state, renders once with it, is mounted, and is
    subscribed to the store, under the next subscription id, exactly when
    [options.subscribe] is set. *)
Theorem mount_subscribes_iff_option i props w sl :
  check_slice (select (getStateOnMount (b_store w)) props) = Ret sl ->
  let w' := snd (mount i props w) in
  b_comps w' !! i = Some (mkInstance props sl (JObj []) true
                            (if subscribe then Some (b_next_sub w) else None)) /\
  b_listeners w' = b_listeners w ++ (if subscribe then [(b_next_sub w, i)] else []) /\
  b_log w' = b_log w ++ [ESelect i; ERender i (render_props sl props)].
Proof.
  intros Hp. cbv zeta. rewrite mount_run, Hp. simpl.
  rewrite lookup_insert_eq. destruct subscribe; by rewrite ?app_nil_r.
Qed.
(** ** The timer queue: bounded and drained *)

(** The instances React considers mounted. *)
Definition mounted_ids (w : B) : list nat :=
  (filter (fun kv => ci_mounted kv.2 = true) (map_to_list (b_comps w))).*1.

Lemma fire_timers w : b_timers (snd (fire w)) = tail (b_timers w).
Proof.
  rewrite fire_run. destruct (b_timers w) as [|[i sl] rest] eqn:Ht; [simpl; by rewrite Ht|]. cbv zeta.
  destruct (b_comps w !! i) as [ci|] eqn:Hi; [|done]. destruct (ci_mounted ci); [|done].
  erewrite setState_run; [|exact Hi]. by destruct check_slice.
Qed.

Lemma listeners_timers (ls : list (nat * nat)) w :
  List.length (b_timers (snd (eiter (fun l => listener l.2) ls w))) <=
  List.length (b_timers w) + List.length ls.
Proof.
  revert w. induction ls as [|l ls IH]; intros w; simpl; [lia|].
  unfold ebind. rewrite listener_run.
  destruct (b_comps w !! l.2) as [ci|]; [|specialize (IH w); lia].
  destruct check_slice as [sl|e]; simpl; [|lia].
  specialize (IH (mkBridge (b_store w) (b_listeners w) (b_next_sub w) (b_comps w)
                           (b_timers w ++ [(l.2, sl)]) (b_log w ++ [ESelect l.2]))).
  simpl in IH. rewrite length_app in IH. simpl in IH. lia.
Qed.

(** In a well-formed bridge the listeners belong to distinct mounted
    instances. *)
Lemma listeners_mounted w :
  bridge_wf w -> List.length (b_listeners w) <= List.length (mounted_ids w).
Proof.
  intros [Hok Hnd _]. rewrite <-(length_fmap snd (b_listeners w)).
  apply submseteq_length, NoDup_submseteq.
  - apply NoDup_snd_of_fst; [done|]. intros x y Hx Hy Hxy.
    eapply Forall_forall in Hok as Hx'; [|exact Hx]. destruct Hx' as (c&Hc&_&Hu).
    eapply Forall_forall in Hok as Hy'; [|exact Hy]. destruct Hy' as (c'&Hc'&_&Hu').
    rewrite Hxy, Hc' in Hc. injection Hc as ->. congruence.
  - intros j (l & -> & Hl)%list_elem_of_fmap.
    eapply Forall_forall in Hok as (c&Hc&Hm&_); [|exact Hl].
    apply list_elem_of_fmap. exists (l.2, c). split; [done|].
    apply list_elem_of_filter. split; [done|]. by apply elem_of_map_to_list.
Qed.

(** C10: Spec section 4.3, "at most one consumer update" per notification:
    in a well-formed bridge a store change queues at most one [setState]
    callback per mounted instance, whatever [select] returns or throws. *)
Theorem notify_timers_bounded w s' :
  bridge_wf w ->
  List.length (b_timers (snd (notify s' w))) <= List.length (b_timers w) + List.length (mounted_ids w).
Proof.
  intros Hw. rewrite notify_run.
  pose proof (listeners_timers (b_listeners w)
                (mkBridge s' (b_listeners w) (b_next_sub w) (b_comps w) (b_timers w) (b_log w))).
  pose proof (listeners_mounted w Hw). simpl in *. lia.
Qed.

(** With a [getState] that does not dispatch, a timer callback never
    queues another one, so any number of [fire] steps at least the length
    of the queue empties it.  (A [getState] that fires actions, as the
    comment of lines 88-93 describes, re-runs the listeners from inside
    [shouldComponentUpdate]; that is outside this model.) *)
Lemma timers_drain n w : List.length (b_timers w) <= n -> b_timers (fire_all n w) = [].
Proof.
  revert w. induction n as [|n IH]; intros w Hn; simpl.
  - destruct (b_timers w); [done|simpl in Hn; lia].
  - apply IH. rewrite fire_timers. destruct (b_timers w); simpl in *; lia.
Qed.

End Connect.

(** ** Decision procedures for the invariant, for concrete bridges *)

#[export] Instance listener_ok_dec {St} (w : bridge St) l : Decision (listener_ok w l).
Proof.
  unfold listener_ok. destruct (b_comps w !! l.2) as [ci|].
  - destruct (decide (ci_mounted ci = true /\ ci_unsubscribe ci = Some l.1)) as [H|H];
      [left; eauto|right; naive_solver].
  - right. naive_solver.
Defined.

#[export] Instance bridge_wf_dec {St} (w : bridge St) : Decision (bridge_wf w).
Proof.
  destruct (decide (Forall (listener_ok w) (b_listeners w))) as [H1|H1];
    [|right; by intros []].
  destruct (decide (NoDup (b_listeners w).*1)) as [H2|H2]; [|right; by intros []].
  destruct (decide (Forall (fun l => l.1 < b_next_sub w) (b_listeners w))) as [H3|H3];
    [left; by split|right; by intros []].
Defined.

#[export] Instance is_mounted_dec {St} (w : bridge St) i : Decision (is_mounted w i).
Proof.
  unfold is_mounted. destruct (b_comps w !! i) as [ci|].
  - destruct (decide (ci_mounted ci = true)); [left; eauto|right; naive_solver].
  - right. naive_solver.
Defined.

#[export] Instance unmounted_dec {St} (w : bridge St) i : Decision (unmounted w i).
Proof.
  unfold unmounted. destruct (b_comps w !! i) as [ci|].
  - destruct (decide (ci_mounted ci = false)); [left; eauto|right; naive_solver].
  - right. naive_solver.
Defined.

(** ** Fixtures: a todo list selected by two instances *)

Definition todo_state : jsval := JObj [("todos", JArr [JStr "write spec"])].
Definition todo_state' : jsval := JObj [("todos", JArr [JStr "write spec"; JStr "prove it"])].

(** A [getState] reading the state's property [key]. *)
Definition fixture_getState (st : jsval) (key : string) (params options : jsval) : jsval :=
  get_prop st key.

Definition todo_select (gs : string -> jsval -> jsval -> jsval) (props : jsval)
  : outcome jsval jsval :=
  Ret (JObj [("todos", gs "todos" (JObj []) (JObj []))]).

(** A selector returning the array itself, not an object. *)
Definition array_select (gs : string -> jsval -> jsval -> jsval) (props : jsval)
  : outcome jsval jsval :=
  Ret (gs "todos" (JObj []) (JObj [])).

Definition mounted_bridge : bridge jsval :=
  snd (mount fixture_getState todo_select true 0 (JObj []) (bridge_init todo_state)).

Definition two_mounted : bridge jsval :=
  snd (mount fixture_getState todo_select true 1 (JObj []) mounted_bridge).

Definition one_unmounted : bridge jsval := snd (unmount 0 two_mounted).

Definition after_change : bridge jsval :=
  snd (fire fixture_getState todo_select
            (snd (notify fixture_getState todo_select todo_state' one_unmounted))).

Definition mounted_instance : instance :=
  mkInstance (JObj []) (JObj [("todos", JArr [JStr "write spec"])]) (JObj []) true (Some 0).

(** ** The findings on the decorator's helpers *)

(** [getStateOnMount] builds its options with [_.assign({}, options,
    {force: options.forceFetchOnMount})]: during mount the [force] the
    selector passes is always replaced by its [forceFetchOnMount]. *)
Lemma mount_options_force fs :
  obj_wf fs -> get_prop (mount_options (JObj fs)) "force" = assoc_get fs "forceFetchOnMount".
Proof.
  intros Hfs. unfold mount_options. simpl truthy. cbv iota.
  rewrite get_prop_assign2 by (done || by apply NoDup_singleton).
  rewrite decide_True by set_solver. reflexivity.
Qed.

(** C31: A finding.  [render] passes [_.assign({ref: 'decoratedComponent'},
    this.nextState, this.props)]: a prop the parent passes hides the key of
    the same name in the selected state, so the store's data never reaches
    the decorated component under that name. *)
Theorem render_props_precedence a b k :
  obj_wf a -> obj_wf b ->
  get_prop (render_props (JObj a) (JObj b)) k =
  if decide (k ∈ b.*1) then assoc_get b k
  else if decide (k ∈ a.*1) then assoc_get a k
  else if String.eqb k "ref" then JStr "decoratedComponent" else JUndef.
Proof. intros Ha Hb. unfold render_props. by rewrite get_prop_assign2. Qed.

(** ** Witnesses *)

Lemma reachable_bridge_wf_witness :
  rtc (bstep fixture_getState todo_select true) (bridge_init todo_state) two_mounted /\
  bridge_wf two_mounted.
Proof.
  assert (H : rtc (bstep fixture_getState todo_select true) (bridge_init todo_state) two_mounted).
  { apply (rtc_l _ _ mounted_bridge); [apply BMount; reflexivity|].
    apply rtc_once. apply BMount. vm_compute. reflexivity. }
  split; [exact H|]. exact (reachable_bridge_wf _ _ _ _ _ H).
Defined.

Lemma unmounted_stays_quiet_witness :
  bridge_wf one_unmounted /\ unmounted one_unmounted 0 /\
  rtc (bstep fixture_getState todo_select true) one_unmounted after_change /\
  unmounted after_change 0 /\ quiet 0 one_unmounted after_change.
Proof.
  assert (Hw : bridge_wf one_unmounted) by (apply (bool_decide_unpack _); vm_compute; reflexivity).
  assert (Hu : unmounted one_unmounted 0) by (apply (bool_decide_unpack _); vm_compute; reflexivity).
  assert (Hr : rtc (bstep fixture_getState todo_select true) one_unmounted after_change).
  { eapply rtc_l; [apply (BNotify _ _ _ todo_state')|]. apply rtc_once, BFire. }
  split_and!; [exact Hw|exact Hu|exact Hr|..];
    apply (unmounted_stays_quiet fixture_getState todo_select true _ _ 0 Hw Hu Hr).
Defined.
Lemma unmount_unsubscribes_witness :
  bridge_wf two_mounted /\ is_mounted two_mounted 0 /\
  forall l, l ∈ b_listeners (snd (unmount 0 two_mounted)) -> l.2 <> 0.
Proof.
  assert (Hw : bridge_wf two_mounted) by (apply (bool_decide_unpack _); vm_compute; reflexivity).
  assert (Hm : is_mounted two_mounted 0) by (apply (bool_decide_unpack _); vm_compute; reflexivity).
  split_and!; [exact Hw|exact Hm|]. exact (unmount_unsubscribes two_mounted 0 Hw Hm).
Defined.

Lemma store_change_reaches_subscribers_witness :
  let w' := fire_all fixture_getState todo_select 2
              (snd (notify fixture_getState todo_select todo_state' two_mounted)) in
  b_timers w' = [] /\
  forall l c, l ∈ b_listeners two_mounted -> b_comps two_mounted !! l.2 = Some c ->
    exists c', b_comps w' !! l.2 = Some c' /\ ci_props c' = ci_props c /\
               check_slice (todo_select (fixture_getState todo_state') (ci_props c)) =
               Ret (ci_nextState c').
Proof.
  assert (Hw : bridge_wf two_mounted) by (apply (bool_decide_unpack _); vm_compute; reflexivity).
  apply (store_change_reaches_subscribers fixture_getState todo_select two_mounted todo_state' Hw).
  - reflexivity.
  - vm_compute. repeat constructor; eexists _, _; split; reflexivity.
Defined.

Lemma store_change_selects_twice_witness :
  b_comps mounted_bridge !! 0 = Some mounted_instance /\
  b_log (snd (fire fixture_getState todo_select
                   (snd (notify fixture_getState todo_select todo_state' mounted_bridge)))) =
  b_log mounted_bridge ++
  [ESelect 0; ESetState 0 (JObj [("todos", get_prop todo_state' "todos")]); ESelect 0;
   ERender 0 (render_props (JObj [("todos", get_prop todo_state' "todos")]) (JObj []))].
Proof.
  assert (Hc : b_comps mounted_bridge !! 0 = Some mounted_instance) by (vm_compute; reflexivity).
  split; [exact Hc|].
  apply (store_change_selects_twice fixture_getState todo_select mounted_bridge todo_state' 0 0
           mounted_instance (JObj [("todos", get_prop todo_state' "todos")])); [apply (bool_decide_unpack _); vm_compute; reflexivity
                              |reflexivity|reflexivity|exact Hc|reflexivity].
Defined.

Lemma mount_rejects_non_object_witness :
  mount fixture_getState array_select true 0 (JObj []) (bridge_init todo_state) =
  (Throw (invariant_error (JArr [JStr "write spec"])),
   mkBridge todo_state [] 0 ∅ [] [ESelect 0]).
Proof. exact (mount_rejects_non_object fixture_getState array_select true 0 (JObj [])
                (bridge_init todo_state) _ eq_refl). Defined.

Lemma render_props_precedence_witness :
  get_prop (render_props (JObj [("title", JStr "from store")]) (JObj [("title", JStr "from parent")]))
           "title" = JStr "from parent".
Proof.
  rewrite (render_props_precedence [("title", JStr "from store")] [("title", JStr "from parent")]
             "title" ltac:(apply NoDup_singleton) ltac:(apply NoDup_singleton)).
  reflexivity.
Defined.

Lemma mount_subscribes_iff_option_witness :
  let w' := snd (mount fixture_getState todo_select true 0 (JObj []) (bridge_init todo_state)) in
  b_comps w' !! 0 = Some mounted_instance /\ b_listeners w' = [(0, 0)] /\
  b_log w' = [ESelect 0; ERender 0 (render_props (JObj [("todos", JArr [JStr "write spec"])])
                                                 (JObj []))].
Proof.
  exact (mount_subscribes_iff_option fixture_getState todo_select true 0 (JObj [])
           (bridge_init todo_state) _ eq_refl).
Defined.

Lemma notify_timers_bounded_witness :
  bridge_wf two_mounted /\
  List.length (b_timers (snd (notify fixture_getState todo_select todo_state' two_mounted))) <=
  List.length (b_timers two_mounted) + List.length (mounted_ids two_mounted).
Proof.
  assert (Hw : bridge_wf two_mounted) by (apply (bool_decide_unpack _); vm_compute; reflexivity).
  split; [exact Hw|]. exact (notify_timers_bounded fixture_getState todo_select two_mounted todo_state' Hw).
Defined.
