(* ===== verification/GetState.v ===== *)
(** * getState of lore-hook-connect, for a find

    connect.js builds [getState = _getState(actions, blueprints,
    reducerActionMap)] from ./getState.js, which is not in the repository;
    [Connect] proves the bridge for every [getState] that only reads the
    store.  This file models
    the part the spec describes (sections 3 and 4.3) for a find key: a view
    reads the query result cached under the key of [params.where] and
    [params.pagination], with the records it lists; a miss, or a read with
    [options.force], "routes through the Action Dispatcher's find rather
    than reading a cache hit": it runs the find thunk of [FindBlueprint]
    on the store ([fetchAll], with the store without subscribers of
    [Integration]) and reads what the optimistic dispatch left.

    Composed with [getStateOnMount] of connect.js, which replaces
    [options.force] by [options.forceFetchOnMount], this shows which
    option of a selector refetches on activation. *)

From S2P Require Import Prelude JsValue RecordStore FindBlueprint Integration Connect.
From Stdlib Require Import String.
#[local] Set Warnings "-clear-no-such-hyp".

(** ** What a view reads *)

Definition qstate_name (s : query_state) : string :=
  match s with QPENDING => "PENDING" | QRESOLVED => "RESOLVED" | QERROR => "ERROR" end.

(** A record of the query, by its server id, as its data. *)
Definition record_view (c : cache) (i : string) : jsval :=
  default JUndef (JObj ∘ data <$> byId c !! i).

(** A query result as the view reads it: its state, its records in order,
    its error. *)
Definition query_view (c : cache) (r : query_result) : jsval :=
  JObj [("state", JStr (qstate_name (qstate r))); ("data", JArr (record_view c <$> record_ids r));
        ("error", qerror r)].

Definition read_query (c : cache) (key : string) : jsval :=
  match find c !! key with Some r => query_view c r | None => JUndef end.

Section GetState.
Variable fr : find_reducer.
Variable fc : find_config.

(** The key of the query a find read names. *)
Definition params_key (params : jsval) : string :=
  find_key (get_prop params "where") (get_prop params "pagination").

(** Reading through the dispatcher: the find thunk runs, then the view
    reads the query result it left. *)
Definition getState_refetch (params : jsval) (w : world cache) : jsval * world cache :=
  let w' := snd (fetchAll (redux_dispatch fr) fc (get_prop params "where")
                          (get_prop params "pagination") w) in
  (read_query (w_store w') (params_key params), w').

(** [getState(state, '<model>.find', params, options)]: a cache hit is
    read unless [options.force] is truthy. *)
Definition getState_find (params options : jsval) (w : world cache) : jsval * world cache :=
  match find (w_store w) !! params_key params, truthy (get_prop options "force") with
  | Some r, false => (query_view (w_store w) r, w)
  | _, _ => getState_refetch params w
  end.

(** ** Lemmas *)

Lemma getState_hit params options w r :
  find (w_store w) !! params_key params = Some r -> truthy (get_prop options "force") = false ->
  getState_find params options w = (query_view (w_store w) r, w).
Proof. intros Hr Hf. unfold getState_find. by rewrite Hr, Hf. Qed.

Lemma getState_forced params options w :
  truthy (get_prop options "force") = true -> getState_find params options w = getState_refetch params w.
Proof. intros Hf. unfold getState_find. rewrite Hf. by destruct (_ !! _). Qed.

Lemma getState_miss params options w :
  find (w_store w) !! params_key params = None -> getState_find params options w = getState_refetch params w.
Proof. intros Hr. unfold getState_find. by rewrite Hr. Qed.

(** A refetch with an optimistic hook naming the pending state leaves an
    empty pending query for the view. *)
Lemma getState_refetch_pending params w h :
  optimistic (fc_options fc) = Some h -> actionType h = fr_type fr ->
  payloadState h = fr_pending fr ->
  fst (getState_refetch params w) = JObj [("state", JStr "PENDING"); ("data", JArr []); ("error", JNull)].
Proof.
  intros Hh Hty Hst. unfold getState_refetch, read_query, params_key. simpl.
  rewrite (fetchAll_store fr fc _ _ w h Hh). unfold optimisticAction.
  rewrite reduce_find_state by done. rewrite Hst, String.eqb_refl. simpl.
  by rewrite lookup_insert_eq.
Qed.

(** ** Refetching on activation *)

(** C30: A finding on spec section 4.3 ("a consumer may request
    force-refetch of its initial data on activation, which routes through
    the Action Dispatcher's find rather than reading a cache hit").  On a
    cache hit, what [getStateOnMount] reads for a selector whose options
    are [fs] depends on [fs.forceFetchOnMount] only: a truthy one refetches
    through find, anything else reads the hit, even when the selector
    passes [force: true].  The same options outside mount (the listener
    and [shouldComponentUpdate] call [getState] itself) refetch whenever
    [force] is truthy. *)
Theorem mount_force_ignored params fs w r :
  obj_wf fs -> find (w_store w) !! params_key params = Some r ->
  getState_find params (mount_options (JObj fs)) w =
    (if truthy (assoc_get fs "forceFetchOnMount") then getState_refetch params w
     else (query_view (w_store w) r, w)) /\
  (truthy (assoc_get fs "force") = true -> getState_find params (JObj fs) w = getState_refetch params w).
Proof.
  intros Hfs Hr. split.
  - destruct (truthy (assoc_get fs "forceFetchOnMount")) eqn:Hf.
    + apply getState_forced. by rewrite mount_options_force.
    + apply getState_hit; [done|]. by rewrite mount_options_force.
  - intros Hf. by apply getState_forced.
Qed.
End GetState.

(** ** Witnesses *)

(** A todo view whose selector passes [force: true] on the store holding
    the todo ['1']: at mount it reads the cached list and dispatches
    nothing; on a later read the same options refetch and read the empty
    pending result. *)
Lemma mount_force_ignored_witness :
  let fs := [("force", JBool true)] in
  let w := found_one in
  obj_wf fs /\
  find (w_store w) !! params_key (JObj []) = Some (mkQuery ["1"] QRESOLVED JNull) /\
  getState_find todo_reducer todo_find_config (JObj []) (mount_options (JObj fs)) w =
    (query_view (w_store w) (mkQuery ["1"] QRESOLVED JNull), w) /\
  fst (getState_find todo_reducer todo_find_config (JObj []) (JObj fs) w) =
    JObj [("state", JStr "PENDING"); ("data", JArr []); ("error", JNull)].
Proof.
  assert (Hfs : obj_wf [("force", JBool true)]) by apply NoDup_singleton.
  assert (Hr : find (w_store found_one) !! params_key (JObj []) = Some (mkQuery ["1"] QRESOLVED JNull))
    by (vm_compute; reflexivity).
  destruct (mount_force_ignored todo_reducer todo_find_config (JObj []) _ found_one _ Hfs Hr)
    as [Hm Hf].
  split_and!; [exact Hfs|exact Hr|exact Hm|].
  rewrite (Hf eq_refl). vm_compute. reflexivity.
Defined.
