(* ===== verification/Store.v ===== *)
(** * The Redux store: the find reducers and the bridge's subscribers

    Redux's [dispatch] runs the reducer on the action, then every listener
    of the store in subscription order; an exception of a listener leaves
    [dispatch] and stops the listeners after it.  With the reducers of
    [Integration] and the listeners of the connect bridge ([Connect]), the
    store is [store_dispatch], and the find blueprint ([FindBlueprint])
    dispatches into it.  This composes the three components along the
    control flow of the spec: the blueprint reconciles the cache, the
    bridge notices the change and pushes the new derived state to the
    subscribed components.

    The theorems follow one find settlement through the whole stack: when
    the subscribed components select plain objects, the fetched records,
    or the error of a failed fetch, reach them once the queued timer
    callbacks run; when a component's
    [select] throws, the exception leaves [dispatch] (after the listeners
    subscribed before it, and before the ones after it:
    [dispatch_listener_order]), the promise's
    [.catch] turns the successful fetch into an error action, and the
    components subscribed after it are never updated. *)

From S2P Require Import Prelude JsValue RecordStore FindBlueprint Integration Connect.
#[local] Set Warnings "-clear-no-such-hyp".

Section Store.
Variable fr : find_reducer.
Variable getState : cache -> string -> jsval -> jsval -> jsval.
Variable select : (string -> jsval -> jsval -> jsval) -> jsval -> outcome jsval jsval.

(** [store.dispatch(action)] of Redux's [createStore]: the new state is
    the reducer's, then each listener of the bridge runs. *)
Definition store_dispatch (a : jsval) (b : bridge cache) : outcome jsval unit * bridge cache :=
  notify getState select (reduce fr a (b_store b)) b.

(** ** How a dispatch runs *)

(** The first listener's [select] throws: the reduced state is kept, the
    exception leaves [dispatch], no listener queues an update. *)
Lemma store_dispatch_first_throws a b sid i rest ci e :
  b_listeners b = (sid, i) :: rest -> b_comps b !! i = Some ci ->
  check_slice (select (getState (reduce fr a (b_store b))) (ci_props ci)) = Throw e ->
  store_dispatch a b =
  (Throw e, mkBridge (reduce fr a (b_store b)) (b_listeners b) (b_next_sub b) (b_comps b)
                     (b_timers b) (b_log b ++ [ESelect i])).
Proof.
  intros Hl Hc Hs. unfold store_dispatch, notify. simpl_eff. rewrite Hl. simpl.
  unfold ebind. rewrite listener_run. simpl. rewrite Hc, Hs. simpl. by rewrite <-Hl.
Qed.

Lemma listeners_ret (ls : list (nat * nat)) v :
  Forall (fun l => selects_plain getState select v l.2) ls ->
  fst (eiter (fun l => listener getState select l.2) ls v) = Ret tt.
Proof.
  revert v. induction ls as [|l ls IH]; intros v Hls; [done|].
  inversion Hls as [|? ? (c&sl&Hc&Hsl) Hrest]; subst. simpl. unfold ebind.
  rewrite listener_run, Hc, Hsl. apply IH. eapply Forall_impl; [exact Hrest|]. done.
Qed.

(** Every listener selects a plain object on the reduced state: the
    dispatch returns. *)
Lemma store_dispatch_ret a b :
  Forall (fun l => exists c sl, b_comps b !! l.2 = Some c /\
            check_slice (select (getState (reduce fr a (b_store b))) (ci_props c)) = Ret sl)
         (b_listeners b) ->
  fst (store_dispatch a b) = Ret tt.
Proof.
  intros Hp. unfold store_dispatch, notify. simpl_eff.
  destruct (eiter _ _ _) as [o b'] eqn:He.
  pose proof (listeners_ret (b_listeners b)
                (mkBridge (reduce fr a (b_store b)) (b_listeners b) (b_next_sub b) (b_comps b)
                          (b_timers b) (b_log b)) Hp) as Ho.
  by rewrite He in Ho.
Qed.

(** The blueprint's [dispatch] into the store, when every listener
    selects a plain object on the reduced state. *)
Lemma dispatch_store_ret a (w : world (bridge cache)) :
  Forall (fun l => exists c sl, b_comps (w_store w) !! l.2 = Some c /\
            check_slice (select (getState (reduce fr a (b_store (w_store w)))) (ci_props c)) = Ret sl)
         (b_listeners (w_store w)) ->
  dispatch store_dispatch a w =
  (Ret a, mkWorld (snd (store_dispatch a (w_store w))) (w_log w ++ [EvDispatch a]) (w_uid w)).
Proof.
  intros Hp. pose proof (store_dispatch_ret a (w_store w) Hp) as Ho.
  destruct (store_dispatch a (w_store w)) as [o b'] eqn:Hd. simpl in Ho. subst o.
  by erewrite dispatch_run; [|exact Hd].
Qed.

(** The listeners before the throwing one, run on the reduced state. *)
Lemma listeners_prefix_run (pre : list (nat * nat)) v :
  Forall (fun l => selects_plain getState select v l.2) pre ->
  eiter (fun l => listener getState select l.2) pre v =
  (Ret tt, mkBridge (b_store v) (b_listeners v) (b_next_sub v) (b_comps v)
                    (b_timers v ++ ((fun l => (l.2, slice_of getState select v l.2)) <$> pre))
                    (b_log v ++ ((fun l => ESelect l.2) <$> pre))).
Proof.
  intros Hp. pose proof (listeners_ret pre v Hp) as Hf.
  pose proof (listeners_run_plain getState select pre v Hp) as Hs.
  destruct (eiter _ pre v). simpl in *. by subst.
Qed.

(** ** Ordering of the listeners *)

(** C13: C: Redux runs the store's listeners in subscription order, and an
    exception stops the ones after it: when the listeners subscribed
    before instance [i]'s select plain objects on the reduced state and
    [i]'s [select] throws [e], [dispatch] throws [e] with the reduced
    state stored, after exactly the earlier listeners have selected and
    queued their updates, in subscription order; [i] has selected and
    queued nothing, and the later listeners have not run. *)
Theorem dispatch_listener_order a b pre sid i post ci e :
  let s' := reduce fr a (b_store b) in
  let v0 := mkBridge s' (b_listeners b) (b_next_sub b) (b_comps b) (b_timers b) (b_log b) in
  b_listeners b = pre ++ (sid, i) :: post ->
  Forall (fun l => selects_plain getState select v0 l.2) pre ->
  b_comps b !! i = Some ci ->
  check_slice (select (getState s') (ci_props ci)) = Throw e ->
  store_dispatch a b =
  (Throw e, mkBridge s' (b_listeners b) (b_next_sub b) (b_comps b)
                     (b_timers b ++ ((fun l => (l.2, slice_of getState select v0 l.2)) <$> pre))
                     (b_log b ++ ((fun l => ESelect l.2) <$> pre) ++ [ESelect i])).
Proof.
  intros s' v0 Hl Hp Hc Hs. unfold store_dispatch, notify. simpl_eff. fold s' v0.
  rewrite Hl, eiter_app, <-Hl. unfold ebind at 1.
  rewrite listeners_prefix_run by exact Hp. simpl. unfold ebind.
  rewrite listener_run. simpl. rewrite Hc, Hs. simpl. by rewrite <-app_assoc.
Qed.

(** ** A find settlement through the whole stack *)

(** C11: Spec section 2's control flow, end to end: when a find's fetch
    succeeds and every subscribed component selects a plain object on the
    reconciled cache, the thunk dispatches the success action, the store
    holds the reconciled cache, and once the timer callbacks the
    notification queued have run, every subscribed component holds its
    selection of that cache as [this.nextState]. *)
Theorem find_success_reaches_view fc q p records (w : world (bridge cache)) h :
  onSuccess (fc_options fc) = Some h -> normalize (fc_options fc) = None ->
  bridge_wf (w_store w) -> b_timers (w_store w) = [] ->
  let a := successAction h (number_models (w_uid w) records) (combinedQuery (default_query q) p) in
  let st' := reduce fr a (b_store (w_store w)) in
  Forall (fun l => exists c sl, b_comps (w_store w) !! l.2 = Some c /\
                                check_slice (select (getState st') (ci_props c)) = Ret sl)
         (b_listeners (w_store w)) ->
  let w' := snd (settle store_dispatch fc q p (FetchOk records) w) in
  let v := fire_all getState select (List.length (b_listeners (w_store w))) (w_store w') in
  fst (settle store_dispatch fc q p (FetchOk records) w) = Ret tt /\
  dispatched (w_log w') = dispatched (w_log w) ++ [a] /\
  b_timers v = [] /\
  forall l c, l ∈ b_listeners (w_store w) -> b_comps (w_store w) !! l.2 = Some c ->
    exists c', b_comps v !! l.2 = Some c' /\ ci_props c' = ci_props c /\
               check_slice (select (getState st') (ci_props c)) = Ret (ci_nextState c').
Proof.
  intros Hh Hn Hwf Ht a st' Hp. cbv zeta.
  assert (Hs : settle store_dispatch fc q p (FetchOk records) w =
               (Ret tt, mkWorld (snd (store_dispatch a (w_store w))) (w_log w ++ [EvDispatch a])
                                (w_uid w + N.of_nat (length records)))).
  { unfold settle. simpl_eff. rewrite set_models_run. simpl. unfold onFetchSuccess.
    rewrite Hh, Hn. fold a. simpl_eff. by rewrite dispatch_store_ret. }
  rewrite Hs. simpl. split_and!; [done|by autorewrite with find_rw|..];
    apply (notify_fire_all getState select (w_store w) st' Hwf Ht Hp).
Qed.

(** C14: Spec section 7's error policy on the failure path: when a find's
    fetch fails and every subscribed component selects a plain object on
    the cache the error action leaves, the settlement raises nothing, the
    thunk dispatches the error action (carrying [response.data]), and once
    the queued timer callbacks have run every subscribed component holds
    its selection of that cache: the failure reaches the views as data. *)
Theorem find_error_reaches_view fc q p response (w : world (bridge cache)) herr :
  onError (fc_options fc) = Some herr ->
  bridge_wf (w_store w) -> b_timers (w_store w) = [] ->
  let a := errorAction herr [] (get_prop response "data") (combinedQuery (default_query q) p) in
  let st' := reduce fr a (b_store (w_store w)) in
  Forall (fun l => exists c sl, b_comps (w_store w) !! l.2 = Some c /\
                                check_slice (select (getState st') (ci_props c)) = Ret sl)
         (b_listeners (w_store w)) ->
  let w' := snd (settle store_dispatch fc q p (FetchFail response) w) in
  let v := fire_all getState select (List.length (b_listeners (w_store w))) (w_store w') in
  fst (settle store_dispatch fc q p (FetchFail response) w) = Ret tt /\
  dispatched (w_log w') = dispatched (w_log w) ++ [a] /\
  b_timers v = [] /\
  forall l c, l ∈ b_listeners (w_store w) -> b_comps (w_store w) !! l.2 = Some c ->
    exists c', b_comps v !! l.2 = Some c' /\ ci_props c' = ci_props c /\
               check_slice (select (getState st') (ci_props c)) = Ret (ci_nextState c').
Proof.
  intros Hh Hwf Ht a st' Hp. cbv zeta.
  assert (Hs : exists evs, settle store_dispatch fc q p (FetchFail response) w =
               (Ret tt, mkWorld (snd (store_dispatch a (w_store w)))
                                (w_log w ++ evs ++ [EvDispatch a]) (w_uid w)) /\
               dispatched evs = []).
  { unfold settle, onFetchError. rewrite Hh. fold a.
    exists (if beforeDispatch herr then [EvBeforeDispatch response [default_query q]] else []).
    destruct (beforeDispatch herr); unfold log_event; simpl_eff;
      rewrite dispatch_store_ret by exact Hp; simpl; (split; [|done]);
      by rewrite <-?app_assoc. }
  destruct Hs as (evs & -> & Hevs). simpl.
  split_and!; [done|by autorewrite with find_rw; rewrite Hevs|..];
    apply (notify_fire_all getState select (w_store w) st' Hwf Ht Hp).
Qed.

(** C12: A finding against the spec's error policy (failures reach the
    views "via normal data flow, never via exceptions, which keeps the
    Bridge and views free of exception-handling logic").  When the first
    subscribed component's [select] throws [e1] on the reconciled cache,
    the exception leaves Redux's [dispatch] of the success action;
    find.js's [.catch] then dispatches the error action, carrying
    [e1.data], for a fetch that succeeded.  When [select] throws [e2] on
    that state too, the settlement rejects with [e2].  The store holds the
    success and then the error reduction, and no component, the ones
    subscribed after it included, is updated. *)
Theorem view_error_fails_find fc q p records (w : world (bridge cache)) hsucc herr sid i rest ci e1 e2 :
  onSuccess (fc_options fc) = Some hsucc -> onError (fc_options fc) = Some herr ->
  normalize (fc_options fc) = None ->
  b_listeners (w_store w) = (sid, i) :: rest -> b_comps (w_store w) !! i = Some ci ->
  let cq := combinedQuery (default_query q) p in
  let models := number_models (w_uid w) records in
  let sa := successAction hsucc models cq in
  let ea := errorAction herr models (get_prop e1 "data") cq in
  let s1 := reduce fr sa (b_store (w_store w)) in
  select (getState s1) (ci_props ci) = Throw e1 ->
  select (getState (reduce fr ea s1)) (ci_props ci) = Throw e2 ->
  let w' := snd (settle store_dispatch fc q p (FetchOk records) w) in
  fst (settle store_dispatch fc q p (FetchOk records) w) = Throw e2 /\
  dispatched (w_log w') = dispatched (w_log w) ++ [sa; ea] /\
  b_store (w_store w') = reduce fr ea s1 /\
  b_timers (w_store w') = b_timers (w_store w).
Proof.
  intros Hsucc Herr Hnorm Hl Hc cq models sa ea s1 Hs1 Hs2 w'. subst w'. unfold s1 in *.
  unfold settle. simpl_eff. rewrite set_models_run. simpl.
  unfold onFetchSuccess. rewrite Hsucc, Hnorm. fold cq models sa. simpl_eff.
  erewrite dispatch_run_throw;
    [|eapply store_dispatch_first_throws; [exact Hl|exact Hc|simpl; by rewrite Hs1]].
  simpl. unfold onFetchError. rewrite Herr. fold cq ea.
  destruct (beforeDispatch herr); unfold log_event; simpl_eff;
    (erewrite dispatch_run_throw;
       [|eapply store_dispatch_first_throws; [exact Hl|exact Hc|simpl; by rewrite Hs2]]);
    simpl; (split_and!; [done| |done|done]); autorewrite with find_rw; simpl;
    by rewrite ?app_nil_r, <-?app_assoc.
Qed.
End Store.

(** ** Fixtures: a todo list whose view reads the first todo's user *)

(** A [getState] for the key ['todos']: the records of the todo query the
    find without query or pagination caches, in its order. *)
Definition todos_getState (c : cache) (key : string) (params options : jsval) : jsval :=
  if String.eqb key "todos" then
    match find c !! find_key JUndef JUndef with
    | Some r => JArr (map (fun id => default JUndef (JObj ∘ data <$> byId c !! id)) (record_ids r))
    | None => JArr []
    end
  else JUndef.

(** [select] of a view showing [todos[0].user.name]: a todo without [user]
    makes it throw the [TypeError] of reading [name] of [undefined]. *)
Definition first_user_select (gs : string -> jsval -> jsval -> jsval) (props : jsval)
  : outcome jsval jsval :=
  match gs "todos" (JObj []) (JObj []) with
  | JArr (t :: _) => u ← js_member t "user"; n ← js_member u "name"; Ret (JObj [("firstUser", n)])
  | _ => Ret (JObj [("firstUser", JNull)])
  end.

(** The store with the view mounted and subscribed as instance 0. *)
Definition subscribed_todos : bridge cache :=
  snd (mount todos_getState first_user_select true 0 (JObj []) (bridge_init empty_cache)).

Definition todo_with_user : jsval :=
  JObj [("id", JStr "1"); ("user", JObj [("name", JStr "ann")])].
Definition todo_without_user : jsval := JObj [("id", JStr "1"); ("title", JStr "foo")].

Definition store_dispatch_todos := store_dispatch todo_reducer todos_getState first_user_select.

(** ** Witnesses *)

Lemma find_success_reaches_view_witness :
  let w := mkWorld subscribed_todos [] 0%N in
  let h := mkHook "FETCH_TODOS" "RESOLVED" in
  let a := successAction h (number_models (w_uid w) [todo_with_user])
                         (combinedQuery (default_query JUndef) JUndef) in
  let st' := reduce todo_reducer a (b_store (w_store w)) in
  let w' := snd (settle store_dispatch_todos todo_find_config JUndef JUndef
                        (FetchOk [todo_with_user]) w) in
  let v := fire_all todos_getState first_user_select
                    (List.length (b_listeners (w_store w))) (w_store w') in
  (ci_nextState <$> b_comps v !! 0) = Some (JObj [("firstUser", JStr "ann")]) /\
  fst (settle store_dispatch_todos todo_find_config JUndef JUndef (FetchOk [todo_with_user]) w)
    = Ret tt /\
  dispatched (w_log w') = dispatched (w_log w) ++ [a] /\
  b_timers v = [] /\
  forall l c, l ∈ b_listeners (w_store w) -> b_comps (w_store w) !! l.2 = Some c ->
    exists c', b_comps v !! l.2 = Some c' /\ ci_props c' = ci_props c /\
      check_slice (first_user_select (todos_getState st') (ci_props c)) = Ret (ci_nextState c').
Proof.
  split; [vm_compute; reflexivity|].
  apply (find_success_reaches_view todo_reducer todos_getState first_user_select todo_find_config
           JUndef JUndef [todo_with_user] (mkWorld subscribed_todos [] 0%N)
           (mkHook "FETCH_TODOS" "RESOLVED")); [reflexivity|reflexivity| | |].
  - apply (bool_decide_unpack _). vm_compute. reflexivity.
  - vm_compute. reflexivity.
  - vm_compute. repeat constructor. eexists _, _. split; reflexivity.
Defined.

Lemma view_error_fails_find_witness :
  let w := mkWorld subscribed_todos [] 0%N in
  let cq := combinedQuery (default_query JUndef) JUndef in
  let models := number_models (w_uid w) [todo_without_user] in
  let sa := successAction (mkHook "FETCH_TODOS" "RESOLVED") models cq in
  let e := type_error "name" JUndef in
  let ea := errorAction (mkErrorHook "FETCH_TODOS" "ERROR_FETCHING" true) models
                        (get_prop e "data") cq in
  let s1 := reduce todo_reducer sa (b_store (w_store w)) in
  let w' := snd (settle store_dispatch_todos todo_find_config JUndef JUndef
                        (FetchOk [todo_without_user]) w) in
  find (b_store (w_store w')) !! find_key JUndef JUndef = Some (mkQuery ["1"] QERROR (JObj [])) /\
  fst (settle store_dispatch_todos todo_find_config JUndef JUndef (FetchOk [todo_without_user]) w)
    = Throw e /\
  dispatched (w_log w') = dispatched (w_log w) ++ [sa; ea] /\
  b_store (w_store w') = reduce todo_reducer ea s1 /\
  b_timers (w_store w') = b_timers (w_store w).
Proof.
  split; [vm_compute; reflexivity|].
  apply (view_error_fails_find todo_reducer todos_getState first_user_select todo_find_config
           JUndef JUndef [todo_without_user] (mkWorld subscribed_todos [] 0%N)
           (mkHook "FETCH_TODOS" "RESOLVED") (mkErrorHook "FETCH_TODOS" "ERROR_FETCHING" true)
           0 0 [] (mkInstance (JObj []) (JObj [("firstUser", JNull)]) (JObj []) true (Some 0)));
    vm_compute; reflexivity.
Defined.

Lemma find_error_reaches_view_witness :
  let w := mkWorld subscribed_todos [] 0%N in
  let herr := mkErrorHook "FETCH_TODOS" "ERROR_FETCHING" true in
  let a := errorAction herr [] (get_prop offline "data") (combinedQuery (default_query JUndef) JUndef) in
  let st' := reduce todo_reducer a (b_store (w_store w)) in
  let w' := snd (settle store_dispatch_todos todo_find_config JUndef JUndef (FetchFail offline) w) in
  let v := fire_all todos_getState first_user_select
                    (List.length (b_listeners (w_store w))) (w_store w') in
  find st' !! find_key JUndef JUndef = Some (mkQuery [] QERROR (JObj [("message", JStr "offline")])) /\
  fst (settle store_dispatch_todos todo_find_config JUndef JUndef (FetchFail offline) w) = Ret tt /\
  dispatched (w_log w') = dispatched (w_log w) ++ [a] /\
  b_timers v = [] /\
  forall l c, l ∈ b_listeners (w_store w) -> b_comps (w_store w) !! l.2 = Some c ->
    exists c', b_comps v !! l.2 = Some c' /\ ci_props c' = ci_props c /\
      check_slice (first_user_select (todos_getState st') (ci_props c)) = Ret (ci_nextState c').
Proof.
  split; [vm_compute; reflexivity|].
  apply (find_error_reaches_view todo_reducer todos_getState first_user_select todo_find_config
           JUndef JUndef offline (mkWorld subscribed_todos [] 0%N)
           (mkErrorHook "FETCH_TODOS" "ERROR_FETCHING" true)); [reflexivity| | |].
  - apply (bool_decide_unpack _). vm_compute. reflexivity.
  - vm_compute. reflexivity.
  - vm_compute. repeat constructor. eexists _, _. split; reflexivity.
Defined.

(** Three subscribed views of the todo list, each showing the title of
    the todo at its [idx]; the list first holds two todos. *)
Definition todo_a : jsval := JObj [("id", JStr "1"); ("title", JStr "write spec")].
Definition todo_b : jsval := JObj [("id", JStr "2"); ("title", JStr "prove it")].

Definition idx_select (gs : string -> jsval -> jsval -> jsval) (props : jsval) : outcome jsval jsval :=
  match gs "todos" (JObj []) (JObj []), get_prop props "idx" with
  | JArr ts, JNum n =>
      t ← js_member (nth (Z.to_nat n) ts JUndef) "title"; Ret (JObj [("title", t)])
  | _, _ => Ret (JObj [])
  end.

Definition two_found : cache :=
  w_store (snd (settle (redux_dispatch todo_reducer) todo_find_config JUndef JUndef
                       (FetchOk [todo_a; todo_b])
                       (snd (fetchAll (redux_dispatch todo_reducer) todo_find_config JUndef JUndef
                                      init_world)))).

Definition three_views : bridge cache :=
  let m i n w := snd (mount todos_getState idx_select true i (JObj [("idx", JNum n)]) w) in
  m 2 0%Z (m 1 1%Z (m 0 0%Z (bridge_init two_found))).

(** The refetch that answers with the first todo only. *)
Definition only_a : jsval :=
  successAction (mkHook "FETCH_TODOS" "RESOLVED") (number_models 2 [todo_a])
                (combinedQuery (default_query JUndef) JUndef).

(** The view at index 1 throws on the answer that lists one todo: the
    view before it has queued its update, the one after it never ran. *)
Lemma dispatch_listener_order_witness :
  let b := three_views in
  let s' := reduce todo_reducer only_a (b_store b) in
  let v0 := mkBridge s' (b_listeners b) (b_next_sub b) (b_comps b) (b_timers b) (b_log b) in
  b_timers (snd (store_dispatch todo_reducer todos_getState idx_select only_a b)) = [(0, JObj [("title", JStr "write spec")])] /\
  store_dispatch todo_reducer todos_getState idx_select only_a b =
  (Throw (type_error "title" JUndef),
   mkBridge s' (b_listeners b) (b_next_sub b) (b_comps b)
            (b_timers b ++ ((fun l => (l.2, slice_of todos_getState idx_select v0 l.2)) <$> [(0, 0)]))
            (b_log b ++ ((fun l => ESelect l.2) <$> [(0, 0)]) ++ [ESelect 1])).
Proof.
  split; [vm_compute; reflexivity|].
  apply (dispatch_listener_order todo_reducer todos_getState idx_select only_a three_views
           [(0, 0)] 1 1 [(2, 2)]
           (mkInstance (JObj [("idx", JNum 1)]) (JObj [("title", JStr "prove it")]) (JObj []) true
                       (Some 1))).
  - vm_compute. reflexivity.
  - vm_compute. repeat constructor. eexists _, _. split; reflexivity.
  - vm_compute. reflexivity.
  - vm_compute. reflexivity.
Defined.
