(* ===== verification/Decorate.v ===== *)
(** * The connect factory: module.exports, connect(select, options), the class

    connect.js exports [function(actions, blueprints, reducerActionMap)],
    which builds [getState] once and returns [connect(select, options = {})];
    [connect] returns the decorator, which wraps a component in the class
    of [Connect] under the display name [Connect(<name>)].

    The class reads [options.subscribe] in [componentDidMount], after the
    first render: with [options] [null] (the default applies to [undefined]
    only) the member access throws there.  [class_mount] is mounting an
    instance of the class: [Connect.mount] with the truthiness of
    [options.subscribe], or the first render followed by that
    [TypeError].  [getDisplayName] (./utils/getDisplayName.js) is outside
    src/ and is the usual rule of React's wrappers.

    [UsageComment] holds the two usages the file's doc comment shows:
    Scenario 1, [connect(select)], whose class never listens to the store
    (the witness of [unsubscribed_class_ignores_store]), and Scenario 2,
    [connect(select, {subscribe: true})], whose instances subscribe at
    mount ([usage_scenario2_subscribes]). *)

From S2P Require Import Prelude JsValue Connect.
From Stdlib Require Import String.
#[local] Set Warnings "-clear-no-such-hyp".

(** A decorated component, as [getDisplayName] reads it. *)
Record component := mkComponent { c_displayName : option string; c_name : option string }.

(** [Component.displayName || Component.name || 'Component']. *)
Definition getDisplayName (c : component) : string :=
  match c_displayName c, c_name c with
  | Some d, _ => d
  | None, Some n => n
  | None, None => "Component"
  end.

(** The class [React.createClass] builds (lines 46-53): its display name,
    the context it requires ([store: storeShape.isRequired]), and the
    [select] and [options] its methods close over. *)
Record connected_class (St : Type) := mkClass {
  cls_displayName : string;
  cls_contextTypes : list string;
  cls_select : (string -> jsval -> jsval -> jsval) -> jsval -> outcome jsval jsval;
  cls_options : jsval
}.
Arguments mkClass {St}.
Arguments cls_displayName {St}.
Arguments cls_contextTypes {St}.
Arguments cls_select {St}.
Arguments cls_options {St}.

Section Factory.
Context {St : Type}.

(** [module.exports(actions, blueprints, reducerActionMap)] (lines 39-42):
    [getState] is [_getState] applied once to the three. *)
Variable A Bp R : Type.
Variable _getState : A -> Bp -> R -> (St -> string -> jsval -> jsval -> jsval).

(** [connect(select, options = {})(DecoratedComponent)] (lines 44-53). *)
Definition connect (select : (string -> jsval -> jsval -> jsval) -> jsval -> outcome jsval jsval)
    (options : jsval) (decorated : component) : connected_class St :=
  let options := match options with JUndef => JObj [] | o => o end in
  mkClass ("Connect(" +:+ getDisplayName decorated +:+ ")") ["store"] select options.

Definition module_exports (actions : A) (blueprints : Bp) (reducerActionMap : R) :=
  (_getState actions blueprints reducerActionMap, connect).

(** [!options.subscribe] in [componentDidMount] (line 75): the member
    access, then JavaScript truthiness. *)
Definition options_subscribe (options : jsval) : outcome jsval bool :=
  sub ← js_member options "subscribe"; Ret (truthy sub).

(** Mounting an instance of the class: getInitialState, render, then
    [componentDidMount], which first reads [options.subscribe]. *)
Definition class_mount (getState : St -> string -> jsval -> jsval -> jsval)
    (cls : connected_class St) (i : nat) (props : jsval) : eff jsval (bridge St) unit :=
  match options_subscribe (cls_options cls) with
  | Ret sub => mount getState (cls_select cls) sub i props
  | Throw e => getInitialState getState (cls_select cls) i props ;;; render i ;;; ethrow e
  end.
End Factory.

(** A lifecycle step of a bridge whose instances are of the class [cls]:
    the step of [Connect] with the [options.subscribe] the class reads. *)
Definition class_bstep {St} (getState : St -> string -> jsval -> jsval -> jsval)
    (cls : connected_class St) (w w' : bridge St) : Prop :=
  exists sub, options_subscribe (cls_options cls) = Ret sub /\ bstep getState (cls_select cls) sub w w'.

(** ** The usage comment of connect.js (lines 8-37) *)

Module UsageComment.
(** The selector of both scenarios:
    [function(getState, props, context){ return {user: getState('user.current')} }]. *)
Definition user_select (getState : string -> jsval -> jsval -> jsval) (props : jsval)
  : outcome jsval jsval :=
  Ret (JObj [("user", getState "user.current" JUndef JUndef)]).

(** Scenario 1: [connect(select)(Component)], no options. *)
Definition scenario1 {St} (c : component) : connected_class St := connect user_select JUndef c.

(** Scenario 2: [connect(select, {subscribe: true})(Component)]. *)
Definition scenario2 {St} (c : component) : connected_class St :=
  connect user_select (JObj [("subscribe", JBool true)]) c.
End UsageComment.

(** ** Lemmas *)

Section Unsubscribed.
Context {St : Type}.
Variable getState : St -> string -> jsval -> jsval -> jsval.
Variable select : (string -> jsval -> jsval -> jsval) -> jsval -> outcome jsval jsval.

(** Without [options.subscribe], no step adds a listener. *)
Lemma bstep_no_listeners w w' :
  bstep getState select false w w' -> b_listeners w = [] -> b_listeners w' = [].
Proof.
  intros Hs Hl. destruct Hs as [i props w Hi|s' w|w|i p w Hi|i w Hi].
  - rewrite mount_run. by destruct check_slice.
  - rewrite notify_run, Hl. done.
  - rewrite fire_run. destruct (b_timers w) as [|[i sl] rest]; [done|]. cbv zeta.
    destruct (b_comps w !! i) as [ci|] eqn:Hi; [|done]. destruct (ci_mounted ci); [|done].
    by destruct (setState_fields getState select i sl
                   (mkBridge (b_store w) (b_listeners w) (b_next_sub w) (b_comps w) rest (b_log w))
                   ci Hi) as (-> & _).
  - by destruct (update_props_fields getState select i p w) as (-> & _).
  - destruct Hi as (ci & Hi & _). rewrite (unmount_run _ _ _ Hi), Hl. by destruct ci_unsubscribe.
Qed.

Lemma notify_no_listeners s' w :
  b_listeners w = [] ->
  snd (notify getState select s' w) = mkBridge s' [] (b_next_sub w) (b_comps w) (b_timers w) (b_log w).
Proof. intros Hl. rewrite notify_run, Hl. done. Qed.
End Unsubscribed.

(** ** What the class does *)

(** C19: A class whose options do not set [subscribe] (as [connect(select)]
    with the default [{}]) never listens to the store: in every bridge its
    instances reach, the store has no listener, so a store change only
    replaces the state; no instance selects, sets its state or renders
    because of it. *)
Theorem unsubscribed_class_ignores_store {St} (getState : St -> string -> jsval -> jsval -> jsval)
    (cls : connected_class St) s w s' :
  options_subscribe (cls_options cls) = Ret false ->
  rtc (class_bstep getState cls) (bridge_init s) w ->
  b_listeners w = [] /\
  snd (notify getState (cls_select cls) s' w) =
  mkBridge s' [] (b_next_sub w) (b_comps w) (b_timers w) (b_log w).
Proof.
  intros Hopt Hr.
  assert (Hl : b_listeners w = []).
  { eapply (rtc_ind_r (fun v => b_listeners v = [])); [| |exact Hr]; [done|].
    intros v1 v2 _ (sub & Hsub & Hs) IH. rewrite Hopt in Hsub. injection Hsub as <-.
    by eapply bstep_no_listeners. }
  split; [done|]. by apply notify_no_listeners.
Qed.

(** C21: A finding against the spec's error policy ("programmer-error
    failures are thrown immediately so misconfiguration is caught before
    first render"): [connect(select, null)] builds its class, and an
    instance selects and renders before [componentDidMount] throws the
    [TypeError] of [options.subscribe]; the instance is left unmounted and
    unsubscribed. *)
Theorem null_options_throw_after_render {St} (getState : St -> string -> jsval -> jsval -> jsval)
    select c i props (w : bridge St) sl :
  check_slice (select (getStateOnMount getState (b_store w)) props) = Ret sl ->
  let cls := connect select JNull c in
  let w' := snd (class_mount getState cls i props w) in
  fst (class_mount getState cls i props w) = Throw (type_error "subscribe" JNull) /\
  b_log w' = b_log w ++ [ESelect i; ERender i (render_props sl props)] /\
  b_comps w' !! i = Some (mkInstance props sl (JObj []) false None) /\
  b_listeners w' = b_listeners w.
Proof.
  intros Hp. unfold class_mount. simpl.
  unfold getInitialState, render, get_comp, put_comp, set_comps, log_bevent.
  simpl_eff. rewrite selectState_run. simpl. rewrite Hp. simpl.
  rewrite lookup_insert_eq. simpl. rewrite <-app_assoc. by rewrite lookup_insert_eq.
Qed.

(** The comment's Scenario 2 subscribes: mounting an instance of its class
    adds the instance's listener to the store, whatever the store holds
    (the selector always returns a plain object). *)
Lemma usage_scenario2_subscribes {St} (getState : St -> string -> jsval -> jsval -> jsval)
    c i props (w : bridge St) :
  b_listeners (snd (class_mount getState (UsageComment.scenario2 c) i props w)) =
  b_listeners w ++ [(b_next_sub w, i)].
Proof. unfold class_mount. simpl. by rewrite mount_run. Qed.

(** ** Witnesses *)

Definition todo_list : component := mkComponent None (Some "TodoList").

Lemma null_options_throw_after_render_witness :
  let cls := connect todo_select JNull todo_list in
  let w' := snd (class_mount fixture_getState cls 0 (JObj []) (bridge_init todo_state)) in
  cls_displayName cls = "Connect(TodoList)" /\
  fst (class_mount fixture_getState cls 0 (JObj []) (bridge_init todo_state)) =
  Throw (type_error "subscribe" JNull) /\
  b_log w' = [ESelect 0; ERender 0 (render_props (JObj [("todos", JArr [JStr "write spec"])])
                                                 (JObj []))] /\
  b_comps w' !! 0 = Some (mkInstance (JObj []) (JObj [("todos", JArr [JStr "write spec"])])
                                     (JObj []) false None) /\
  b_listeners w' = [].
Proof.
  split; [reflexivity|].
  exact (null_options_throw_after_render fixture_getState todo_select todo_list 0 (JObj [])
           (bridge_init todo_state) _ eq_refl).
Defined.

(** The store of the usage comment: [getState('user.current')] reads the
    key of the fixture's [getState]. *)
Definition user_state : jsval := JObj [("user.current", JObj [("name", JStr "ann")])].
Definition user_state' : jsval := JObj [("user.current", JObj [("name", JStr "bob")])].

Definition scenario1_mounted : bridge jsval :=
  snd (class_mount fixture_getState (UsageComment.scenario1 todo_list) 0 (JObj [])
                   (bridge_init user_state)).

(** The comment's Scenario 1 does not subscribe: a store change reaches
    no instance. *)
Lemma unsubscribed_class_ignores_store_witness :
  options_subscribe (cls_options (St:=jsval) (UsageComment.scenario1 todo_list)) = Ret false /\
  rtc (class_bstep fixture_getState (UsageComment.scenario1 todo_list)) (bridge_init user_state)
      scenario1_mounted /\
  b_listeners scenario1_mounted = [] /\
  snd (notify fixture_getState UsageComment.user_select user_state' scenario1_mounted) =
  mkBridge user_state' [] (b_next_sub scenario1_mounted) (b_comps scenario1_mounted)
           (b_timers scenario1_mounted) (b_log scenario1_mounted).
Proof.
  assert (Hr : rtc (class_bstep fixture_getState (UsageComment.scenario1 todo_list))
                   (bridge_init user_state) scenario1_mounted).
  { apply rtc_once. exists false. split; [reflexivity|]. apply BMount. reflexivity. }
  split_and!; [reflexivity|exact Hr|..];
    apply (unsubscribed_class_ignores_store fixture_getState (UsageComment.scenario1 todo_list)
             user_state scenario1_mounted user_state' eq_refl Hr).
Defined.
