(* ===== verification/Tutorial.v ===== *)
(** * The tutorial components: Guessatron and DeleteLink

    Two components of the tutorial templates use the framework:

    - [Guessatron] (lore-generate-tutorial, step13, Guessatron.js) is
      decorated by [lore.connect] with a selector reading the color of the
      route's [colorId], and renders its name;
    - [DeleteLink] (lore-tutorial, step19, DeleteLink.js) renders a link
      whose click opens a confirmation dialog, whose submit destroys the
      tweet.

    A React element is a [vnode]: a tag, its props (values, or an event
    handler of the component) and its children; a JSX expression child
    ([{color.data.name}]) stays the value it evaluates to.  A member access
    that reads a property of [undefined] throws the [TypeError] of
    [JsValue.js_member].  [randomColor()] is a parameter of [getStyles]:
    the string it returned at that render. *)

From S2P Require Import Prelude JsValue RecordStore FindBlueprint Integration Crud Connect Decorate.
From Stdlib Require Import String.
#[local] Set Warnings "-clear-no-such-hyp".

(** ** React elements *)

(** A prop of an element: a value, or a handler of the component. *)
Inductive vprop (H : Type) :=
| PVal (v : jsval)
| PHandler (h : H).
Arguments PVal {H} v.
Arguments PHandler {H} h.

#[warnings="-register-all"]
Inductive vnode (H : Type) :=
| VElem (tag : string) (props : list (string * vprop H)) (children : list (vnode H))
| VText (s : string)
| VExpr (v : jsval).
Arguments VElem {H} tag props children.
Arguments VText {H} s.
Arguments VExpr {H} v.

(** The handler React calls when the element is clicked. *)
Definition onClick_of {H} (n : vnode H) : option H :=
  match n with
  | VElem _ props _ =>
      match list_find (fun kv => kv.1 = "onClick") props with
      | Some (_, (_, PHandler h)) => Some h
      | _ => None
      end
  | _ => None
  end.

(** [React.PropTypes.object.isRequired]: the value is present and its
    type is ["object"] (an array's is ["array"], [null] is missing). *)
Definition object_required (v : jsval) : bool :=
  match v with JObj _ => true | _ => false end.

(** A component's [propTypes], each checked against its prop. *)
Definition check_propTypes (pts : list (string * (jsval -> bool))) (props : jsval) : bool :=
  forallb (fun pt => pt.2 (get_prop props pt.1)) pts.

(** ** Guessatron *)

Module Guessatron.

(** The selector passed to [lore.connect] (lines 4-10):
    [{color: getState('color.byId', {id: props.params.colorId})}]; the
    bound [getState] is called without options, and [props.params.colorId]
    throws when the route gives no [params]. *)
Definition select (gs : string -> jsval -> jsval -> jsval) (props : jsval)
  : outcome jsval jsval :=
  params ← js_member props "params";
  colorId ← js_member params "colorId";
  Ret (JObj [("color", gs "color.byId" (JObj [("id", colorId)]) JUndef)]).

(** [static propTypes = {color: React.PropTypes.object.isRequired}]. *)
Definition propTypes : list (string * (jsval -> bool)) := [("color", object_required)].

(** [getStyles()], with [bg] the color [randomColor()] returned. *)
Definition getStyles (bg : string) : jsval :=
  JObj [("media", JObj [("height", JStr "64px"); ("width", JStr "64px");
                        ("backgroundColor", JStr bg)])].

(** The element [render] returns once [color.data.name] is [name]. *)
Definition tree (styles name : jsval) : vnode Empty_set :=
  VElem "div" []
    [VElem "h2" [] [VText "Guessatron Result"];
     VElem "div" [("className", PVal (JStr "media"))]
       [VElem "div" [("className", PVal (JStr "media-left"))]
          [VElem "a" [("href", PVal (JStr "#"))]
             [VElem "div" [("className", PVal (JStr "media-object"));
                           ("style", PVal (get_prop styles "media"))] []]];
        VElem "div" [("className", PVal (JStr "media-body"))]
          [VElem "h4" [("className", PVal (JStr "media-heading"))] [VExpr name];
           VElem "em" [] [VText "Is this your color?"];
           VElem "div" [] [VText "I hope it is because it's the only color I know."]]]].

(** [render()] (lines 27-48): [this.props.color], [this.getStyles()], then
    the JSX, which reads [color.data.name]. *)
Definition render (bg : string) (props : jsval) : outcome jsval (vnode Empty_set) :=
  color ← js_member props "color";
  let styles := getStyles bg in
  data ← js_member color "data";
  name ← js_member data "name";
  Ret (tree styles name).

(** The decorator [@lore.connect(select)] on [class Guessatron] (lines
    4-11): no options, so the default [{}]. *)
Definition connected {St} : connected_class St :=
  connect select JUndef (mkComponent None (Some "Guessatron")).

End Guessatron.

(** ** What Guessatron does *)

Section GuessatronProps.
Context {St : Type}.
Variable getState : St -> string -> jsval -> jsval -> jsval.

Lemma guessatron_select_mount st fs :
  nullish (assoc_get fs "params") = false ->
  check_slice (Guessatron.select (getStateOnMount getState st) (JObj fs)) =
  Ret (JObj [("color", getState st "color.byId"
                         (JObj [("id", get_prop (assoc_get fs "params") "colorId")])
                         (JObj [("force", JUndef)]))]).
Proof. intros Hp. unfold Guessatron.select. rewrite js_member_obj. simpl. by rewrite js_member_def. Qed.

(** [render] on every branch: it throws the [TypeError] of
    [color.data] when the [color] prop is [undefined] or [null], the one of
    [color.data.name] when [color.data] is, and otherwise returns the
    element whose heading is [color.data.name], styled with the color
    [randomColor()] returned. *)
Lemma guessatron_render_cases bg fs :
  let color := assoc_get fs "color" in
  let data := get_prop color "data" in
  Guessatron.render bg (JObj fs) =
  if nullish color then Throw (type_error "data" color)
  else if nullish data then Throw (type_error "name" data)
  else Ret (Guessatron.tree (Guessatron.getStyles bg) (get_prop data "name")).
Proof.
  cbv zeta. unfold Guessatron.render. rewrite js_member_obj. simpl.
  destruct (nullish (assoc_get fs "color")) eqn:Hc;
    [by rewrite js_member_nullish|rewrite js_member_def by done]. simpl.
  destruct (nullish (get_prop (assoc_get fs "color") "data")) eqn:Hd;
    [by rewrite js_member_nullish|by rewrite js_member_def].
Qed.

(** C27: What [propTypes] guarantee: when the props pass Guessatron's
    [propTypes] ([color] is an object), [render] can still throw, but only
    the [TypeError] of reading [name] of a missing [color.data]. *)
Theorem guessatron_propTypes_partial bg props e :
  check_propTypes Guessatron.propTypes props = true ->
  Guessatron.render bg props = Throw e ->
  e = type_error "name" (get_prop (get_prop props "color") "data").
Proof.
  unfold check_propTypes, Guessatron.propTypes. simpl. rewrite andb_true_r.
  destruct props as [| | | | | |fs]; try done. simpl.
  destruct (assoc_get fs "color") as [| | | | | |cfs] eqn:Hc; try done. intros _.
  unfold Guessatron.render. rewrite js_member_obj, Hc. simpl.
  destruct (nullish (assoc_get cfs "data")) eqn:Hd.
  - rewrite js_member_nullish by done. simpl. by intros [= <-].
  - rewrite js_member_def by done. done.
Qed.

(** C28: Guessatron's connected class at mount, on both branches: when the
    route gives no [params] ([undefined] or [null]), [select] throws the
    [TypeError] of [props.params.colorId] and no instance is created;
    otherwise it mounts, reading the color of [params.colorId] with the
    options [{force: undefined}] (no refetch forced), and renders once. *)
Theorem guessatron_mounts sub i fs (w : bridge St) :
  let params := assoc_get fs "params" in
  if nullish params then
    mount getState Guessatron.select sub i (JObj fs) w =
    (Throw (type_error "colorId" params),
     mkBridge (b_store w) (b_listeners w) (b_next_sub w) (b_comps w) (b_timers w)
              (b_log w ++ [ESelect i]))
  else
    let sl := JObj [("color", getState (b_store w) "color.byId"
                                (JObj [("id", get_prop params "colorId")])
                                (JObj [("force", JUndef)]))] in
    fst (mount getState Guessatron.select sub i (JObj fs) w) = Ret tt /\
    b_log (snd (mount getState Guessatron.select sub i (JObj fs) w)) =
    b_log w ++ [ESelect i; ERender i (render_props sl (JObj fs))].
Proof.
  cbv zeta. destruct (nullish (assoc_get fs "params")) eqn:Hp.
  - unfold mount, getInitialState. simpl_eff. rewrite selectState_run. simpl.
    unfold Guessatron.select. rewrite js_member_obj. simpl.
    by rewrite js_member_nullish.
  - pose proof (guessatron_select_mount (b_store w) fs Hp) as Hs.
    split; [by eapply mount_returns|]. rewrite mount_run, Hs. by destruct sub.
Qed.

(** C26: Connect and Guessatron together: when the route gives [params],
    the parent passes no [color] prop, and the store's color and its
    [data] are there, the element the connected class renders at mount
    is Guessatron with the props on which its [render] shows the store's
    [color.data.name]. *)
Theorem guessatron_shows_store_color sub i bg fs (w : bridge St) :
  obj_wf fs -> "color" ∉ fs.*1 -> nullish (assoc_get fs "params") = false ->
  let c := getState (b_store w) "color.byId"
             (JObj [("id", get_prop (assoc_get fs "params") "colorId")])
             (JObj [("force", JUndef)]) in
  nullish c = false -> nullish (get_prop c "data") = false ->
  exists p, last (b_log (snd (mount getState Guessatron.select sub i (JObj fs) w))) = Some (ERender i p) /\
            Guessatron.render bg p = Ret (Guessatron.tree (Guessatron.getStyles bg)
                                                          (get_prop (get_prop c "data") "name")).
Proof.
  intros Hwf Hc Hp. cbv zeta. intros Hn Hd.
  rewrite mount_run, guessatron_select_mount by done.
  eexists. split; [destruct sub; simpl; by rewrite last_app|].
  unfold Guessatron.render, render_props.
  rewrite (js_member_def _ "color") by done. rewrite get_prop_assign2 by (done || apply NoDup_singleton).
  rewrite decide_False by done. rewrite decide_True by set_solver. simpl.
  rewrite js_member_def by done. simpl. by rewrite js_member_def.
Qed.

End GuessatronProps.

(** ** DeleteLink *)

Module DeleteLink.

(** [onDestroy], the one handler of the component, bound to the instance
    by the constructor. *)
Inductive handler := OnDestroy.

(** An instance: [this.props.tweet] (DeleteLink.propTypes, lines 46-48,
    require an object: a record of the tweet collection) and the bound
    [this.onDestroy] (the constructor, lines 5-8). *)
Record instance := mkInstance { tweet : record; onDestroy_bound : handler }.

Definition constructor (tweet : record) : instance := mkInstance tweet OnDestroy.

(** [DeleteLink.propTypes = {tweet: React.PropTypes.object.isRequired}]. *)
Definition propTypes : list (string * (jsval -> bool)) := [("tweet", object_required)].

(** [getStyles()] (lines 10-17). *)
Definition getStyles : jsval :=
  JObj [("link", JObj [("cursor", JStr "pointer"); ("marginRight", JStr "16px")])].

(** [render()] (lines 34-43):
    [<a style={styles.link} onClick={this.onDestroy}>delete</a>]. *)
Definition render (inst : instance) : vnode handler :=
  VElem "a" [("style", PVal (get_prop getStyles "link"));
             ("onClick", PHandler (onDestroy_bound inst))] [VText "delete"].

(** The page the link is on: the world of the verbs and the dialog on
    screen, if any. *)
Record page := mkPage { pg_world : world cache; pg_dialog : option record }.

(** [onDestroy()] (lines 19-32) destroys nothing: [lore.dialog.show] puts
    on screen the destroy dialog of the tweet, whose [onSubmit] is
    [destroyTweet], i.e. [lore.actions.tweet.destroy(tweet)]. *)
Definition onDestroy (tweet : record) (pg : page) : page := mkPage (pg_world pg) (Some tweet).

(** The dialog's buttons: submitting runs [onSubmit], i.e. the destroy, and
    closes the dialog; cancelling only closes it. *)
Definition dialog_submit (pg : page) : outcome jsval unit * page :=
  match pg_dialog pg with
  | Some tweet => let (o, w) := destroy tweet (pg_world pg) in (o, mkPage w None)
  | None => (Ret tt, pg)
  end.

Definition dialog_cancel (pg : page) : page := mkPage (pg_world pg) None.

(** A handler of the instance run on the page. *)
Definition run_handler (inst : instance) (h : handler) (pg : page) : page :=
  match h with OnDestroy => onDestroy (tweet inst) pg end.

(** A click on the rendered link: React calls its [onClick]. *)
Definition click (inst : instance) (pg : page) : page :=
  match onClick_of (render inst) with
  | Some h => run_handler inst h pg
  | None => pg
  end.

End DeleteLink.

(** ** DeleteLink asks before it destroys *)

Import DeleteLink.

(** C33: The tutorial's delete link destroys a tweet only once the dialog
    is submitted: a click on the link [render] returns runs [onDestroy],
    which issues no request and leaves the cache; the submit issues
    exactly one DELETE for the tweet's server id and marks it
    PENDING_DESTROY; a cancel issues nothing. *)
Theorem delete_link_confirms t pg i :
  sid t = Some i ->
  let pg1 := click (constructor t) pg in
  let pg2 := snd (dialog_submit pg1) in
  pg_world pg1 = pg_world pg /\ pg_dialog pg1 = Some t /\
  w_log (pg_world pg2) = w_log (pg_world pg) ++ [EvRequest "DELETE" (Some i) JUndef] /\
  w_store (pg_world pg2) = applyOptimisticDestroy (cid t) (w_store (pg_world pg)) /\
  pg_dialog pg2 = None /\ pg_world (dialog_cancel pg1) = pg_world pg.
Proof.
  intros Hi. cbv zeta. unfold dialog_submit. simpl. rewrite destroy_run, Hi. by simpl.
Qed.

Lemma delete_link_confirms_witness :
  let pg := mkPage (crud_init (populate (JStr "1"))) None in
  let pg2 := snd (dialog_submit (click (constructor (populated_todo_record (JStr "1"))) pg)) in
  w_log (pg_world pg2) = [EvRequest "DELETE" (Some "1") JUndef] /\
  counts (w_store (pg_world pg2)) = (0, 1, 1).
Proof.
  pose proof (delete_link_confirms (populated_todo_record (JStr "1"))
                (mkPage (crud_init (populate (JStr "1"))) None) "1" eq_refl) as (_&_&Hlog&Hst&_).
  split; [exact Hlog|]. rewrite Hst. vm_compute. reflexivity.
Defined.

(** ** Witnesses *)

Definition color_store : jsval :=
  JObj [("color.byId", JObj [("id", JStr "1"); ("data", JObj [("name", JStr "red")])])].

Definition color_route : list (string * jsval) := [("params", JObj [("colorId", JStr "1")])].

Lemma guessatron_propTypes_partial_witness :
  check_propTypes Guessatron.propTypes (JObj [("color", JObj [])]) = true /\
  Guessatron.render "#ff0000" (JObj [("color", JObj [])]) = Throw (type_error "name" JUndef) /\
  type_error "name" JUndef =
  type_error "name" (get_prop (get_prop (JObj [("color", JObj [])]) "color") "data").
Proof.
  split_and!; [reflexivity|reflexivity|].
  apply (guessatron_propTypes_partial "#ff0000"); reflexivity.
Defined.

Lemma guessatron_shows_store_color_witness :
  exists p, last (b_log (snd (mount fixture_getState Guessatron.select false 0 (JObj color_route)
                                   (bridge_init color_store)))) = Some (ERender 0 p) /\
            Guessatron.render "#ff0000" p =
            Ret (Guessatron.tree (Guessatron.getStyles "#ff0000") (JStr "red")).
Proof.
  apply (guessatron_shows_store_color fixture_getState false 0 "#ff0000" color_route
           (bridge_init color_store));
    [apply NoDup_singleton|vm_compute; set_solver|reflexivity|reflexivity|reflexivity].
Defined.
